(** * Embla Carousel: the vanilla facade ([src/vanilla/index.ts]) over its engine

    The facade [EmblaCarousel] is embedded from its source.  The engine
    components it drives ([components/counter], [components/limit],
    [components/slideLooper], [components/dragHandler], [components/engine],
    ...) are embedded from their written specification; each such
    definition says so in its doc comment.

    Conventions of the embedding:
    - positions and sizes are integers (pixels), indexes are integers;
    - an object that the source mutates in place and returns ([self]) is a
      value here, and a mutator returns the updated value;
    - the closure variables of [EmblaCarousel] together with the part of
      the host page it touches form one [State] record, threaded through a
      state monad in which a [throw] keeps the state reached so far. *)

From Stdlib Require Import ZArith List Ascii String Bool Lia QArith.
Import ListNotations.
Open Scope Z_scope.

(* ================================================================== *)
(** ** Counter (the [Index] cursor)                                    *)
(* ================================================================== *)

Module Counter.

(** Modelled from the spec: the state of a [components/counter] cursor,
    "a bounded or wrapping integer cursor over snap points". *)
Record t : Type := mk {
  value : Z;      (* the cursor *)
  count : Z;      (* number of scroll snaps it ranges over *)
  loop : bool     (* wrap around (loop mode) or clamp *)
}.

(** Modelled from the spec: [components/counter] is not part of the
    sources.  "An integer cursor ranging over [0, scrollSnapCount)";
    "in loop mode this wraps using modulo arithmetic over snap count
    (negative results wrap to the high end); in non-loop mode results are
    clamped to [0, count-1]".  With an empty snap list the cursor rests
    at 0. *)
Definition withinLimit (cnt : Z) (lp : bool) (n : Z) : Z :=
  if cnt <=? 0 then 0
  else if lp then n mod cnt
  else Z.max 0 (Z.min (cnt - 1) n).

(** Modelled from the spec: the constructor of [components/counter];
    the start value is brought into range like every later value. *)
Definition new (start cnt : Z) (lp : bool) : t :=
  mk (withinLimit cnt lp start) cnt lp.

(** Modelled from the spec: [get] of [components/counter], the cursor. *)
Definition get (c : t) : Z := value c.

(** Modelled from the spec: [set] of [components/counter]; returns the
    counter itself. *)
Definition set (n : Z) (c : t) : t :=
  mk (withinLimit (count c) (loop c) n) (count c) (loop c).

(** Modelled from the spec: [add] of [components/counter], "[add(n)]
    moves the cursor by [n] positions"; returns the counter itself. *)
Definition add (n : Z) (c : t) : t := set (get c + n) c.

(** Modelled from the spec: [clone] of [components/counter], "yields an
    independent copy for speculative arithmetic". *)
Definition clone (c : t) : t := mk (value c) (count c) (loop c).

(** The data-model invariant of a cursor: it points at a snap. *)
Definition wf (c : t) : Prop := 0 <= value c < count c.

End Counter.

(* ================================================================== *)
(** ** Limit                                                           *)
(* ================================================================== *)

Module Limit.

(** Modelled from the spec: [components/limit], "a pair (min, max) scalar
    bounds". *)
Record t : Type := mk { min : Z; max : Z }.

(** Modelled from the spec: [components/limit] is not part of the
    sources.  "[limit.constrain(pos)] clamps [pos] into [min, max]". *)
Definition constrain (l : t) (pos : Z) : Z :=
  Z.max (min l) (Z.min (max l) pos).

(** Modelled from the spec: being within the bounds of
    [components/limit], ends included. *)
Definition inBounds (l : t) (pos : Z) : bool :=
  (min l <=? pos) && (pos <=? max l).

(** Modelled from the spec: "[limit.removeOffset(pos)] maps [pos] into an
    equivalent representative inside bounds via modular reduction over
    the total content span"; "applying it to an already-in-bounds
    position returns that position unchanged". *)
Definition removeOffset (l : t) (pos : Z) : Z :=
  if inBounds l pos then pos
  else if max l - min l <=? 0 then min l
  else min l + (pos - min l) mod (max l - min l).

End Limit.

(* ================================================================== *)
(** ** SlideLooper                                                     *)
(* ================================================================== *)

Module SlideLooper.

(** Modelled from the spec: what [components/slideLooper] is built from,
    the measured viewport and slides; [looping] records that the shadow
    offsets are in place. *)
Record t : Type := mk {
  viewSize : Z;            (* size of the viewport along the axis *)
  slideSizes : list Z;     (* size of each slide along the axis *)
  looping : bool           (* the shadow offsets are applied *)
}.

(** Modelled from the spec: the "total slide content size" of
    [components/slideLooper]. *)
Definition contentSize (sl : t) : Z := fold_right Z.add 0 (slideSizes sl).

(** Modelled from the spec: the "one slide" that [components/slideLooper]
    wants to fit beside the viewport, taken to be the widest one (any one
    when all slides are equally wide). *)
Definition oneSlide (sl : t) : Z :=
  match slideSizes sl with
  | [] => 0
  | s :: rest => fold_left Z.max rest s
  end.

(** Modelled from the spec: [components/slideLooper] is not part of the
    sources.  "Looping requires that total slide content size is at
    least as large as the viewport plus one slide, otherwise wrapping
    artifacts would be visible". *)
Definition canLoop (sl : t) : bool :=
  viewSize sl + oneSlide sl <=? contentSize sl.

(** Modelled from the spec: [loop(slides)] applies the shadow offsets,
    [clear(slides)] "removes these offsets on teardown".  Only the fact
    that they are applied is kept; the spec gives no formula for them. *)
Definition loop (sl : t) : t := mk (viewSize sl) (slideSizes sl) true.

(** Modelled from the spec: [clear(slides)] of [components/slideLooper],
    see [loop]. *)
Definition clear (sl : t) : t := mk (viewSize sl) (slideSizes sl) false.

End SlideLooper.

(* ================================================================== *)
(** ** DragHandler                                                     *)
(* ================================================================== *)

Module DragHandler.

(** Modelled from the spec: the "transient per-gesture record (start
    position, ..., accumulated delta ...)" of [components/dragHandler],
    with the click threshold and the click-suppression flag. *)
Record t : Type := mk {
  clickThreshold : Z;       (* displacement from which a gesture is a drag *)
  activationEvents : bool;  (* pointer listeners are attached *)
  dragActive : bool;        (* between pointer-down and pointer-up *)
  startPosition : Z;        (* pointer position at pointer-down *)
  delta : Z;                (* displacement from the start position *)
  preventClick : bool       (* the displacement has reached the threshold *)
}.

(** Modelled from the spec: the "pointer-down/move/up sequences" that
    [components/dragHandler] receives, with the pointer position along
    the axis. *)
Inductive PointerEvent : Type :=
| PointerDown (pos : Z)
| PointerMove (pos : Z)
| PointerUp.

(** Modelled from the spec: [components/dragHandler] is not part of the
    sources.  A handler that has seen no gesture allows clicks. *)
Definition new (threshold : Z) : t := mk threshold false false 0 0 false.

(** Modelled from the spec: "[pointerDown]: records start position/time,
    ... marks drag-active".  The gesture that begins has not moved yet. *)
Definition pointerDown (pos : Z) (h : t) : t :=
  mk (clickThreshold h) (activationEvents h) true pos 0 false.

(** Modelled from the spec: "[pointerMove]: computes delta from start";
    "[clickAllowed()] is true iff total gesture displacement stays below
    the click threshold", so a move that takes the pointer as far as the
    threshold from the start makes the gesture a drag, whatever follows.
    A move outside a gesture is ignored. *)
Definition pointerMove (pos : Z) (h : t) : t :=
  if dragActive h
  then let d := pos - startPosition h in
       mk (clickThreshold h) (activationEvents h) true (startPosition h) d
          (preventClick h || negb (Z.abs d <? clickThreshold h))
  else h.

(** Modelled from the spec: "[pointerUp]: ... if displacement exceeds a
    small threshold, this is a drag ...; if displacement is below
    threshold, this is a click ([clickAllowed()] returns true so the
    click is not suppressed).  A drag always sets [clickAllowed()] false
    for that gesture's subsequent click event". *)
Definition pointerUp (h : t) : t :=
  if dragActive h
  then mk (clickThreshold h) (activationEvents h) false (startPosition h)
          (delta h)
          (preventClick h || negb (Z.abs (delta h) <? clickThreshold h))
  else h.

(** Modelled from the spec: the listener of [components/dragHandler]
    that each kind of pointer event reaches. *)
Definition handle (h : t) (e : PointerEvent) : t :=
  match e with
  | PointerDown pos => pointerDown pos h
  | PointerMove pos => pointerMove pos h
  | PointerUp => pointerUp h
  end.

(** Feeds a sequence of pointer events, oldest first. *)
Definition run (es : list PointerEvent) (h : t) : t := fold_left handle es h.

(** A completed gesture: pointer-down at [start], the pointer then
    visits [path], pointer-up. *)
Definition gesture (start : Z) (path : list Z) : list PointerEvent :=
  PointerDown start :: map PointerMove path ++ [PointerUp].

(** The "total gesture displacement": the farthest the pointer gets, on
    its [path], from where it went down. *)
Definition displacement (start : Z) (path : list Z) : Z :=
  fold_right Z.max 0 (map (fun pos => Z.abs (pos - start)) path).

(** Modelled from the spec: [clickAllowed()] of [components/dragHandler],
    false exactly after a drag. *)
Definition clickAllowed (h : t) : bool := negb (preventClick h).

(** Modelled from the spec: [addActivationEvents] attaches the pointer
    listeners; "[removeAllEvents]/teardown releases all attached pointer
    listeners; must leave no dangling gesture state". *)
Definition addActivationEvents (h : t) : t :=
  mk (clickThreshold h) true (dragActive h) (startPosition h) (delta h)
     (preventClick h).
(** Modelled from the spec: [removeAllEvents] of [components/dragHandler],
    see [addActivationEvents]. *)
Definition removeAllEvents (h : t) : t :=
  mk (clickThreshold h) false false (startPosition h) (delta h)
     (preventClick h).

End DragHandler.

(* ================================================================== *)
(** ** Small engine parts                                              *)
(* ================================================================== *)

Module ScrollBody.

(** Modelled from the spec: [components/scrollBody] is not part of the
    sources.  Two profiles each for mass and speed, "base" for
    programmatic scrolling and an alternate one for drag release; the
    facade only ever selects the base ones.  The integration step
    ([seek]) works on fractional numbers with constants the spec does
    not give and is not embedded. *)
Record t : Type := mk { baseMass : bool; baseSpeed : bool }.

(** Modelled from the spec: [useBaseMass] of [components/scrollBody],
    which selects the base mass and returns the body. *)
Definition useBaseMass (b : t) : t := mk true (baseSpeed b).

(** Modelled from the spec: [useBaseSpeed] of [components/scrollBody],
    which selects the base speed and returns the body. *)
Definition useBaseSpeed (b : t) : t := mk (baseMass b) true.

End ScrollBody.

Module Animation.

(** Modelled from the spec: "State machine: idle -> running -> idle.
    [start()] is idempotent while running; ... [stop()] while idle is a
    no-op." *)
Record t : Type := mk { running : bool }.

(** Modelled from the spec: [start] of [components/animation]. *)
Definition start (a : t) : t := mk true.

(** Modelled from the spec: [stop] of [components/animation]. *)
Definition stop (a : t) : t := mk false.

End Animation.

Module Translate.

(** Modelled from the spec: "applies a computed position as a visual
    transform to the container"; [clear] removes the transform. *)
Record t : Type := mk { applied : option Z }.

(** Modelled from the spec: [to] of [components/translate]. *)
Definition to (pos : Z) (tr : t) : t := mk (Some pos).

(** Modelled from the spec: [clear] of [components/translate]. *)
Definition clear (tr : t) : t := mk None.

End Translate.

Module SlideFocus.

(** Modelled from the spec: "focus/accessibility wiring", of which the
    facade only attaches and releases the listeners. *)
Record t : Type := mk { activationEvents : bool }.

(** Modelled from the spec: [addActivationEvents] of
    [components/slideFocus]. *)
Definition addActivationEvents (f : t) : t := mk true.

(** Modelled from the spec: [removeAllEvents] of [components/slideFocus]. *)
Definition removeAllEvents (f : t) : t := mk false.

End SlideFocus.

(* ================================================================== *)
(** ** Options ([components/options])                                  *)
(* ================================================================== *)

(** Modelled from the spec: [components/options] is not part of the
    sources.  "Configuration with recognized options: { containerSelector,
    loop: bool, draggable: bool, draggableClass, draggingClass,
    selectedClass, startIndex: int }".  The default values are not given
    and are an argument of the constructor below. *)
Record EmblaOptions : Type := mkOptions {
  containerSelector : string;
  loop : bool;
  draggable : bool;
  draggableClass : string;
  draggingClass : string;
  selectedClass : string;
  startIndex : Z
}.

(** An options object in which any key may be absent ([EmblaOptions] as
    the facade receives it; [undefined] is the object without keys). *)
Record PartialOptions : Type := mkPartial {
  containerSelector' : option string;
  loop' : option bool;
  draggable' : option bool;
  draggableClass' : option string;
  draggingClass' : option string;
  selectedClass' : option string;
  startIndex' : option Z
}.

Definition noOptions : PartialOptions :=
  mkPartial None None None None None None None.

(** The object [{ loop: false }]. *)
Definition loopOff : PartialOptions :=
  mkPartial None (Some false) None None None None None.

Definition override {A : Type} (old : A) (new : option A) : A :=
  match new with Some x => x | None => old end.

(** [Object.assign(options, partialOptions)]: keys present on the right
    replace those on the left. *)
Definition Object_assign (o : EmblaOptions) (p : PartialOptions) : EmblaOptions :=
  mkOptions (override (containerSelector o) (containerSelector' p))
            (override (loop o) (loop' p))
            (override (draggable o) (draggable' p))
            (override (draggableClass o) (draggableClass' p))
            (override (draggingClass o) (draggingClass' p))
            (override (selectedClass o) (selectedClass' p))
            (override (startIndex o) (startIndex' p)).

(** [Object.assign({ startIndex }, partialOptions)]. *)
Definition withStartIndex (start : Z) (p : PartialOptions) : PartialOptions :=
  mkPartial (containerSelector' p) (loop' p) (draggable' p) (draggableClass' p)
            (draggingClass' p) (selectedClass' p)
            (Some (override start (startIndex' p))).

(** Truthiness of a string: the empty string is falsy. *)
Definition truthy (s : string) : bool := negb (String.eqb s EmptyString).

(* ================================================================== *)
(** ** The part of the page the carousel touches                       *)
(* ================================================================== *)

Record Element : Type := mkElement {
  elementId : nat;
  elementSize : Z          (* what [axis.measure] reads *)
}.

Record Container : Type := mkContainer {
  containerId : nat;
  containerSize : Z;       (* what [axis.measure] reads *)
  children : list Element
}.

Record Root : Type := mkRoot {
  rootId : nat;
  rootSize : Z;                              (* what [axis.measure] reads *)
  descendants : list (string * Container);   (* selector, first match *)
  rejected : string -> bool                  (* selectors that are not valid CSS *)
}.

(** [sliderRoot.querySelector(selector)] as far as it returns: the first
    match, or [None] for [null].  For a selector that is not valid CSS the
    call does not return, it throws a SyntaxError (see [storeElements]);
    no element is found then. *)
Definition querySelector (r : Root) (selector : string) : option Container :=
  if rejected r selector then None
  else match find (fun d => String.eqb (fst d) selector) (descendants r) with
       | Some d => Some (snd d)
       | None => None
       end.

(* ================================================================== *)
(** ** Engine                                                          *)
(* ================================================================== *)

Module Engine.

(** Modelled from the spec: what the engine derives from the measured
    geometry, namely [scrollSnaps], [limit], [slidesInView.check],
    [scrollProgress.get] and the path [scrollTo] takes around the loop
    ("[direction] is used only to pick the shorter path around the loop
    when wrapping").  The spec fixes the interface of these but gives no
    formula, so they are supplied from outside. *)
Record Layout : Type := mkLayout {
  snaps : list Z;               (* one target position per slide group *)
  bounds : Limit.t;             (* scrollable bounds *)
  inView : Z -> list Z;         (* [slidesInView.check] *)
  progress : Z -> Q;            (* [scrollProgress.get] *)
  shortcut : Z -> Z -> Z -> Z   (* direction, target so far, snap: new target *)
}.

(** Modelled from the spec: what the spec leaves open in the engine, the
    layout formulas and the click threshold of the drag handler. *)
Record Params : Type := mkParams {
  layoutOf : Z -> list Z -> Layout;   (* from view size and slide sizes *)
  dragThreshold : Z
}.

(** Modelled from the spec: the parts of [components/engine] that the
    facade reads or calls, "exposed by the core to the facade". *)
Record t : Type := mk {
  index : Counter.t;
  indexPrevious : Counter.t;
  location : Z;
  target : Z;
  scrollSnaps : list Z;
  slideIndexes : list Z;
  limit : Limit.t;
  slidesInView_check : Z -> list Z;
  scrollProgress_get : Z -> Q;
  scrollTarget_shortcut : Z -> Z -> Z -> Z;
  scrollBody : ScrollBody.t;
  animation : Animation.t;
  translate : Translate.t;
  slideLooper : SlideLooper.t;
  dragHandler : DragHandler.t;
  slideFocus : SlideFocus.t
}.

(** Modelled from the spec: "the snap position for that index". *)
Definition snapAt (snapList : list Z) (i : Z) : Z :=
  nth (Z.to_nat i) snapList 0.

(** Modelled from the spec: [components/engine] is not part of the
    sources.  "[Engine(...)] is a pure constructor: given
    root/container/slides/options/event-sink, it computes ScrollSnaps
    from current geometry, builds all sub-components wired to shared
    Location/Target state, and sets initial Index from
    [options.startIndex]."  The viewport is the container ("given a
    container of width W and N slides"), the slides in view are slides
    (indexes into [slides]), and location and target start on the snap
    of the start index. *)
Definition new (p : Params) (root : Root) (c : Container)
    (slides : list Element) (o : EmblaOptions) : t :=
  let sizes := map elementSize slides in
  let view := containerSize c in
  let lay := layoutOf p view sizes in
  let idx := Counter.new (startIndex o) (Z.of_nat (List.length (snaps lay))) (loop o) in
  let start := snapAt (snaps lay) (Counter.get idx) in
  let isSlide := fun i => (0 <=? i) && (i <? Z.of_nat (List.length slides)) in
  mk idx (Counter.clone idx) start start
     (snaps lay)
     (map Z.of_nat (seq 0 (List.length slides)))
     (bounds lay) (fun pos => filter isSlide (inView lay pos)) (progress lay)
     (shortcut lay)
     (ScrollBody.mk true true)
     (Animation.mk false)
     (Translate.mk None)
     (SlideLooper.mk view sizes false)
     (DragHandler.new (dragThreshold p))
     (SlideFocus.mk false).

(** Modelled from the spec: [engine.axis.measure(node)] on the root node,
    "measure(element) -> scalar size along configured axis". *)
Definition measure (e : t) (root : Root) : Z := rootSize root.

Definition with_index (f : Counter.t -> Counter.t) (e : t) : t :=
  mk (f (index e)) (indexPrevious e) (location e) (target e) (scrollSnaps e)
     (slideIndexes e) (limit e) (slidesInView_check e) (scrollProgress_get e)
     (scrollTarget_shortcut e)
     (scrollBody e) (animation e) (translate e) (slideLooper e)
     (dragHandler e) (slideFocus e).

Definition with_indexPrevious (f : Counter.t -> Counter.t) (e : t) : t :=
  mk (index e) (f (indexPrevious e)) (location e) (target e) (scrollSnaps e)
     (slideIndexes e) (limit e) (slidesInView_check e) (scrollProgress_get e)
     (scrollTarget_shortcut e)
     (scrollBody e) (animation e) (translate e) (slideLooper e)
     (dragHandler e) (slideFocus e).

Definition with_target (x : Z) (e : t) : t :=
  mk (index e) (indexPrevious e) (location e) x (scrollSnaps e)
     (slideIndexes e) (limit e) (slidesInView_check e) (scrollProgress_get e)
     (scrollTarget_shortcut e)
     (scrollBody e) (animation e) (translate e) (slideLooper e)
     (dragHandler e) (slideFocus e).

Definition with_scrollBody (f : ScrollBody.t -> ScrollBody.t) (e : t) : t :=
  mk (index e) (indexPrevious e) (location e) (target e) (scrollSnaps e)
     (slideIndexes e) (limit e) (slidesInView_check e) (scrollProgress_get e)
     (scrollTarget_shortcut e)
     (f (scrollBody e)) (animation e) (translate e) (slideLooper e)
     (dragHandler e) (slideFocus e).

Definition with_animation (f : Animation.t -> Animation.t) (e : t) : t :=
  mk (index e) (indexPrevious e) (location e) (target e) (scrollSnaps e)
     (slideIndexes e) (limit e) (slidesInView_check e) (scrollProgress_get e)
     (scrollTarget_shortcut e)
     (scrollBody e) (f (animation e)) (translate e) (slideLooper e)
     (dragHandler e) (slideFocus e).

Definition with_translate (f : Translate.t -> Translate.t) (e : t) : t :=
  mk (index e) (indexPrevious e) (location e) (target e) (scrollSnaps e)
     (slideIndexes e) (limit e) (slidesInView_check e) (scrollProgress_get e)
     (scrollTarget_shortcut e)
     (scrollBody e) (animation e) (f (translate e)) (slideLooper e)
     (dragHandler e) (slideFocus e).

Definition with_slideLooper (f : SlideLooper.t -> SlideLooper.t) (e : t) : t :=
  mk (index e) (indexPrevious e) (location e) (target e) (scrollSnaps e)
     (slideIndexes e) (limit e) (slidesInView_check e) (scrollProgress_get e)
     (scrollTarget_shortcut e)
     (scrollBody e) (animation e) (translate e) (f (slideLooper e))
     (dragHandler e) (slideFocus e).

Definition with_dragHandler (f : DragHandler.t -> DragHandler.t) (e : t) : t :=
  mk (index e) (indexPrevious e) (location e) (target e) (scrollSnaps e)
     (slideIndexes e) (limit e) (slidesInView_check e) (scrollProgress_get e)
     (scrollTarget_shortcut e)
     (scrollBody e) (animation e) (translate e) (slideLooper e)
     (f (dragHandler e)) (slideFocus e).

Definition with_slideFocus (f : SlideFocus.t -> SlideFocus.t) (e : t) : t :=
  mk (index e) (indexPrevious e) (location e) (target e) (scrollSnaps e)
     (slideIndexes e) (limit e) (slidesInView_check e) (scrollProgress_get e)
     (scrollTarget_shortcut e)
     (scrollBody e) (animation e) (translate e) (slideLooper e)
     (dragHandler e) (f (slideFocus e)).

(** Modelled from the spec: [engine.scrollTo.index]; "[scrollTo(index,
    direction)] sets Target to the snap position for that index;
    [direction] is used only to pick the shorter path around the loop
    when wrapping (+-1 determines whether the engine interpolates through
    the seam)".  The cursor moves to the requested snap (this is what
    makes [scrollNext] "advance" the selected index), the previous
    cursor remembers where it was, the target becomes the position of
    the snap, in loop mode as reached along the path that [direction]
    picks, and the animation is started. *)
Definition scrollTo_index (n direction : Z) (e : t) : t :=
  let previous := Counter.get (index e) in
  let e1 := with_index (Counter.set n) e in
  let e2 := with_indexPrevious (Counter.set previous) e1 in
  let snap := snapAt (scrollSnaps e2) (Counter.get (index e2)) in
  let e3 := with_target
              (if Counter.loop (index e2)
               then scrollTarget_shortcut e2 direction (target e2) snap
               else snap) e2 in
  with_animation Animation.start e3.

End Engine.

(* ================================================================== *)
(** ** Event emitter and event store                                   *)
(* ================================================================== *)

Inductive EmblaEvent : Type :=
| Ev_init | Ev_reInit | Ev_destroy | Ev_resize
| Ev_select | Ev_pointerDown | Ev_pointerUp.

(** The callbacks that get subscribed: the two of the facade itself, and
    those of the user of the carousel (opaque to the facade). *)
Inductive Callback : Type :=
| Cb_toggleDraggingClass
| Cb_toggleSelectedClass
| Cb_user (id : nat).

Definition EmblaEvent_eqb (a b : EmblaEvent) : bool :=
  match a, b with
  | Ev_init, Ev_init | Ev_reInit, Ev_reInit | Ev_destroy, Ev_destroy
  | Ev_resize, Ev_resize | Ev_select, Ev_select
  | Ev_pointerDown, Ev_pointerDown | Ev_pointerUp, Ev_pointerUp => true
  | _, _ => false
  end.

Definition Callback_eqb (a b : Callback) : bool :=
  match a, b with
  | Cb_toggleDraggingClass, Cb_toggleDraggingClass => true
  | Cb_toggleSelectedClass, Cb_toggleSelectedClass => true
  | Cb_user i, Cb_user j => Nat.eqb i j
  | _, _ => false
  end.

Module EventEmitter.

(** Modelled from the spec: [components/eventEmitter] is not part of the
    sources.  "String-keyed named events", a subscriber list, and
    "[emit(eventName)] / [on]/[off]"; [emitted] is the history of what
    was emitted, oldest first. *)
Record t : Type := mk {
  listeners : list (EmblaEvent * Callback);
  emitted : list EmblaEvent
}.

(** Modelled from the spec: a fresh emitter of [components/eventEmitter]. *)
Definition new : t := mk [] [].

(** Modelled from the spec: [on] of [components/eventEmitter]; returns the
    emitter, which is what makes the calls chain. *)
Definition on (evt : EmblaEvent) (cb : Callback) (em : t) : t :=
  mk (listeners em ++ [(evt, cb)]) (emitted em).

(** Modelled from the spec: [off] of [components/eventEmitter]. *)
Definition off (evt : EmblaEvent) (cb : Callback) (em : t) : t :=
  mk (filter (fun l => negb (EmblaEvent_eqb (fst l) evt && Callback_eqb (snd l) cb))
             (listeners em))
     (emitted em).

(** Modelled from the spec: the trace that [emit] of
    [components/eventEmitter] leaves. *)
Definition record (evt : EmblaEvent) (em : t) : t :=
  mk (listeners em) (emitted em ++ [evt]).

(** Modelled from the spec: the callbacks [emit] of
    [components/eventEmitter] calls for [evt], in subscription order. *)
Definition subscribers (evt : EmblaEvent) (em : t) : list Callback :=
  map snd (filter (fun l => EmblaEvent_eqb (fst l) evt) (listeners em)).

End EventEmitter.

Module EventStore.

Inductive Listener : Type := debouncedResize.

(** Modelled from the spec: [components/eventStore] is not part of the
    sources; "event-listener attachment/removal bookkeeping".  An entry
    is a listener attached to the window (node [None]) or to a node. *)
Definition t : Type := list (option nat * string * Listener).

(** Modelled from the spec: a fresh store of [components/eventStore]. *)
Definition new : t := [].

(** Modelled from the spec: [add] of [components/eventStore]. *)
Definition add (node : option nat) (type : string) (l : Listener) (st : t) : t :=
  st ++ [(node, type, l)].

(** Modelled from the spec: [removeAll] of [components/eventStore]. *)
Definition removeAll (st : t) : t := [].

End EventStore.

(* ================================================================== *)
(** ** State of one carousel                                           *)
(* ================================================================== *)

Record State : Type := mkState {
  (* the host page *)
  sliderRoot : option Root;            (* [null] when the node is missing *)
  classList : nat -> list string;      (* the classes of each node *)
  timeouts : list EmblaEvent;          (* pending [setTimeout] emissions *)
  (* the constants of the closure *)
  events : EventEmitter.t;
  eventStore : EventStore.t;
  (* the variables of the closure *)
  engine : option Engine.t;            (* [None] until first assigned *)
  activated : bool;
  options : EmblaOptions;
  rootElementSize : Z;
  container : option Container;
  slides : list Element
}.

Definition set_classList (x : nat -> list string) (s : State) : State :=
  mkState (sliderRoot s) x (timeouts s) (events s) (eventStore s) (engine s)
          (activated s) (options s) (rootElementSize s) (container s) (slides s).

Definition set_timeouts (x : list EmblaEvent) (s : State) : State :=
  mkState (sliderRoot s) (classList s) x (events s) (eventStore s) (engine s)
          (activated s) (options s) (rootElementSize s) (container s) (slides s).

Definition set_events (x : EventEmitter.t) (s : State) : State :=
  mkState (sliderRoot s) (classList s) (timeouts s) x (eventStore s) (engine s)
          (activated s) (options s) (rootElementSize s) (container s) (slides s).

Definition set_eventStore (x : EventStore.t) (s : State) : State :=
  mkState (sliderRoot s) (classList s) (timeouts s) (events s) x (engine s)
          (activated s) (options s) (rootElementSize s) (container s) (slides s).

Definition set_engine (x : option Engine.t) (s : State) : State :=
  mkState (sliderRoot s) (classList s) (timeouts s) (events s) (eventStore s) x
          (activated s) (options s) (rootElementSize s) (container s) (slides s).

Definition set_activated (x : bool) (s : State) : State :=
  mkState (sliderRoot s) (classList s) (timeouts s) (events s) (eventStore s)
          (engine s) x (options s) (rootElementSize s) (container s) (slides s).

Definition set_options (x : EmblaOptions) (s : State) : State :=
  mkState (sliderRoot s) (classList s) (timeouts s) (events s) (eventStore s)
          (engine s) (activated s) x (rootElementSize s) (container s) (slides s).

Definition set_rootElementSize (x : Z) (s : State) : State :=
  mkState (sliderRoot s) (classList s) (timeouts s) (events s) (eventStore s)
          (engine s) (activated s) (options s) x (container s) (slides s).

Definition set_elements (c : Container) (sl : list Element) (s : State) : State :=
  mkState (sliderRoot s) (classList s) (timeouts s) (events s) (eventStore s)
          (engine s) (activated s) (options s) (rootElementSize s) (Some c) sl.

(** The page changes under the carousel (slides added or removed, the root
    resized): the node [sliderRoot] refers to now looks like [r]. *)
Definition pageBecomes (r : Root) (s : State) : State :=
  mkState (Some r) (classList s) (timeouts s) (events s) (eventStore s) (engine s)
          (activated s) (options s) (rootElementSize s) (container s) (slides s).

(* ================================================================== *)
(** ** The monad of the facade's functions                             *)
(* ================================================================== *)

Inductive Error : Type :=
| MissingRootNode        (* [new Error('Missing root node')] *)
| MissingContainerNode   (* [new Error('Missing container node')] *)
| TypeError              (* a property read on [undefined] or [null] *)
| SyntaxError            (* the DOM refuses a selector, or an empty class name *)
| InvalidCharacterError  (* the DOM refuses a class name with white space *)
| OutOfFuel.             (* the embedding's recursion bound was reached *)

Inductive Result (A : Type) : Type :=
| Ok (a : A) (s : State)
| Throw (e : Error) (s : State).

Arguments Ok {A} a s.
Arguments Throw {A} e s.

Definition M (A : Type) : Type := State -> Result A.

Definition ret {A : Type} (a : A) : M A := fun s => Ok a s.

Definition bind {A B : Type} (m : M A) (k : A -> M B) : M B :=
  fun s => match m s with
           | Ok a s' => k a s'
           | Throw e s' => Throw e s'
           end.

Definition throw {A : Type} (e : Error) : M A := fun s => Throw e s.

Definition gets {A : Type} (f : State -> A) : M A := fun s => Ok (f s) s.

Definition modify (f : State -> State) : M unit := fun s => Ok tt (f s).

Declare Scope embla_scope.
Delimit Scope embla_scope with embla.
Notation "x <- m ;; k" := (bind m (fun x => k))
  (at level 61, m at next level, right associativity) : embla_scope.
Notation "m ;; k" := (bind m (fun _ => k))
  (at level 61, right associativity) : embla_scope.
Open Scope embla_scope.

Definition when (b : bool) (m : M unit) : M unit := if b then m else ret tt.

(** [xs.forEach(f)]. *)
Fixpoint forEach {A : Type} (xs : list A) (f : A -> M unit) : M unit :=
  match xs with
  | [] => ret tt
  | x :: rest => f x ;; forEach rest f
  end.

(** The state a finished call leaves behind, the value it returned. *)
Definition stateOf {A : Type} (r : Result A) : State :=
  match r with Ok _ s => s | Throw _ s => s end.

Definition returned {A : Type} (r : Result A) : option A :=
  match r with Ok a _ => Some a | Throw _ _ => None end.

Definition threw {A : Type} (r : Result A) : bool :=
  match r with Ok _ _ => false | Throw _ _ => true end.

Definition thrown {A : Type} (r : Result A) : option Error :=
  match r with Ok _ _ => None | Throw e _ => Some e end.

(* ================================================================== *)
(** ** Utilities ([components/utils])                                  *)
(* ================================================================== *)

(** Modelled from the spec: [components/utils] is not part of the sources;
    "CSS class toggling".  A class is added once and removed entirely. *)
Definition classAdd (cls : string) (l : list string) : list string :=
  if existsb (String.eqb cls) l then l else l ++ [cls].

(** Modelled from the spec: [removeClass] of [components/utils] on one
    class list. *)
Definition classRemove (cls : string) (l : list string) : list string :=
  filter (fun c => negb (String.eqb c cls)) l.

Definition updateClasses (node : nat) (f : list string -> list string)
    (s : State) : State :=
  set_classList (fun n => if Nat.eqb n node then f (classList s n) else classList s n) s.

(** ASCII white space, which a class name must not contain. *)
Definition isWhiteSpace (c : ascii) : bool :=
  match nat_of_ascii c with
  | 9%nat | 10%nat | 12%nat | 13%nat | 32%nat => true
  | _ => false
  end.

Fixpoint hasWhiteSpace (s : string) : bool :=
  match s with
  | EmptyString => false
  | String c rest => isWhiteSpace c || hasWhiteSpace rest
  end.

(** Modelled from the spec: [addClass] of [components/utils], "CSS class
    toggling" through the class list of the node, which takes a class it
    does not hold yet and throws on a name that is no class name: the
    empty one (SyntaxError) and one with white space
    (InvalidCharacterError). *)
Definition addClass (node : nat) (cls : string) : M unit :=
  if String.eqb cls EmptyString then throw SyntaxError
  else if hasWhiteSpace cls then throw InvalidCharacterError
  else modify (updateClasses node (classAdd cls)).

(** Modelled from the spec: [removeClass] of [components/utils]; a class
    the node does not hold, valid name or not, is left alone. *)
Definition removeClass (node : nat) (cls : string) : M unit :=
  modify (updateClasses node (classRemove cls)).

(** [xs.indexOf(x)], with [-1] when [x] does not occur. *)
Fixpoint indexOf (xs : list Z) (x : Z) : Z :=
  match xs with
  | [] => -1
  | y :: rest =>
      if y =? x then 0
      else let i := indexOf rest x in if i =? -1 then -1 else i + 1
  end.

(* ================================================================== *)
(** ** The facade: [function EmblaCarousel(sliderRoot, userOptions)]   *)
(* ================================================================== *)

Section Facade.

(** The engine's geometry formulas and drag threshold. *)
Variable params : Engine.Params.

(** Reading through a variable that may still be [undefined]/[null]. *)
Definition theEngine : M Engine.t :=
  fun s => match engine s with
           | Some e => Ok e s
           | None => Throw TypeError s
           end.

Definition theRoot : M Root :=
  fun s => match sliderRoot s with
           | Some r => Ok r s
           | None => Throw TypeError s
           end.

Definition theContainer : M Container :=
  fun s => match container s with
           | Some c => Ok c s
           | None => Throw TypeError s
           end.

(** A method call that mutates (a part of) the engine in place. *)
Definition onEngine (f : Engine.t -> Engine.t) : M unit :=
  e <- theEngine ;; modify (set_engine (Some (f e))).

Definition onEvents (f : EventEmitter.t -> EventEmitter.t) : M unit :=
  modify (fun s => set_events (f (events s)) s).

(** [slides[i]] handed to a class utility. *)
Definition slideNode (i : Z) : M nat :=
  fun s => if i <? 0 then Throw TypeError s
           else match nth_error (slides s) (Z.to_nat i) with
                | Some el => Ok (elementId el) s
                | None => Throw TypeError s
                end.

Definition storeElements : M unit :=
  fun s =>
    match sliderRoot s with
    | None => Throw MissingRootNode s
    | Some root =>
        let selector := containerSelector (options s) in
        if rejected root selector then Throw SyntaxError s
        else
          match querySelector root selector with
          | None => Throw MissingContainerNode s
          | Some sliderContainer =>
              Ok tt (set_elements sliderContainer (children sliderContainer) s)
          end
    end.

Definition selectedScrollSnap : M Z :=
  e <- theEngine ;; ret (Counter.get (Engine.index e)).

Definition previousScrollSnap : M Z :=
  e <- theEngine ;; ret (Counter.get (Engine.indexPrevious e)).

Definition slidesInView (target : bool) : M (list Z) :=
  e <- theEngine ;;
  let location := if target then Engine.target e else Engine.location e in
  o <- gets options ;;
  let pos := if loop o
             then Limit.removeOffset (Engine.limit e) location
             else Limit.constrain (Engine.limit e) location in
  ret (Engine.slidesInView_check e pos).

Definition slidesNotInView (target : bool) : M (list Z) :=
  inView <- slidesInView target ;;
  e <- theEngine ;;
  ret (filter (fun i => indexOf inView i =? -1) (Engine.slideIndexes e)).

Definition toggleDraggingClass (evt : EmblaEvent) : M unit :=
  o <- gets options ;;
  root <- theRoot ;;
  if EmblaEvent_eqb evt Ev_pointerDown
  then addClass (rootId root) (draggingClass o)
  else removeClass (rootId root) (draggingClass o).

Definition toggleSelectedClass : M unit :=
  o <- gets options ;;
  inView <- slidesInView true ;;
  notInView <- slidesNotInView true ;;
  forEach notInView (fun i => n <- slideNode i ;; removeClass n (selectedClass o)) ;;
  forEach inView (fun i => n <- slideNode i ;; addClass n (selectedClass o)).

(** Calling a subscribed callback with the event. *)
Definition call (cb : Callback) (evt : EmblaEvent) : M unit :=
  match cb with
  | Cb_toggleDraggingClass => toggleDraggingClass evt
  | Cb_toggleSelectedClass => toggleSelectedClass
  | Cb_user _ => ret tt
  end.

(** [events.emit(evt)]: every subscriber of [evt] is called. *)
Definition emit (evt : EmblaEvent) : M unit :=
  onEvents (EventEmitter.record evt) ;;
  subs <- gets (fun s => EventEmitter.subscribers evt (events s)) ;;
  forEach subs (fun cb => call cb evt).

(** [setTimeout(() => events.emit(evt), 0)]. *)
Definition setTimeout_emit (evt : EmblaEvent) : M unit :=
  modify (fun s => set_timeouts (timeouts s ++ [evt]) s).

Definition deActivate : M unit :=
  onEngine (Engine.with_dragHandler DragHandler.removeAllEvents) ;;
  onEngine (Engine.with_slideFocus SlideFocus.removeAllEvents) ;;
  onEngine (Engine.with_animation Animation.stop) ;;
  modify (fun s => set_eventStore (EventStore.removeAll (eventStore s)) s) ;;
  onEngine (Engine.with_translate Translate.clear) ;;
  onEngine (Engine.with_slideLooper SlideLooper.clear) ;;
  root <- theRoot ;;
  o <- gets options ;;
  removeClass (rootId root) (draggableClass o) ;;
  sl <- gets slides ;;
  forEach sl (fun s => o <- gets options ;; removeClass (elementId s) (selectedClass o)) ;;
  onEvents (EventEmitter.off Ev_select Cb_toggleSelectedClass) ;;
  onEvents (EventEmitter.off Ev_pointerUp Cb_toggleSelectedClass) ;;
  onEvents (EventEmitter.off Ev_pointerDown Cb_toggleDraggingClass) ;;
  onEvents (EventEmitter.off Ev_pointerUp Cb_toggleDraggingClass).

(** Lines 80-103 of [activate]: what follows the loop check. *)
Definition activate_rest : M unit :=
  o <- gets options ;;
  sl <- gets slides ;;
  when (draggable o && negb (Nat.eqb (List.length sl) 0))
    (onEngine (Engine.with_dragHandler DragHandler.addActivationEvents) ;;
     when (truthy (draggableClass o))
       (root <- theRoot ;; addClass (rootId root) (draggableClass o)) ;;
     when (truthy (draggingClass o))
       (onEvents (EventEmitter.on Ev_pointerDown Cb_toggleDraggingClass) ;;
        onEvents (EventEmitter.on Ev_pointerUp Cb_toggleDraggingClass))) ;;
  when (negb (Nat.eqb (List.length sl) 0))
    (onEngine (Engine.with_slideFocus SlideFocus.addActivationEvents)) ;;
  when (truthy (selectedClass o))
    (toggleSelectedClass ;;
     onEvents (EventEmitter.on Ev_select Cb_toggleSelectedClass) ;;
     onEvents (EventEmitter.on Ev_pointerUp Cb_toggleSelectedClass)) ;;
  act <- gets activated ;;
  when (negb act)
    (setTimeout_emit Ev_init ;;
     modify (set_activated true)).

(** [activate] calls itself when looping turns out infeasible; [fuel]
    bounds the nesting of these calls. *)
Fixpoint activate_fuel (fuel : nat) (partialOptions : PartialOptions) : M unit :=
  match fuel with
  | O => throw OutOfFuel
  | S fuel' =>
      storeElements ;;
      modify (fun s => set_options (Object_assign (options s) partialOptions) s) ;;
      root <- theRoot ;;
      c <- theContainer ;;
      sl <- gets slides ;;
      o <- gets options ;;
      modify (set_engine (Some (Engine.new params root c sl o))) ;;
      e <- theEngine ;;
      modify (set_rootElementSize (Engine.measure e root)) ;;
      modify (fun s => set_eventStore
                (EventStore.add None "resize" EventStore.debouncedResize (eventStore s)) s) ;;
      onEngine (fun e => Engine.with_translate (Translate.to (Engine.location e)) e) ;;
      o <- gets options ;;
      if loop o then
        e <- theEngine ;;
        if negb (SlideLooper.canLoop (Engine.slideLooper e)) then
          deActivate ;;
          activate_fuel fuel' loopOff
        else
          onEngine (Engine.with_slideLooper SlideLooper.loop) ;;
          activate_rest
      else activate_rest
  end.

(** Two levels always suffice (see [activate_fuel_enough]): the nested
    call runs with [loop] off. *)
Definition activate (partialOptions : PartialOptions) : M unit :=
  activate_fuel 2 partialOptions.

Definition reActivate (partialOptions : PartialOptions) : M unit :=
  act <- gets activated ;;
  if negb act then ret tt
  else
    startIndex <- selectedScrollSnap ;;
    let newOptions := withStartIndex startIndex partialOptions in
    deActivate ;;
    activate newOptions ;;
    emit Ev_reInit.

Definition reInit : PartialOptions -> M unit := reActivate.

Definition destroy : M unit :=
  act <- gets activated ;;
  if negb act then ret tt
  else
    deActivate ;;
    modify (set_activated false) ;;
    emit Ev_destroy.

Definition resize : M unit :=
  act <- gets activated ;;
  if negb act then ret tt
  else
    e <- theEngine ;;
    root <- theRoot ;;
    let newRootElementSize := Engine.measure e root in
    old <- gets rootElementSize ;;
    when (negb (old =? newRootElementSize)) (reActivate noOptions) ;;
    emit Ev_resize.

(** [direction] is optional; [direction || 0]. *)
Definition scrollTo (index : Z) (direction : option Z) : M unit :=
  onEngine (Engine.with_scrollBody ScrollBody.useBaseMass) ;;
  onEngine (Engine.with_scrollBody ScrollBody.useBaseSpeed) ;;
  act <- gets activated ;;
  when act (onEngine (Engine.scrollTo_index index (override 0 direction))).

Definition scrollNext : M unit :=
  e <- theEngine ;;
  let next := Counter.add 1 (Counter.clone (Engine.index e)) in
  scrollTo (Counter.get next) (Some (-1)).

Definition scrollPrev : M unit :=
  e <- theEngine ;;
  let prev := Counter.add (-1) (Counter.clone (Engine.index e)) in
  scrollTo (Counter.get prev) (Some 1).

Definition canScrollNext : M bool :=
  e <- theEngine ;;
  let next := Counter.add 1 (Counter.clone (Engine.index e)) in
  sel <- selectedScrollSnap ;;
  ret (negb (Counter.get next =? sel)).

Definition canScrollPrev : M bool :=
  e <- theEngine ;;
  let prev := Counter.add (-1) (Counter.clone (Engine.index e)) in
  sel <- selectedScrollSnap ;;
  ret (negb (Counter.get prev =? sel)).

Definition scrollSnapList : M (list Q) :=
  e <- theEngine ;;
  ret (map (Engine.scrollProgress_get e) (Engine.scrollSnaps e)).

Definition scrollProgress : M Q :=
  e <- theEngine ;;
  ret (Engine.scrollProgress_get e (Engine.location e)).

Definition clickAllowed : M bool :=
  e <- theEngine ;;
  ret (DragHandler.clickAllowed (Engine.dragHandler e)).

Definition dangerouslyGetEngine : M (option Engine.t) := gets engine.

Definition containerNode : M (option Container) := gets container.

Definition slideNodes : M (list Element) := gets slides.

(** The state in which the body of [EmblaCarousel] starts: nothing
    subscribed, [engine] and [container] unassigned, [activated] false,
    [options] a copy of the defaults. *)
Definition initialState (defaultOptions : EmblaOptions)
    (root : option Root) (classes : nat -> list string) : State :=
  mkState root classes [] EventEmitter.new EventStore.new None false
          defaultOptions 0 None [].

(** [EmblaCarousel(sliderRoot, userOptions)]: the state of the new
    carousel, or the error that aborted its construction. *)
Definition EmblaCarousel (defaultOptions : EmblaOptions)
    (root : option Root) (classes : nat -> list string)
    (userOptions : PartialOptions) : Result unit :=
  activate userOptions (initialState defaultOptions root classes).

(** The pointer events of the user reach [engine.dragHandler] once its
    listeners are attached. *)
Definition pointerEvents (es : list DragHandler.PointerEvent) : M unit :=
  e <- theEngine ;;
  when (DragHandler.activationEvents (Engine.dragHandler e))
    (onEngine (Engine.with_dragHandler (DragHandler.run es))).

(** The pending [setTimeout] callbacks run. *)
Definition fireTimeouts : M unit :=
  ts <- gets timeouts ;;
  modify (set_timeouts []) ;;
  forEach ts emit.

(** *** What can happen to a carousel once it is constructed *)

(** The lifecycle calls of the public interface; [CallResize] is the
    debounced window listener firing. *)
Inductive LifecycleCall : Type :=
| CallDestroy
| CallReInit (partialOptions : PartialOptions)
| CallResize.

Definition lifecycle (c : LifecycleCall) : M unit :=
  match c with
  | CallDestroy => destroy
  | CallReInit p => reInit p
  | CallResize => resize
  end.

Inductive Action : Type :=
| DoLifecycle (c : LifecycleCall)
| DoScrollTo (index : Z)
| DoScrollNext
| DoScrollPrev
| DoOn (evt : EmblaEvent) (id : nat)      (* [on(evt, cb)] by the user *)
| DoOff (evt : EmblaEvent) (id : nat)     (* [off(evt, cb)] by the user *)
| DoPointer (es : list DragHandler.PointerEvent)
| DoEmit (evt : EmblaEvent)               (* the engine emits [evt] *)
| DoTimeouts
| DoPageChange (r : Root).

Definition perform (a : Action) : M unit :=
  match a with
  | DoLifecycle c => lifecycle c
  | DoScrollTo i => scrollTo i None
  | DoScrollNext => scrollNext
  | DoScrollPrev => scrollPrev
  | DoOn evt id => onEvents (EventEmitter.on evt (Cb_user id))
  | DoOff evt id => onEvents (EventEmitter.off evt (Cb_user id))
  | DoPointer es => pointerEvents es
  | DoEmit evt => emit evt
  | DoTimeouts => fireTimeouts
  | DoPageChange r => modify (pageBecomes r)
  end.

(** The states a carousel can be in: the one its construction returned
    with, and those any later action leaves behind, whether the action
    returned or threw. *)
Inductive reachable : State -> Prop :=
| reachable_new (defaultOptions : EmblaOptions) (root : option Root)
      (classes : nat -> list string) (userOptions : PartialOptions) (s : State) :
    EmblaCarousel defaultOptions root classes userOptions = Ok tt s ->
    reachable s
| reachable_step (s : State) (a : Action) :
    reachable s -> reachable (stateOf (perform a s)).

(** *** Auxiliary notions used to state the properties *)

(** [storeElements] would find both the root and the container. *)
Definition containerFound (s : State) : bool :=
  match sliderRoot s with
  | None => false
  | Some root =>
      match querySelector root (containerSelector (options s)) with
      | None => false
      | Some _ => true
      end
  end.

(** What [storeElements] throws when it does not find them. *)
Definition storeError (s : State) : Error :=
  match sliderRoot s with
  | None => MissingRootNode
  | Some root =>
      if rejected root (containerSelector (options s)) then SyntaxError
      else MissingContainerNode
  end.

(** The state [activate] has reached when it arrives at the loop check
    (line 73), [storeElements] having found [root] and [c]. *)
Definition atLoopCheck (partialOptions : PartialOptions) (root : Root)
    (c : Container) (s : State) : State :=
  let s1 := set_elements c (children c) s in
  let s2 := set_options (Object_assign (options s1) partialOptions) s1 in
  let e := Engine.new params root c (children c) (options s2) in
  let s3 := set_rootElementSize (Engine.measure e root) (set_engine (Some e) s2) in
  let s4 := set_eventStore
              (EventStore.add None "resize" EventStore.debouncedResize (eventStore s3)) s3 in
  set_engine (Some (Engine.with_translate (Translate.to (Engine.location e)) e)) s4.

(** The facade's own callbacks are only ever subscribed to the events
    the facade subscribes them to. *)
Definition ownSubscription (l : EmblaEvent * Callback) : bool :=
  match snd l, fst l with
  | Cb_user _, _ => true
  | Cb_toggleSelectedClass, (Ev_select | Ev_pointerUp) => true
  | Cb_toggleDraggingClass, (Ev_pointerDown | Ev_pointerUp) => true
  | _, _ => false
  end.

(** The engine in hand was built from these options for these slides:
    its cursor agrees with the options and with its snap list and is in
    range, and its slide indexes and its in-view check are those of the
    slides. *)
Definition engineOk (o : EmblaOptions) (sl : list Element) (e : Engine.t) : Prop :=
  let idx := Engine.index e in
  Counter.loop idx = loop o
  /\ Counter.count idx = Z.of_nat (List.length (Engine.scrollSnaps e))
  /\ Counter.value idx
     = Counter.withinLimit (Counter.count idx) (Counter.loop idx) (Counter.value idx)
  /\ Engine.slideIndexes e = map Z.of_nat (seq 0 (List.length sl))
  /\ exists view,
       forall pos,
         Engine.slidesInView_check e pos
         = filter (fun i => (0 <=? i) && (i <? Z.of_nat (List.length sl)))
                  (Engine.inView (Engine.layoutOf params view (map elementSize sl)) pos).

(** The carousel has its root and an engine built for its slides. *)
Definition Ready (s : State) : Prop :=
  (exists e, engine s = Some e /\ engineOk (options s) (slides s) e)
  /\ (exists root, sliderRoot s = Some root).

Definition ownSubscriptions (s : State) : Prop :=
  forallb ownSubscription (EventEmitter.listeners (events s)) = true.

(** What holds of every state of a constructed carousel. *)
Definition Inv (s : State) : Prop := Ready s /\ ownSubscriptions s.

(** [s'] differs from [s] in nothing the two predicates above look at. *)
Definition sameCore (s s' : State) : Prop :=
  sliderRoot s' = sliderRoot s
  /\ options s' = options s
  /\ slides s' = slides s
  /\ EventEmitter.listeners (events s') = EventEmitter.listeners (events s)
  /\ match engine s, engine s' with
     | Some e, Some e' =>
         Engine.index e' = Engine.index e
         /\ Engine.scrollSnaps e' = Engine.scrollSnaps e
         /\ Engine.slideIndexes e' = Engine.slideIndexes e
         /\ Engine.slidesInView_check e' = Engine.slidesInView_check e
     | None, None => True
     | _, _ => False
     end.

(** A predicate on states that the bookkeeping of the facade cannot
    break: it survives changes outside the core, subscribing and
    unsubscribing the facade's callbacks, and moving the cursor. *)
Record stable (P : State -> Prop) : Prop := mkStable {
  stable_core : forall s s', sameCore s s' -> P s -> P s';
  stable_on : forall s evt cb,
    ownSubscription (evt, cb) = true ->
    P s -> P (set_events (EventEmitter.on evt cb (events s)) s);
  stable_off : forall s evt cb,
    P s -> P (set_events (EventEmitter.off evt cb (events s)) s);
  stable_scroll : forall s e n d,
    engine s = Some e ->
    P s -> P (set_engine (Some (Engine.scrollTo_index n d e)) s);
  stable_page : forall s r, P s -> P (pageBecomes r s)
}.

End Facade.

(* ================================================================== *)
(** ** A concrete page and engine, to run the embedding on             *)
(* ================================================================== *)

Module Demo.

(** Slides laid out one after the other, each snap aligning the start
    of its slide with the start of the viewport. *)
Fixpoint snapsFrom (offset : Z) (sizes : list Z) : list Z :=
  match sizes with
  | [] => []
  | w :: rest => (- offset) :: snapsFrom (offset + w) rest
  end.

Definition layout (view : Z) (sizes : list Z) : Engine.Layout :=
  let content := fold_right Z.add 0 sizes in
  let sn := snapsFrom 0 sizes in
  Engine.mkLayout
    sn
    (Limit.mk (view - content) 0)
    (fun pos =>
       map fst (filter (fun p => snd p =? pos)
                       (combine (map Z.of_nat (seq 0 (List.length sizes))) sn)))
    (fun pos => Qmake (- pos) (Z.to_pos (content - view)))
    (fun direction target snap =>
       let d := snap - target in
       let nearer := fun a b => if Z.abs a <=? Z.abs b then a else b in
       if direction =? 0 then target + nearer d (nearer (d + content) (d - content))
       else
         let around := if 0 <? direction then d + content else d - content in
         target + Z.abs (nearer d around) * direction).

Definition params : Engine.Params := Engine.mkParams layout 3.

Definition slidesOf (n : nat) (w : Z) : list Element :=
  map (fun i => mkElement (10 + i) w) (seq 0 n).

(** Of the selectors used on this page, the empty one is no CSS. *)
Definition notCss (selector : string) : bool := String.eqb selector EmptyString.

(** A root of size [W] whose first descendant, as wide as the root, holds
    [n] slides of size [w]. *)
Definition root (W : Z) (n : nat) (w : Z) : Root :=
  mkRoot 1 W [("*"%string, mkContainer 2 W (slidesOf n w))] notCss.

Definition defaults : EmblaOptions :=
  mkOptions "*" false true "is-draggable" "is-dragging" "is-selected" 0.

Definition noClasses : nat -> list string := fun _ => [].

Definition startAt (i : Z) (lp : bool) : PartialOptions :=
  mkPartial None (Some lp) None None None None (Some i).

(** The state of a carousel freshly constructed on [root W n w]. *)
Definition carousel (W : Z) (n : nat) (w : Z) (userOptions : PartialOptions) : State :=
  stateOf (EmblaCarousel params defaults (Some (root W n w)) noClasses userOptions).

(** The engine a state holds (an engine for the empty page if none). *)
Definition engineOf (s : State) : Engine.t :=
  match engine s with
  | Some e => e
  | None => Engine.new params (root 0 0 0) (mkContainer 2 0 []) [] defaults
  end.

(** Five slides of 100 in a root of 300, looping, resting on the last
    snap. *)
Definition onLastSnap : State := carousel 300 5 100 (startAt 4 true).

(** The same carousel once destroyed. *)
Definition destroyed : State :=
  stateOf (perform params (DoLifecycle CallDestroy) onLastSnap).

(** Five slides of 100 in a root of 300, not looping, snap 4 selected,
    after two of the slides were removed from the page. *)
Definition shrunk : State :=
  stateOf (perform params (DoPageChange (root 300 3 100))
             (carousel 300 5 100 (startAt 4 false))).

(** A root whose first descendant is a wrapper of five slides and which
    also holds a viewport of two slides. *)
Definition nested : Root :=
  mkRoot 1 300 [("*"%string, mkContainer 2 300 (slidesOf 5 100));
                (".viewport"%string,
                 mkContainer 3 300 [mkElement 20 100; mkElement 21 100])] notCss.

(** Options naming the viewport as the container. *)
Definition inViewport : PartialOptions :=
  mkPartial (Some ".viewport"%string) None None None None None None.

(** A carousel constructed on [nested] with the default options. *)
Definition wrapped : State :=
  stateOf (EmblaCarousel params defaults (Some nested) noClasses noOptions).

(** Five slides of 100 in a root of 300, after the container left the
    page. *)
Definition emptied : State :=
  stateOf (perform params (DoPageChange (mkRoot 1 300 [] notCss))
             (carousel 300 5 100 noOptions)).

(** The same carousel in the middle of a drag: 'pointerDown' was emitted,
    'pointerUp' not yet. *)
Definition dragged : State :=
  stateOf (perform params (DoEmit Ev_pointerDown) (carousel 300 5 100 noOptions)).

(** The same carousel after its root shrank to 200 instead. *)
Definition narrowed : State :=
  stateOf (perform params (DoPageChange (root 200 5 100))
             (carousel 300 5 100 noOptions)).

End Demo.

(* ================================================================== *)
(** ** Notions for reasoning about the facade's functions              *)
(* ================================================================== *)

(** [m] keeps [P]: whatever state [m] leaves behind, by returning or by
    throwing, satisfies [P] if the state it started in did. *)
Definition preserves {A : Type} (P : State -> Prop) (m : M A) : Prop :=
  forall s, P s -> P (stateOf (m s)).

(** [m] only reads the state. *)
Definition readonly {A : Type} (m : M A) : Prop :=
  forall s, stateOf (m s) = s.

(** [m] runs to completion from every state satisfying [I], re-establishes
    [I], and returns a value satisfying [V]. *)
Definition runs {A : Type} (I : State -> Prop) (m : M A) (V : A -> Prop) : Prop :=
  forall s, I s -> exists a s', m s = Ok a s' /\ I s' /\ V a.

Definition anything {A : Type} (_ : A) : Prop := True.

(** A sequence of lifecycle calls, oldest first. *)
Definition lifecycleCalls (params : Engine.Params) (cs : list LifecycleCall) : M unit :=
  forEach cs (lifecycle params).

(** How often [evt] was emitted. *)
Definition timesEmitted (evt : EmblaEvent) (s : State) : nat :=
  List.length (filter (EmblaEvent_eqb evt) (EventEmitter.emitted (events s))).

(** The engine of [st] has the cursor, snaps, location and target of [e]. *)
Definition engineKept (e : Engine.t) (st : State) : Prop :=
  exists e', engine st = Some e'
             /\ Engine.index e' = Engine.index e
             /\ Engine.indexPrevious e' = Engine.indexPrevious e
             /\ Engine.scrollSnaps e' = Engine.scrollSnaps e
             /\ Engine.location e' = Engine.location e
             /\ Engine.target e' = Engine.target e.

(** [st] has the options, elements, emission history and cursor of [s]:
    what the bookkeeping of (de)activation leaves alone. *)
Definition setupKept (s st : State) : Prop :=
  options st = options s
  /\ sliderRoot st = sliderRoot s
  /\ slides st = slides s
  /\ container st = container s
  /\ EventEmitter.emitted (events st) = EventEmitter.emitted (events s)
  /\ rootElementSize st = rootElementSize s
  /\ forall e, engine s = Some e -> engineKept e st.

(** The cursor of [e] is the one [Engine.new] makes for the options [o]. *)
Definition cursorFrom (o : EmblaOptions) (e : Engine.t) : Prop :=
  Engine.index e
  = Counter.new (startIndex o) (Z.of_nat (List.length (Engine.scrollSnaps e))) (loop o).

(** The events to which the facade never subscribes a callback of its own. *)
Definition lifecycleEvent (evt : EmblaEvent) : bool :=
  match evt with
  | Ev_init | Ev_reInit | Ev_destroy | Ev_resize => true
  | _ => false
  end.

(** Ready, the stored slides being [sl]. *)
Definition ReadyWith (params : Engine.Params) (sl : list Element) (s : State) : Prop :=
  Ready params s /\ slides s = sl.

(** The class names of [o] that activation adds are names a class list
    takes (an empty one is never added). *)
Definition classNamesOk (o : EmblaOptions) : Prop :=
  hasWhiteSpace (draggableClass o) = false
  /\ hasWhiteSpace (selectedClass o) = false.

(** Ready, the stored slides being [sl] and the options [o]. *)
Definition ReadyFor (params : Engine.Params) (sl : list Element) (o : EmblaOptions)
    (s : State) : Prop :=
  ReadyWith params sl s /\ options s = o.

(** Indexes into the slides [sl]. *)
Definition validIndexes (sl : list Element) (l : list Z) : Prop :=
  forall i, In i l -> 0 <= i < Z.of_nat (List.length sl).

(* ================================================================== *)
(** ** Notions for the properties of (de)activation                    *)
(* ================================================================== *)

(** The entry [activate] puts into the event store (line 70). *)
Definition resizeEntry : option nat * string * EventStore.Listener :=
  (None, "resize"%string, EventStore.debouncedResize).

(** The engine after the five teardown calls of [deActivate] (lines
    121-126). *)
Definition tornDown (e : Engine.t) : Engine.t :=
  Engine.with_slideLooper SlideLooper.clear
    (Engine.with_translate Translate.clear
       (Engine.with_animation Animation.stop
          (Engine.with_slideFocus SlideFocus.removeAllEvents
             (Engine.with_dragHandler DragHandler.removeAllEvents e)))).

(** The emitter after the four [events.off] calls of [deActivate] (lines
    129-132). *)
Definition unsubscribed (em : EventEmitter.t) : EventEmitter.t :=
  EventEmitter.off Ev_pointerUp Cb_toggleDraggingClass
    (EventEmitter.off Ev_pointerDown Cb_toggleDraggingClass
       (EventEmitter.off Ev_pointerUp Cb_toggleSelectedClass
          (EventEmitter.off Ev_select Cb_toggleSelectedClass em))).

(** A subscription of a callback of the user. *)
Definition userSubscription (l : EmblaEvent * Callback) : bool :=
  match snd l with
  | Cb_user _ => true
  | _ => false
  end.

(** Lines 80-99 of [activate]: attaching listeners and classes. *)
Definition activate_wire : M unit :=
  o <- gets options ;;
  sl <- gets slides ;;
  when (draggable o && negb (Nat.eqb (List.length sl) 0))
    (onEngine (Engine.with_dragHandler DragHandler.addActivationEvents) ;;
     when (truthy (draggableClass o))
       (root <- theRoot ;; addClass (rootId root) (draggableClass o)) ;;
     when (truthy (draggingClass o))
       (onEvents (EventEmitter.on Ev_pointerDown Cb_toggleDraggingClass) ;;
        onEvents (EventEmitter.on Ev_pointerUp Cb_toggleDraggingClass))) ;;
  when (negb (Nat.eqb (List.length sl) 0))
    (onEngine (Engine.with_slideFocus SlideFocus.addActivationEvents)) ;;
  when (truthy (selectedClass o))
    (toggleSelectedClass ;;
     onEvents (EventEmitter.on Ev_select Cb_toggleSelectedClass) ;;
     onEvents (EventEmitter.on Ev_pointerUp Cb_toggleSelectedClass)).

(** Lines 100-103 of [activate]: the first activation schedules 'init'. *)
Definition activate_mark : M unit :=
  act <- gets activated ;;
  when (negb act)
    (setTimeout_emit Ev_init ;;
     modify (set_activated true)).

(** The bookkeeping that attaching listeners and classes leaves alone. *)
Definition bookKept (s st : State) : Prop :=
  timeouts st = timeouts s
  /\ activated st = activated s
  /\ eventStore st = eventStore s.

(** The engine of [st] has the slide looper [l]. *)
Definition looperIs (l : SlideLooper.t) (st : State) : Prop :=
  exists e, engine st = Some e /\ Engine.slideLooper e = l.

(** The subscriptions of the user in [st] are [subs]. *)
Definition userSubscriptionsAre (subs : list (EmblaEvent * Callback)) (st : State) : Prop :=
  filter userSubscription (EventEmitter.listeners (events st)) = subs.

(** What an activation that returned has set up, [o] being the merged
    options and [c] the container found. *)
Definition activatedWith (root : Root) (c : Container) (o : EmblaOptions)
    (s s' : State) : Prop :=
  options s' = o
  /\ sliderRoot s' = Some root
  /\ container s' = Some c
  /\ slides s' = children c
  /\ rootElementSize s' = rootSize root
  /\ activated s' = true
  /\ EventEmitter.emitted (events s') = EventEmitter.emitted (events s)
  /\ timeouts s' = timeouts s ++ (if activated s then [] else [Ev_init])
  /\ userSubscriptionsAre
       (filter userSubscription (EventEmitter.listeners (events s))) s'.

(** [node.classList.contains(cls)], on one class list. *)
Definition hasClass (cls : string) (l : list string) : bool :=
  existsb (String.eqb cls) l.

(** The node [n] is [slides[i]] for an index [i] of [l]. *)
Definition touched (sl : list Element) (l : list Z) (n : nat) : Prop :=
  exists i el, In i l /\ 0 <= i /\ nth_error sl (Z.to_nat i) = Some el
               /\ elementId el = n.

(* ================================================================== *)
(** * Properties                                                       *)
(* ================================================================== *)

(** ** The cursor *)

Section CounterFacts.

Import Counter.

Lemma withinLimit_range (cnt : Z) (lp : bool) (n : Z) :
  0 < cnt -> 0 <= withinLimit cnt lp n < cnt.
Proof.
  intros Hc. unfold withinLimit.
  destruct (Z.leb_spec cnt 0) as [Hle | _]; [lia |].
  destruct lp.
  - apply Z.mod_pos_bound; exact Hc.
  - lia.
Qed.

Lemma withinLimit_nonneg (cnt : Z) (lp : bool) (n : Z) :
  0 <= withinLimit cnt lp n.
Proof.
  destruct (Z.leb_spec cnt 0) as [Hle | Hlt].
  - unfold withinLimit. apply Z.leb_le in Hle. rewrite Hle. lia.
  - apply withinLimit_range; exact Hlt.
Qed.

Lemma withinLimit_fixes (cnt : Z) (lp : bool) (n : Z) :
  0 <= n < cnt -> withinLimit cnt lp n = n.
Proof.
  intros Hn. unfold withinLimit.
  destruct (Z.leb_spec cnt 0) as [Hle | _]; [lia |].
  destruct lp; [apply Z.mod_small; exact Hn | lia].
Qed.

Lemma withinLimit_idem (cnt : Z) (lp : bool) (n : Z) :
  withinLimit cnt lp (withinLimit cnt lp n) = withinLimit cnt lp n.
Proof.
  destruct (Z.leb_spec cnt 0) as [Hle | Hlt].
  - unfold withinLimit. apply Z.leb_le in Hle. rewrite Hle. reflexivity.
  - apply withinLimit_fixes, withinLimit_range; exact Hlt.
Qed.

Lemma wf_new (start cnt : Z) (lp : bool) : 0 < cnt -> wf (new start cnt lp).
Proof. intros Hc. unfold wf, new; simpl. apply withinLimit_range; exact Hc. Qed.

Lemma wf_set (n : Z) (c : t) : 0 < count c -> wf (set n c).
Proof. intros Hc. unfold wf, set; simpl. apply withinLimit_range; exact Hc. Qed.

Lemma wf_add (n : Z) (c : t) : 0 < count c -> wf (add n c).
Proof. intros Hc. unfold add. apply wf_set; exact Hc. Qed.

Lemma clone_eq (c : t) : clone c = c.
Proof. destruct c; reflexivity. Qed.

Lemma get_add_loop (n : Z) (c : t) :
  loop c = true -> 0 < count c -> get (add n c) = (get c + n) mod count c.
Proof.
  intros Hl Hc. unfold add, set, get, withinLimit; simpl. rewrite Hl.
  destruct (Z.leb_spec (count c) 0); [lia | reflexivity].
Qed.

Lemma get_add_clamp (n : Z) (c : t) :
  loop c = false -> 0 < count c ->
  get (add n c) = Z.max 0 (Z.min (count c - 1) (get c + n)).
Proof.
  intros Hl Hc. unfold add, set, get, withinLimit; simpl. rewrite Hl.
  destruct (Z.leb_spec (count c) 0); [lia | reflexivity].
Qed.

(** C5.  In loop mode, moving a copy of the cursor by [n] and then by
    [-n] brings it back to the value of the cursor; a move by [n] lands
    on [(index + n) mod count], which lies in [0, count), so that a
    negative sum wraps to the high end (count 5, index 4, [add 1] gives
    0). *)
Theorem counter_loop_add_inverse (c : Counter.t) (n : Z) :
  Counter.loop c = true ->
  Counter.wf c ->
  Counter.get (Counter.add (- n) (Counter.add n (Counter.clone c))) = Counter.get c
  /\ Counter.get (Counter.add n (Counter.clone c)) = (Counter.get c + n) mod Counter.count c
  /\ 0 <= Counter.get (Counter.add n (Counter.clone c)) < Counter.count c.
Proof.
  intros Hl Hwf. rewrite clone_eq.
  assert (Hc : 0 < count c) by (unfold wf in Hwf; lia).
  assert (Hstep : get (add n c) = (get c + n) mod count c)
    by (apply get_add_loop; assumption).
  split; [| split].
  - rewrite get_add_loop; [| exact Hl | exact Hc].
    rewrite Hstep.
    change (count (add n c)) with (count c).
    rewrite Zplus_mod_idemp_l.
    replace (get c + n + - n) with (get c) by lia.
    apply Z.mod_small. exact Hwf.
  - exact Hstep.
  - rewrite Hstep. apply Z.mod_pos_bound. exact Hc.
Qed.

Lemma counter_loop_add_inverse_witness :
  Counter.get (Counter.add (- 1) (Counter.add 1 (Counter.clone (Counter.new 4 5 true)))) = 4
  /\ Counter.get (Counter.add 1 (Counter.clone (Counter.new 4 5 true))) = 0
  /\ 0 <= Counter.get (Counter.add 1 (Counter.clone (Counter.new 4 5 true))) < 5.
Proof.
  apply (counter_loop_add_inverse (Counter.new 4 5 true) 1).
  - reflexivity.
  - unfold Counter.wf. vm_compute. split; [discriminate | reflexivity].
Defined.

End CounterFacts.

(** ** Slides of one size *)

Section SlideLooperFacts.

Lemma sum_repeat (w : Z) (n : nat) :
  fold_right Z.add 0 (repeat w n) = Z.of_nat n * w.
Proof.
  induction n as [| n IH].
  - reflexivity.
  - cbn [repeat fold_right]. rewrite IH. lia.
Qed.

Lemma widest_repeat (w : Z) (n : nat) : fold_left Z.max (repeat w n) w = w.
Proof.
  induction n as [| n IH].
  - reflexivity.
  - cbn [repeat fold_left]. rewrite Z.max_id. exact IH.
Qed.

Lemma canLoop_uniform (W w : Z) (n : nat) (b : bool) :
  SlideLooper.canLoop (SlideLooper.mk W (repeat w (S n)) b)
  = (W + w <=? Z.of_nat (S n) * w).
Proof.
  unfold SlideLooper.canLoop, SlideLooper.oneSlide, SlideLooper.contentSize.
  cbn [SlideLooper.viewSize SlideLooper.slideSizes].
  rewrite sum_repeat. cbn [repeat]. rewrite widest_repeat. reflexivity.
Qed.

Lemma uniform_sizes (w : Z) (slides : list Element) :
  Forall (fun el => elementSize el = w) slides ->
  map elementSize slides = repeat w (List.length slides).
Proof.
  induction 1 as [| el rest Hel _ IH].
  - reflexivity.
  - cbn [map List.length repeat]. rewrite Hel, IH. reflexivity.
Qed.

(** [canLoop()] of the engine built for a container of size [W] with
    slides of one size [w]. *)
Lemma canLoop_new (p : Engine.Params) (root : Root) (c : Container)
    (slides : list Element) (o : EmblaOptions) (w : Z) :
  slides <> [] ->
  Forall (fun el => elementSize el = w) slides ->
  SlideLooper.canLoop (Engine.slideLooper (Engine.new p root c slides o))
  = (containerSize c + w <=? Z.of_nat (List.length slides) * w).
Proof.
  intros Hne Hall. cbn [Engine.new Engine.slideLooper].
  rewrite (uniform_sizes w slides Hall).
  destruct slides as [| el rest]; [contradiction |].
  cbn [List.length]. apply canLoop_uniform.
Qed.

End SlideLooperFacts.

(** ** Click or drag *)

Section DragHandlerFacts.

Import DragHandler.

Lemma displacement_nonneg (start : Z) (path : list Z) : 0 <= displacement start path.
Proof.
  unfold displacement. induction path as [| p rest IH]; cbn [map fold_right]; lia.
Qed.

(** The displacement is below a bound exactly when the pointer stays
    nearer than that to the start all along the path. *)
Lemma displacement_below (start bound : Z) (path : list Z) :
  displacement start path < bound
  <-> 0 < bound /\ Forall (fun pos => Z.abs (pos - start) < bound) path.
Proof.
  unfold displacement. induction path as [| p rest IH]; cbn [map fold_right].
  - split; [intros H; split; [exact H | constructor] | intros [H _]; exact H].
  - rewrite Z.max_lub_lt_iff, IH. split.
    + intros (Hp & Hb & Hrest). split; [exact Hb | constructor; assumption].
    + intros (Hb & Hall). inversion Hall; subst. tauto.
Qed.

(** While the pointer is down, the moves leave the handler with the
    displacement of the latest position and with the flag raised as soon
    as one position is as far as the threshold from the start. *)
Lemma run_moves (path : list Z) (h : t) :
  dragActive h = true ->
  let h' := run (map PointerMove path) h in
  dragActive h' = true
  /\ clickThreshold h' = clickThreshold h
  /\ activationEvents h' = activationEvents h
  /\ startPosition h' = startPosition h
  /\ preventClick h'
     = preventClick h
       || negb (displacement (startPosition h) path <? clickThreshold h)
          && negb (Nat.eqb (List.length path) 0)
  /\ Z.abs (delta h') <= Z.max (Z.abs (delta h)) (displacement (startPosition h) path).
Proof.
  revert h. induction path as [| p rest IH]; intros h Hact.
  - cbn. rewrite andb_false_r, orb_false_r. repeat split; try assumption. lia.
  - cbn [map run fold_left handle].
    assert (Hm : pointerMove p h
                 = mk (clickThreshold h) (activationEvents h) true
                      (startPosition h) (p - startPosition h)
                      (preventClick h
                       || negb (Z.abs (p - startPosition h) <? clickThreshold h)))
      by (unfold pointerMove; rewrite Hact; reflexivity).
    destruct (IH (pointerMove p h)) as (A & B & C & D & E & F).
    { rewrite Hm. reflexivity. }
    unfold run in *. rewrite Hm in *. cbn in B, C, D, E, F.
    split; [exact A |]. split; [exact B |]. split; [exact C |]. split; [exact D |].
    pose proof (displacement_nonneg (startPosition h) rest) as Hnn.
    unfold displacement in *. cbn [map fold_right List.length Nat.eqb negb].
    rewrite andb_true_r. split.
    + rewrite E. destruct rest as [| q rest'].
      * cbn. rewrite andb_false_r, orb_false_r. f_equal. f_equal.
        apply eq_true_iff_eq. rewrite !Z.ltb_lt. lia.
      * cbn [List.length Nat.eqb negb]. rewrite andb_true_r, <- orb_assoc. f_equal.
        rewrite <- negb_andb. f_equal.
        apply eq_true_iff_eq. rewrite andb_true_iff, !Z.ltb_lt. lia.
    + lia.
Qed.

Lemma run_gesture (start : Z) (path : list Z) (h : t) :
  clickAllowed (run (gesture start path) h)
  = (displacement start path <? clickThreshold h).
Proof.
  unfold gesture, run. cbn [fold_left handle]. rewrite fold_left_app.
  cbn [fold_left handle].
  destruct (run_moves path (pointerDown start h) eq_refl) as (A & B & _ & D & E & F).
  unfold run in *. cbn in B, D, E, F.
  unfold pointerUp. rewrite A. unfold clickAllowed. cbn [preventClick].
  rewrite E, B.
  pose proof (displacement_nonneg start path) as Hnn.
  apply eq_true_iff_eq.
  rewrite negb_true_iff, orb_false_iff, andb_false_iff, !negb_false_iff, Z.ltb_lt.
  rewrite Nat.eqb_eq, Z.ltb_lt. split.
  - intros [[H | H] H']; [exact H |].
    apply length_zero_iff_nil in H. subst path. cbn in *. lia.
  - intros H. split; [left; exact H | lia].
Qed.

End DragHandlerFacts.

Section ClickFacts.

(** C4.  After a completed pointer gesture has been handled by the drag
    handler of the engine, whatever the handler went through before,
    [clickAllowed()] returns true if and only if the displacement of the
    gesture stayed below the click threshold, that is, if at no point of
    its path the pointer was as far as the threshold from where it went
    down; a gesture whose displacement reaches or exceeds the threshold
    makes it return false. *)
Theorem clickAllowed_iff_click (s : State) (e : Engine.t) (start : Z) (path : list Z) :
  engine s = Some e ->
  DragHandler.activationEvents (Engine.dragHandler e) = true ->
  let displacement := DragHandler.displacement start path in
  let threshold := DragHandler.clickThreshold (Engine.dragHandler e) in
  exists (allowed : bool) (s' : State),
    (pointerEvents (DragHandler.gesture start path) ;; clickAllowed) s = Ok allowed s'
    /\ (allowed = true <-> displacement < threshold)
    /\ (allowed = true
        <-> 0 < threshold /\ Forall (fun pos => Z.abs (pos - start) < threshold) path)
    /\ (threshold <= displacement -> allowed = false)
    /\ (Exists (fun pos => threshold <= Z.abs (pos - start)) path -> allowed = false).
Proof.
  intros He Hev displacement threshold.
  exists (displacement <? threshold).
  eexists. split; [| split; [| split; [| split]]].
  - unfold pointerEvents, clickAllowed, theEngine, onEngine, theEngine, bind, when,
      modify, ret.
    rewrite He, Hev. cbn [engine set_engine]. rewrite He. cbn [engine set_engine].
    cbn [Engine.with_dragHandler Engine.dragHandler].
    rewrite run_gesture. reflexivity.
  - apply Z.ltb_lt.
  - rewrite Z.ltb_lt. apply displacement_below.
  - intros H. apply Z.ltb_ge. exact H.
  - intros H. apply Z.ltb_ge.
    destruct (Z.lt_ge_cases displacement threshold) as [Hlt | Hge]; [| exact Hge].
    apply displacement_below in Hlt. destruct Hlt as [_ Hall].
    rewrite Forall_forall in Hall. apply Exists_exists in H.
    destruct H as (pos & Hin & Hpos). specialize (Hall pos Hin). lia.
Qed.

End ClickFacts.

(** ** Slides in view and not in view *)

Section InViewFacts.

Lemma indexOf_spec (xs : list Z) (x : Z) :
  (indexOf xs x = -1 /\ ~ In x xs) \/ (0 <= indexOf xs x /\ In x xs).
Proof.
  induction xs as [| y rest IH].
  - left. split; [reflexivity | intros []].
  - cbn [indexOf In]. destruct (Z.eqb_spec y x) as [-> | Hne].
    + right. split; [lia | left; reflexivity].
    + destruct IH as [[E Hn] | [Hp Hin]].
      * rewrite E. cbn. left. split; [reflexivity | tauto].
      * destruct (Z.eqb_spec (indexOf rest x) (-1)); [lia |].
        right. split; [lia | tauto].
Qed.

Lemma indexOf_absent (xs : list Z) (x : Z) :
  (indexOf xs x =? -1) = true <-> ~ In x xs.
Proof.
  rewrite Z.eqb_eq. destruct (indexOf_spec xs x) as [[E Hn] | [Hp Hin]].
  - tauto.
  - split; [lia | tauto].
Qed.

Lemma slidesInView_runs (s : State) (e : Engine.t) (target : bool) :
  engine s = Some e ->
  slidesInView target s
  = Ok (Engine.slidesInView_check e
          ((if loop (options s)
            then Limit.removeOffset (Engine.limit e)
            else Limit.constrain (Engine.limit e))
             (if target then Engine.target e else Engine.location e))) s.
Proof.
  intros He. unfold slidesInView, theEngine, bind, gets, ret. rewrite He.
  destruct (loop (options s)); reflexivity.
Qed.

(** C9.  For either value of the flag, [slidesNotInView] returns exactly
    the members of [engine.slideIndexes] that [slidesInView] does not
    return: no index is in both lists, every slide index is in exactly
    one of them, and, provided [slidesInView] returns only slide
    indexes, the two lists together hold the slide indexes and nothing
    else.  Neither call changes the state. *)
Theorem slidesNotInView_complement (s : State) (e : Engine.t) (target : bool) :
  engine s = Some e ->
  exists inView notInView : list Z,
    slidesInView target s = Ok inView s
    /\ slidesNotInView target s = Ok notInView s
    /\ (forall i, In i notInView <-> In i (Engine.slideIndexes e) /\ ~ In i inView)
    /\ (forall i, ~ (In i inView /\ In i notInView))
    /\ (forall i, In i (Engine.slideIndexes e) ->
          (In i inView /\ ~ In i notInView) \/ (~ In i inView /\ In i notInView))
    /\ (incl inView (Engine.slideIndexes e) ->
        forall i, In i (Engine.slideIndexes e) <-> In i inView \/ In i notInView).
Proof.
  intros He.
  pose proof (slidesInView_runs s e target He) as Hin.
  set (inView := Engine.slidesInView_check e _) in Hin.
  exists inView, (filter (fun i => indexOf inView i =? -1) (Engine.slideIndexes e)).
  assert (Hmem : forall i,
             In i (filter (fun i => indexOf inView i =? -1) (Engine.slideIndexes e))
             <-> In i (Engine.slideIndexes e) /\ ~ In i inView).
  { intros i. rewrite filter_In, indexOf_absent. tauto. }
  split; [exact Hin |]. split.
  - unfold slidesNotInView, bind. rewrite Hin.
    unfold theEngine, ret. rewrite He. reflexivity.
  - split; [exact Hmem |]. split; [| split].
    + intros i [H1 H2]. apply Hmem in H2. tauto.
    + intros i Hi. destruct (in_dec Z.eq_dec i inView) as [Hy | Hn].
      * left. split; [exact Hy |]. rewrite Hmem. tauto.
      * right. split; [exact Hn |]. rewrite Hmem. tauto.
    + intros Hincl i. rewrite Hmem. split.
      * intros Hi. destruct (in_dec Z.eq_dec i inView); tauto.
      * intros [Hi | Hi]; [apply Hincl; exact Hi | tauto].
Qed.

End InViewFacts.

(** ** The state monad *)

Section MonadFacts.

Context {A B : Type}.

Lemma bind_Ok (m : M A) (k : A -> M B) (s s1 : State) (a : A) :
  m s = Ok a s1 -> bind m k s = k a s1.
Proof. intros H. unfold bind. rewrite H. reflexivity. Qed.

Lemma bind_Throw (m : M A) (k : A -> M B) (s s1 : State) (e : Error) :
  m s = Throw e s1 -> bind m k s = Throw e s1.
Proof. intros H. unfold bind. rewrite H. reflexivity. Qed.

Lemma bind_inv_Ok (m : M A) (k : A -> M B) (s s' : State) (b : B) :
  bind m k s = Ok b s' -> exists a s1, m s = Ok a s1 /\ k a s1 = Ok b s'.
Proof.
  unfold bind. destruct (m s) as [a s1 | e s1]; intros H.
  - exists a, s1. split; [reflexivity | exact H].
  - discriminate.
Qed.

Lemma preserves_bind (P : State -> Prop) (m : M A) (k : A -> M B) :
  preserves P m -> (forall a, preserves P (k a)) -> preserves P (bind m k).
Proof.
  intros Hm Hk s Hs. unfold bind. specialize (Hm s Hs).
  destruct (m s) as [a s1 | e s1]; cbn in Hm.
  - apply Hk. exact Hm.
  - exact Hm.
Qed.

Lemma readonly_bind (m : M A) (k : A -> M B) :
  readonly m -> (forall a, readonly (k a)) -> readonly (bind m k).
Proof.
  intros Hm Hk s. unfold bind. specialize (Hm s).
  destruct (m s) as [a s1 | e s1]; cbn in Hm; subst s1.
  - apply Hk.
  - reflexivity.
Qed.

End MonadFacts.

Section MonadLoops.

Context {A : Type}.

Lemma readonly_preserves (P : State -> Prop) (m : M A) : readonly m -> preserves P m.
Proof. intros H s Hs. rewrite H. exact Hs. Qed.

Lemma readonly_ret (a : A) : readonly (ret a).
Proof. intros s. reflexivity. Qed.

Lemma readonly_throw (e : Error) : readonly (@throw A e).
Proof. intros s. reflexivity. Qed.

Lemma readonly_gets (f : State -> A) : readonly (gets f).
Proof. intros s. reflexivity. Qed.

Lemma preserves_forEach (P : State -> Prop) (xs : list A) (f : A -> M unit) :
  (forall x, preserves P (f x)) -> preserves P (forEach xs f).
Proof.
  intros Hf. induction xs as [| x rest IH]; cbn [forEach].
  - intros s Hs. exact Hs.
  - apply preserves_bind; [apply Hf | intros _; exact IH].
Qed.

End MonadLoops.

Lemma preserves_modify (P : State -> Prop) (f : State -> State) :
  (forall s, P s -> P (f s)) -> preserves P (modify f).
Proof. intros H s Hs. cbn. apply H. exact Hs. Qed.

Lemma preserves_when (P : State -> Prop) (b : bool) (m : M unit) :
  preserves P m -> preserves P (when b m).
Proof.
  intros H. destruct b; cbn [when]; [exact H |].
  apply readonly_preserves, readonly_ret.
Qed.

Lemma readonly_theEngine : readonly theEngine.
Proof. intros s. unfold theEngine. destruct (engine s); reflexivity. Qed.

Lemma readonly_theRoot : readonly theRoot.
Proof. intros s. unfold theRoot. destruct (sliderRoot s); reflexivity. Qed.

Lemma readonly_theContainer : readonly theContainer.
Proof. intros s. unfold theContainer. destruct (container s); reflexivity. Qed.

Lemma readonly_slideNode (i : Z) : readonly (slideNode i).
Proof.
  intros s. unfold slideNode. destruct (i <? 0); [reflexivity |].
  destruct (nth_error (slides s) (Z.to_nat i)); reflexivity.
Qed.

Lemma readonly_selectedScrollSnap : readonly selectedScrollSnap.
Proof.
  unfold selectedScrollSnap. apply readonly_bind; [apply readonly_theEngine |].
  intros e. apply readonly_ret.
Qed.

Lemma readonly_slidesInView (target : bool) : readonly (slidesInView target).
Proof.
  unfold slidesInView. apply readonly_bind; [apply readonly_theEngine | intros e].
  apply readonly_bind; [apply readonly_gets | intros o]. apply readonly_ret.
Qed.

Lemma readonly_slidesNotInView (target : bool) : readonly (slidesNotInView target).
Proof.
  unfold slidesNotInView. apply readonly_bind; [apply readonly_slidesInView | intros l].
  apply readonly_bind; [apply readonly_theEngine | intros e]. apply readonly_ret.
Qed.

Lemma preserves_onEngine (P : State -> Prop) (f : Engine.t -> Engine.t) :
  (forall s e, engine s = Some e -> P s -> P (set_engine (Some (f e)) s)) ->
  preserves P (onEngine f).
Proof.
  intros Hf s Hs. unfold onEngine, bind, theEngine.
  destruct (engine s) as [e |] eqn:He; cbn; [| exact Hs].
  apply Hf; assumption.
Qed.

Lemma preserves_onEvents (P : State -> Prop) (f : EventEmitter.t -> EventEmitter.t) :
  (forall s, P s -> P (set_events (f (events s)) s)) -> preserves P (onEvents f).
Proof. intros Hf. apply preserves_modify. exact Hf. Qed.

(** Takes a goal [preserves P m] apart along the structure of [m]; what
    remains are the places where [m] writes the state, as goals
    [P (update s)] under the hypothesis [P s]. *)
Ltac preserves_steps :=
  repeat lazymatch goal with
    | |- preserves _ (bind _ _) => apply preserves_bind; [| intro]
    | |- preserves _ (ret _) => apply readonly_preserves, readonly_ret
    | |- preserves _ (throw _) => apply readonly_preserves, readonly_throw
    | |- preserves _ (gets _) => apply readonly_preserves, readonly_gets
    | |- preserves _ (when _ _) => apply preserves_when
    | |- preserves _ (forEach _ _) => apply preserves_forEach; intro
    | |- preserves _ (if ?b then _ else _) => destruct b
    | |- preserves _ theEngine => apply readonly_preserves, readonly_theEngine
    | |- preserves _ theRoot => apply readonly_preserves, readonly_theRoot
    | |- preserves _ theContainer => apply readonly_preserves, readonly_theContainer
    | |- preserves _ (slideNode _) => apply readonly_preserves, readonly_slideNode
    | |- preserves _ selectedScrollSnap =>
        apply readonly_preserves, readonly_selectedScrollSnap
    | |- preserves _ (slidesInView _) => apply readonly_preserves, readonly_slidesInView
    | |- preserves _ (slidesNotInView _) =>
        apply readonly_preserves, readonly_slidesNotInView
    | |- preserves _ (onEngine _) => apply preserves_onEngine; intros ? ? ? ?
    | |- preserves _ (onEvents _) => apply preserves_onEvents; intros ? ?
    | |- preserves _ (modify _) => apply preserves_modify; intros ? ?
    | |- preserves _ (addClass _ _) => unfold addClass
    | |- preserves _ (removeClass _ _) => unfold removeClass
    | |- preserves _ (setTimeout_emit _) => unfold setTimeout_emit
    | |- _ => fail
    end.

(** ** Predicates the bookkeeping cannot break *)

Lemma sameCore_refl_on (s s' : State) :
  sliderRoot s' = sliderRoot s ->
  options s' = options s ->
  slides s' = slides s ->
  EventEmitter.listeners (events s') = EventEmitter.listeners (events s) ->
  engine s' = engine s ->
  sameCore s s'.
Proof.
  intros R O S E G. unfold sameCore. rewrite R, O, S, E, G.
  repeat split. destruct (engine s); repeat split.
Qed.

Lemma sameCore_engine (s : State) (e e' : Engine.t) :
  engine s = Some e ->
  Engine.index e' = Engine.index e ->
  Engine.scrollSnaps e' = Engine.scrollSnaps e ->
  Engine.slideIndexes e' = Engine.slideIndexes e ->
  Engine.slidesInView_check e' = Engine.slidesInView_check e ->
  sameCore s (set_engine (Some e') s).
Proof.
  intros He A B C D. unfold sameCore. cbn. rewrite He. repeat split; assumption.
Qed.

(** Closes the goals [preserves_steps] leaves, for a [stable] predicate. *)
Ltac stable_leaf HP :=
  lazymatch goal with
  | H : ?P ?s |- ?P (set_events (EventEmitter.on _ _ _) ?s) =>
      apply (stable_on P HP); [reflexivity | exact H]
  | H : ?P ?s |- ?P (set_events (EventEmitter.off _ _ _) ?s) =>
      apply (stable_off P HP); exact H
  | H : ?P ?s |- ?P (set_engine (Some (Engine.scrollTo_index _ _ _)) ?s) =>
      apply (stable_scroll P HP); assumption
  | H : ?P ?s |- ?P (pageBecomes _ ?s) =>
      apply (stable_page P HP); exact H
  | H : ?P ?s, He : engine ?s = Some _ |- ?P (set_engine (Some _) ?s) =>
      apply (stable_core P HP s); [apply (sameCore_engine s _ _ He); reflexivity | exact H]
  | H : ?P ?s |- ?P _ =>
      apply (stable_core P HP s); [apply sameCore_refl_on; reflexivity | exact H]
  end.

Ltac keeps HP := preserves_steps; try stable_leaf HP.

Section StableFacts.

Variable P : State -> Prop.
Hypothesis HP : stable P.

Lemma keeps_toggleDraggingClass (evt : EmblaEvent) :
  preserves P (toggleDraggingClass evt).
Proof. unfold toggleDraggingClass. keeps HP. Qed.

Lemma keeps_toggleSelectedClass : preserves P toggleSelectedClass.
Proof. unfold toggleSelectedClass. keeps HP. Qed.

Lemma keeps_call (cb : Callback) (evt : EmblaEvent) : preserves P (call cb evt).
Proof.
  destruct cb; cbn [call].
  - apply keeps_toggleDraggingClass.
  - apply keeps_toggleSelectedClass.
  - keeps HP.
Qed.

Lemma keeps_emit (evt : EmblaEvent) : preserves P (emit evt).
Proof. unfold emit. keeps HP. apply keeps_call. Qed.

Lemma keeps_deActivate : preserves P deActivate.
Proof. unfold deActivate. keeps HP. Qed.

Lemma keeps_activate_rest : preserves P activate_rest.
Proof. unfold activate_rest. keeps HP. apply keeps_toggleSelectedClass. Qed.

Lemma keeps_scrollTo (i : Z) (d : option Z) : preserves P (scrollTo i d).
Proof. unfold scrollTo. keeps HP. Qed.

Lemma keeps_scrollNext : preserves P scrollNext.
Proof. unfold scrollNext. keeps HP. apply keeps_scrollTo. Qed.

Lemma keeps_scrollPrev : preserves P scrollPrev.
Proof. unfold scrollPrev. keeps HP. apply keeps_scrollTo. Qed.

Lemma keeps_pointerEvents (es : list DragHandler.PointerEvent) :
  preserves P (pointerEvents es).
Proof. unfold pointerEvents. keeps HP. Qed.

Lemma keeps_fireTimeouts : preserves P fireTimeouts.
Proof. unfold fireTimeouts. keeps HP. apply keeps_emit. Qed.

End StableFacts.

(** ** What every state of a constructed carousel satisfies *)

Section InvariantFacts.

Variable params : Engine.Params.

Lemma engineOk_new (root : Root) (c : Container) (sl : list Element)
    (o : EmblaOptions) :
  engineOk params o sl (Engine.new params root c sl o).
Proof.
  unfold engineOk, Engine.new, Counter.new; cbn. repeat split.
  - symmetry. apply withinLimit_idem.
  - exists (containerSize c). reflexivity.
Qed.

Lemma engineOk_same (o : EmblaOptions) (sl : list Element) (e e' : Engine.t) :
  Engine.index e' = Engine.index e ->
  Engine.scrollSnaps e' = Engine.scrollSnaps e ->
  Engine.slideIndexes e' = Engine.slideIndexes e ->
  Engine.slidesInView_check e' = Engine.slidesInView_check e ->
  engineOk params o sl e -> engineOk params o sl e'.
Proof. unfold engineOk. intros -> -> -> ->. exact (fun H => H). Qed.

Lemma engineOk_scrollTo_index (o : EmblaOptions) (sl : list Element)
    (e : Engine.t) (n d : Z) :
  engineOk params o sl e -> engineOk params o sl (Engine.scrollTo_index n d e).
Proof.
  unfold engineOk, Engine.scrollTo_index. cbn. intros (L & C & V & I & W).
  repeat split; try assumption. symmetry. apply withinLimit_idem.
Qed.

Lemma stable_Ready : stable (Ready params).
Proof.
  split.
  - intros s s' (R & O & S & _ & G) ((e & He & Hok) & (root & Hr)).
    rewrite He in G. destruct (engine s') as [e' |] eqn:He'; [| contradiction].
    destruct G as (A & B & C & D). split.
    + exists e'. split; [exact He' |]. rewrite O, S.
      apply (engineOk_same _ _ e); assumption.
    + exists root. rewrite R. exact Hr.
  - intros s evt cb _ H. exact H.
  - intros s evt cb H. exact H.
  - intros s e n d He ((e0 & He0 & Hok) & Hr). split; [| exact Hr].
    exists (Engine.scrollTo_index n d e). split; [reflexivity |]. cbn.
    apply engineOk_scrollTo_index. congruence.
  - intros s r (He & _). split; [exact He | exists r; reflexivity].
Qed.

Lemma stable_ownSubscriptions : stable ownSubscriptions.
Proof.
  unfold ownSubscriptions. split.
  - intros s s' (_ & _ & _ & L & _) H. rewrite L. exact H.
  - intros s evt cb Hcb H. cbn. rewrite forallb_app, H. cbn. rewrite Hcb. reflexivity.
  - intros s evt cb H. cbn. rewrite forallb_forall in *. intros l Hl.
    apply filter_In in Hl. apply H. tauto.
  - intros s e n d _ H. exact H.
  - intros s r H. exact H.
Qed.

Lemma stable_and (P Q : State -> Prop) :
  stable P -> stable Q -> stable (fun s => P s /\ Q s).
Proof.
  intros HP HQ. split.
  - intros s s' Hc [Hp Hq]. split; [apply (stable_core P HP s) | apply (stable_core Q HQ s)];
      assumption.
  - intros s evt cb Hcb [Hp Hq]. split; [apply (stable_on P HP) | apply (stable_on Q HQ)];
      assumption.
  - intros s evt cb [Hp Hq]. split; [apply (stable_off P HP) | apply (stable_off Q HQ)];
      assumption.
  - intros s e n d He [Hp Hq].
    split; [apply (stable_scroll P HP) | apply (stable_scroll Q HQ)]; assumption.
  - intros s r [Hp Hq]. split; [apply (stable_page P HP) | apply (stable_page Q HQ)];
      assumption.
Qed.

Lemma stable_Inv : stable (Inv params).
Proof. apply stable_and; [apply stable_Ready | apply stable_ownSubscriptions]. Qed.

End InvariantFacts.

(** ** Activation *)

Section ActivateFacts.

Variable params : Engine.Params.

Lemma storeElements_found (s : State) (root : Root) (c : Container) :
  sliderRoot s = Some root ->
  querySelector root (containerSelector (options s)) = Some c ->
  storeElements s = Ok tt (set_elements c (children c) s).
Proof.
  intros Hr Hq. unfold storeElements. rewrite Hr, Hq.
  unfold querySelector in Hq.
  destruct (rejected root (containerSelector (options s))); [discriminate | reflexivity].
Qed.

Lemma storeElements_missing (s : State) :
  containerFound s = false ->
  exists err, storeElements s = Throw err s /\ err = storeError s.
Proof.
  unfold containerFound, storeElements, storeError. intros H.
  destruct (sliderRoot s) as [root |].
  - destruct (rejected root (containerSelector (options s))).
    + eexists. split; reflexivity.
    + destruct (querySelector root (containerSelector (options s))).
      * discriminate.
      * eexists. split; reflexivity.
  - eexists. split; reflexivity.
Qed.

Lemma containerFound_cases (s : State) :
  containerFound s = false
  \/ exists root c, sliderRoot s = Some root
                    /\ querySelector root (containerSelector (options s)) = Some c.
Proof.
  unfold containerFound. destruct (sliderRoot s) as [root |]; [| left; reflexivity].
  destruct (querySelector root (containerSelector (options s))) as [c |] eqn:Hq.
  - right. exists root, c. split; [reflexivity | exact Hq].
  - left. reflexivity.
Qed.

(** [activate] up to its loop check, as one step. *)
Lemma activate_fuel_unfold (n : nat) (po : PartialOptions) (s : State)
    (root : Root) (c : Container) :
  sliderRoot s = Some root ->
  querySelector root (containerSelector (options s)) = Some c ->
  let s' := atLoopCheck params po root c s in
  activate_fuel params (S n) po s
  = (if loop (options s') then
       if negb (SlideLooper.canLoop
                  (Engine.slideLooper
                     (Engine.new params root c (children c) (options s'))))
       then deActivate ;; activate_fuel params n loopOff
       else onEngine (Engine.with_slideLooper SlideLooper.loop) ;; activate_rest
     else activate_rest) s'.
Proof.
  intros Hr Hq s'. subst s'.
  cbn [activate_fuel]. unfold bind at 1.
  rewrite (storeElements_found s root c Hr Hq).
  destruct s as [sr cl tm ev st en ac op rs co sl]. cbn in Hr. subst sr.
  clear Hq.
  cbv -[children Object_assign Engine.new deActivate activate_fuel activate_rest
        SlideLooper.canLoop SlideLooper.loop Engine.with_translate
        Engine.with_slideLooper Translate.to Engine.location Engine.slideLooper
        Engine.measure EventStore.add negb loop loopOff].
  destruct (loop (Object_assign op po)); reflexivity.
Qed.

Lemma activate_fuel_missing (n : nat) (po : PartialOptions) (s : State) :
  containerFound s = false ->
  exists err, activate_fuel params (S n) po s = Throw err s /\ err = storeError s.
Proof.
  intros H. destruct (storeElements_missing s H) as (err & Hs & He).
  exists err. split; [| exact He].
  cbn [activate_fuel]. apply bind_Throw. exact Hs.
Qed.

Lemma options_atLoopCheck (po : PartialOptions) (root : Root) (c : Container)
    (s : State) :
  options (atLoopCheck params po root c s) = Object_assign (options s) po.
Proof. reflexivity. Qed.

Lemma Ready_atLoopCheck (po : PartialOptions) (root : Root) (c : Container) (s : State) :
  sliderRoot s = Some root ->
  Ready params (atLoopCheck params po root c s).
Proof.
  intros Hr. unfold Ready, atLoopCheck. cbn. split.
  - eexists. split; [reflexivity |].
    eapply engineOk_same; [| | | | apply engineOk_new]; reflexivity.
  - exists root. exact Hr.
Qed.

Lemma Inv_atLoopCheck (po : PartialOptions) (root : Root) (c : Container) (s : State) :
  sliderRoot s = Some root ->
  ownSubscriptions s ->
  Inv params (atLoopCheck params po root c s).
Proof. intros Hr Hl. split; [apply Ready_atLoopCheck; exact Hr | exact Hl]. Qed.

(** Whatever [activate] does, it either throws at once, leaving the state
    as it was, or leaves a state in which the carousel has its engine. *)
Lemma activate_fuel_Inv (n : nat) (po : PartialOptions) (s : State) :
  ownSubscriptions s ->
  (threw (activate_fuel params n po s) = true
   /\ stateOf (activate_fuel params n po s) = s)
  \/ Inv params (stateOf (activate_fuel params n po s)).
Proof.
  revert po s. induction n as [| n IH]; intros po s Hl.
  - left. split; reflexivity.
  - destruct (containerFound_cases s) as [Hmiss | (root & c & Hr & Hq)].
    + destruct (activate_fuel_missing n po s Hmiss) as (err & -> & _).
      left. split; reflexivity.
    + right. rewrite (activate_fuel_unfold n po s root c Hr Hq).
      pose proof (Inv_atLoopCheck po root c s Hr Hl) as HI.
      set (s' := atLoopCheck params po root c s) in *.
      cbv zeta.
      destruct (loop (options s')).
      * destruct (negb _).
        -- unfold bind.
           pose proof (keeps_deActivate _ (stable_Inv params) s' HI) as Hd.
           destruct (deActivate s') as [[] s1 | e s1]; cbn in Hd; [| exact Hd].
           destruct (IH loopOff s1) as [[_ Hs] | Hs].
           ++ apply Hd.
           ++ rewrite Hs. exact Hd.
           ++ exact Hs.
        -- assert (Hp : preserves (Inv params)
             (onEngine (Engine.with_slideLooper SlideLooper.loop) ;; activate_rest)).
           { keeps (stable_Inv params).
             apply keeps_activate_rest, stable_Inv. }
           exact (Hp s' HI).
      * apply keeps_activate_rest; [apply stable_Inv | exact HI].
Qed.

Lemma Inv_activate (po : PartialOptions) : preserves (Inv params) (activate params po).
Proof.
  intros s HI. unfold activate.
  destruct (activate_fuel_Inv 2 po s) as [[_ Hs] | Hs].
  - apply HI.
  - rewrite Hs. exact HI.
  - exact Hs.
Qed.

(** The recursion of [activate] never runs deeper than two levels: more
    fuel than that changes nothing. *)
Lemma activate_fuel_enough (n : nat) (po : PartialOptions) (s : State) :
  activate_fuel params (2 + n) po s = activate params po s.
Proof.
  unfold activate. change (2 + n)%nat with (S (S n)).
  destruct (containerFound_cases s) as [Hmiss | (root & c & Hr & Hq)].
  - destruct (activate_fuel_missing (S n) po s Hmiss) as (err & -> & E).
    destruct (activate_fuel_missing 1 po s Hmiss) as (err' & -> & E').
    congruence.
  - rewrite !(activate_fuel_unfold _ po s root c Hr Hq). cbv zeta.
    destruct (loop (options (atLoopCheck params po root c s))); [| reflexivity].
    destruct (negb _); [| reflexivity].
    unfold bind.
    destruct (deActivate (atLoopCheck params po root c s)) as [[] s1 | e s1];
      [| reflexivity].
    destruct (containerFound_cases s1) as [Hmiss1 | (root1 & c1 & Hr1 & Hq1)].
    + destruct (activate_fuel_missing n loopOff s1 Hmiss1) as (err & -> & E).
      destruct (activate_fuel_missing 0 loopOff s1 Hmiss1) as (err' & -> & E').
      congruence.
    + rewrite !(activate_fuel_unfold _ loopOff s1 root1 c1 Hr1 Hq1). cbv zeta.
      rewrite options_atLoopCheck. cbn [Object_assign loopOff loop' loop override].
      reflexivity.
Qed.

End ActivateFacts.

(** ** Every reachable state satisfies the invariant *)

Section ReachableFacts.

Variable params : Engine.Params.

Lemma Inv_reActivate (po : PartialOptions) :
  preserves (Inv params) (reActivate params po).
Proof.
  unfold reActivate. keeps (stable_Inv params).
  - apply keeps_deActivate, (stable_Inv params).
  - apply Inv_activate.
  - apply keeps_emit, (stable_Inv params).
Qed.

Lemma Inv_destroy : preserves (Inv params) destroy.
Proof.
  unfold destroy. keeps (stable_Inv params).
  - apply keeps_deActivate, (stable_Inv params).
  - apply keeps_emit, (stable_Inv params).
Qed.

Lemma Inv_resize : preserves (Inv params) (resize params).
Proof.
  unfold resize. keeps (stable_Inv params).
  - apply Inv_reActivate.
  - apply keeps_emit, (stable_Inv params).
Qed.

Lemma Inv_perform (a : Action) : preserves (Inv params) (perform params a).
Proof.
  destruct a as [[| po |] | i | | | evt id | evt id | es | evt | | r];
    cbn [perform lifecycle].
  - apply Inv_destroy.
  - apply Inv_reActivate.
  - apply Inv_resize.
  - apply keeps_scrollTo, (stable_Inv params).
  - apply keeps_scrollNext, (stable_Inv params).
  - apply keeps_scrollPrev, (stable_Inv params).
  - keeps (stable_Inv params).
  - keeps (stable_Inv params).
  - apply keeps_pointerEvents, (stable_Inv params).
  - apply keeps_emit, (stable_Inv params).
  - apply keeps_fireTimeouts, (stable_Inv params).
  - keeps (stable_Inv params).
Qed.

Theorem reachable_Inv (s : State) : reachable params s -> Inv params s.
Proof.
  induction 1 as [d root classes uo s Hnew | s a _ IH].
  - unfold EmblaCarousel, activate in Hnew.
    destruct (activate_fuel_Inv params 2 uo (initialState d root classes))
      as [[Ht _] | HI].
    + reflexivity.
    + rewrite Hnew in Ht. discriminate.
    + rewrite Hnew in HI. exact HI.
  - apply Inv_perform. exact IH.
Qed.

End ReachableFacts.

(** ** Running to completion *)

Section RunsFacts.

Variable I : State -> Prop.

Lemma runs_bind {A B : Type} (m : M A) (k : A -> M B) (V : A -> Prop) (W : B -> Prop) :
  runs I m V -> (forall a, V a -> runs I (k a) W) -> runs I (bind m k) W.
Proof.
  intros Hm Hk s Hs. destruct (Hm s Hs) as (a & s1 & E & H1 & Ha).
  destruct (Hk a Ha s1 H1) as (b & s2 & E2 & H2 & Hb).
  exists b, s2. split; [| split; assumption].
  unfold bind. rewrite E. exact E2.
Qed.

Lemma runs_weaken {A : Type} (m : M A) (V W : A -> Prop) :
  runs I m V -> (forall a, V a -> W a) -> runs I m W.
Proof.
  intros Hm HVW s Hs. destruct (Hm s Hs) as (a & s1 & E & H1 & Ha).
  exists a, s1. repeat split; auto.
Qed.

Lemma runs_ret {A : Type} (a : A) (V : A -> Prop) : V a -> runs I (ret a) V.
Proof. intros Ha s Hs. exists a, s. repeat split; assumption. Qed.

Lemma runs_gets {A : Type} (f : State -> A) :
  runs I (gets f) (fun a => exists s, I s /\ a = f s).
Proof. intros s Hs. exists (f s), s. repeat split; [assumption | eauto]. Qed.

Lemma runs_modify (f : State -> State) :
  (forall s, I s -> I (f s)) -> runs I (modify f) anything.
Proof. intros Hf s Hs. exists tt, (f s). repeat split. apply Hf. exact Hs. Qed.

Lemma runs_when (b : bool) (m : M unit) :
  (b = true -> runs I m anything) -> runs I (when b m) anything.
Proof.
  intros H. destruct b; cbn [when]; [apply H; reflexivity |].
  apply runs_ret. exact Logic.I.
Qed.

Lemma runs_forEach {A : Type} (xs : list A) (f : A -> M unit) :
  (forall x, In x xs -> runs I (f x) anything) -> runs I (forEach xs f) anything.
Proof.
  induction xs as [| x rest IH]; intros Hf; cbn [forEach].
  - apply runs_ret. exact Logic.I.
  - eapply runs_bind.
    + apply Hf. left. reflexivity.
    + intros _ _. apply IH. intros y Hy. apply Hf. right. exact Hy.
Qed.

Hypothesis I_engine : forall s, I s -> exists e, engine s = Some e.
Hypothesis I_root : forall s, I s -> exists r, sliderRoot s = Some r.

Lemma runs_theEngine :
  runs I theEngine (fun e => exists s, I s /\ engine s = Some e).
Proof.
  intros s Hs. destruct (I_engine s Hs) as (e & He).
  exists e, s. unfold theEngine. rewrite He. repeat split; eauto.
Qed.

Lemma runs_theRoot : runs I theRoot anything.
Proof.
  intros s Hs. destruct (I_root s Hs) as (r & Hr).
  exists r, s. unfold theRoot. rewrite Hr. repeat split; eauto.
Qed.

Lemma runs_onEngine (f : Engine.t -> Engine.t) :
  (forall s e, engine s = Some e -> I s -> I (set_engine (Some (f e)) s)) ->
  runs I (onEngine f) anything.
Proof.
  intros Hf s Hs. destruct (I_engine s Hs) as (e & He).
  exists tt, (set_engine (Some (f e)) s).
  unfold onEngine, bind, theEngine. rewrite He. cbn.
  repeat split. apply Hf; assumption.
Qed.

Lemma runs_onEvents (f : EventEmitter.t -> EventEmitter.t) :
  (forall s, I s -> I (set_events (f (events s)) s)) -> runs I (onEvents f) anything.
Proof. intros Hf. apply runs_modify. exact Hf. Qed.

Lemma runs_slideNode (i : Z) :
  (forall s, I s -> 0 <= i < Z.of_nat (List.length (slides s))) ->
  runs I (slideNode i) anything.
Proof.
  intros Hi s Hs. specialize (Hi s Hs). unfold slideNode.
  destruct (Z.ltb_spec i 0) as [Hneg | _]; [lia |].
  destruct (nth_error (slides s) (Z.to_nat i)) as [el |] eqn:E.
  - exists (elementId el), s. repeat split. exact Hs.
  - apply nth_error_None in E. lia.
Qed.

End RunsFacts.

(** Takes a goal [runs I m V] apart along the structure of [m]. *)
Ltac runs_steps Heng Hroot :=
  repeat lazymatch goal with
    | |- runs _ (bind _ _) _ => eapply runs_bind; [| intros ? ?]
    | |- runs _ (ret _) _ => apply runs_ret; try exact Logic.I
    | |- runs _ (gets _) _ => apply runs_gets
    | |- runs _ (when _ _) _ => apply runs_when; intros ?
    | |- runs _ (forEach _ _) _ => apply runs_forEach; intros ? ?
    | |- runs _ (if ?b then _ else _) _ => destruct b
    | |- runs _ theEngine _ => apply (runs_theEngine _ Heng)
    | |- runs _ theRoot _ => apply (runs_theRoot _ Hroot)
    | |- runs _ (onEngine _) _ => apply (runs_onEngine _ Heng); intros ? ? ? ?
    | |- runs _ (onEvents _) _ => apply runs_onEvents; intros ? ?
    | |- runs _ (modify _) _ => apply runs_modify; intros ? ?
    | |- runs _ (removeClass _ _) _ => unfold removeClass
    | |- runs _ (setTimeout_emit _) _ => unfold setTimeout_emit
    | |- _ => fail
    end.

Section ReadyRuns.

Variable params : Engine.Params.
Variable sl : list Element.

Local Abbreviation ReadyWith := (ReadyWith params sl).
Local Abbreviation validIndexes := (validIndexes sl).

Lemma stable_ReadyWith : stable ReadyWith.
Proof.
  apply stable_and; [apply stable_Ready |]. split.
  - intros s s' (_ & _ & S & _) H. congruence.
  - intros s evt cb _ H. exact H.
  - intros s evt cb H. exact H.
  - intros s e n d _ H. exact H.
  - intros s r H. exact H.
Qed.

Lemma ReadyWith_engine (s : State) : ReadyWith s -> exists e, engine s = Some e.
Proof. intros [[(e & He & _) _] _]. exists e. exact He. Qed.

Lemma ReadyWith_root (s : State) : ReadyWith s -> exists r, sliderRoot s = Some r.
Proof. intros [[_ Hr] _]. exact Hr. Qed.

Ltac ready_runs :=
  runs_steps ReadyWith_engine ReadyWith_root; try stable_leaf stable_ReadyWith.

Lemma runs_deActivate : runs ReadyWith deActivate anything.
Proof. unfold deActivate. ready_runs. Qed.

Variable o : EmblaOptions.

Local Abbreviation ReadyFor := (ReadyFor params sl o).

Lemma stable_ReadyFor : stable ReadyFor.
Proof.
  apply stable_and; [apply stable_ReadyWith |]. split.
  - intros s s' (_ & O & _) H. congruence.
  - intros s evt cb _ H. exact H.
  - intros s evt cb H. exact H.
  - intros s e n d _ H. exact H.
  - intros s r H. exact H.
Qed.

Lemma ReadyFor_engine (s : State) : ReadyFor s -> exists e, engine s = Some e.
Proof. intros [H _]. exact (ReadyWith_engine s H). Qed.

Lemma ReadyFor_root (s : State) : ReadyFor s -> exists r, sliderRoot s = Some r.
Proof. intros [H _]. exact (ReadyWith_root s H). Qed.

Ltac for_runs :=
  runs_steps ReadyFor_engine ReadyFor_root; try stable_leaf stable_ReadyFor.

Lemma runs_slidesInView (target : bool) :
  runs ReadyFor (slidesInView target) validIndexes.
Proof.
  intros s Hs. pose proof Hs as [[[(e & He & Hok) _] Hsl] _].
  rewrite (slidesInView_runs s e target He).
  eexists. exists s. split; [reflexivity | split; [exact Hs |]].
  destruct Hok as (_ & _ & _ & _ & (view & Hv)).
  intros i Hi. rewrite Hv in Hi. apply filter_In in Hi. destruct Hi as [_ Hi].
  rewrite Hsl in Hi. lia.
Qed.

Lemma runs_slidesNotInView (target : bool) :
  runs ReadyFor (slidesNotInView target) validIndexes.
Proof.
  unfold slidesNotInView. eapply runs_bind; [apply runs_slidesInView |].
  intros inView _. eapply runs_bind; [apply (runs_theEngine _ ReadyFor_engine) |].
  intros e (s & [[[(e' & He' & Hok) _] Hsl] _] & He). apply runs_ret.
  assert (e' = e) by congruence. subst e'.
  destruct Hok as (_ & _ & _ & Hidx & _).
  intros i Hi. apply filter_In in Hi. destruct Hi as [Hi _].
  rewrite Hidx, Hsl in Hi. apply in_map_iff in Hi.
  destruct Hi as (k & <- & Hk). apply in_seq in Hk. lia.
Qed.

(** A class name that passed the truthiness test and holds no white
    space is added. *)
Lemma runs_addClass (n : nat) (cls : string) :
  truthy cls = true ->
  hasWhiteSpace cls = false ->
  runs ReadyFor (addClass n cls) anything.
Proof.
  intros Ht Hw. unfold addClass. unfold truthy in Ht. apply negb_true_iff in Ht.
  rewrite Ht, Hw. for_runs.
Qed.

Hypothesis Hnames : classNamesOk o.

Lemma runs_toggleSelectedClass :
  truthy (selectedClass o) = true ->
  runs ReadyFor toggleSelectedClass anything.
Proof.
  intros Ht. unfold toggleSelectedClass.
  eapply runs_bind; [apply runs_gets | intros o' (s0 & [_ Ho] & ->)]. rewrite Ho.
  eapply runs_bind; [apply runs_slidesInView | intros inView Hin].
  eapply runs_bind; [apply runs_slidesNotInView | intros notInView Hnot].
  eapply runs_bind; [| intros _ _]; apply runs_forEach; intros i Hi.
  - eapply runs_bind; [apply runs_slideNode | intros n _; for_runs].
    intros s [[_ Hsl] _]. rewrite Hsl. apply Hnot. exact Hi.
  - eapply runs_bind;
      [apply runs_slideNode | intros n _; apply runs_addClass; [exact Ht | apply Hnames]].
    intros s [[_ Hsl] _]. rewrite Hsl. apply Hin. exact Hi.
Qed.

Lemma runs_activate_rest : runs ReadyFor activate_rest anything.
Proof.
  unfold activate_rest.
  eapply runs_bind; [apply runs_gets | intros o' (s0 & [_ Ho] & ->)]. rewrite Ho.
  for_runs.
  - apply runs_addClass; [assumption | apply Hnames].
  - apply runs_toggleSelectedClass. assumption.
Qed.

End ReadyRuns.

(** ** What (de)activation leaves alone *)

Lemma engineKept_update (e e1 : Engine.t) (f : Engine.t -> Engine.t) (s : State) :
  engine s = Some e1 ->
  Engine.index (f e1) = Engine.index e1 ->
  Engine.indexPrevious (f e1) = Engine.indexPrevious e1 ->
  Engine.scrollSnaps (f e1) = Engine.scrollSnaps e1 ->
  Engine.location (f e1) = Engine.location e1 ->
  Engine.target (f e1) = Engine.target e1 ->
  engineKept e s -> engineKept e (set_engine (Some (f e1)) s).
Proof.
  intros He1 A B C D E (e' & He' & A' & B' & C' & D' & E').
  assert (e' = e1) by congruence. subst e'.
  exists (f e1). cbn. repeat split; congruence.
Qed.

(** Closes the goals [preserves_steps] leaves for [setupKept s0]. *)
Ltac setup_leaf :=
  lazymatch goal with
  | H : setupKept ?s0 ?s, He : engine ?s = Some ?e1
    |- setupKept ?s0 (set_engine (Some ?fe) ?s) =>
      destruct H as (? & ? & ? & ? & ? & ? & HG);
      repeat split; try assumption;
      intros e0 He0; specialize (HG e0 He0);
      apply (engineKept_update e0 e1 (fun _ => fe) s He);
      solve [reflexivity | exact HG]
  | H : setupKept ?s0 ?s |- setupKept ?s0 _ =>
      destruct H as (? & ? & ? & ? & ? & ? & HG);
      repeat split; try assumption;
      intros e0 He0; exact (HG e0 He0)
  end.

Section FrameFacts.

Variable s0 : State.

Lemma setupKept_refl : setupKept s0 s0.
Proof.
  repeat split. intros e He. exists e. repeat split. exact He.
Qed.

Lemma setupKept_toggleSelectedClass : preserves (setupKept s0) toggleSelectedClass.
Proof. unfold toggleSelectedClass. preserves_steps; setup_leaf. Qed.

Lemma setupKept_deActivate : preserves (setupKept s0) deActivate.
Proof. unfold deActivate. preserves_steps; setup_leaf. Qed.

Lemma setupKept_activate_rest : preserves (setupKept s0) activate_rest.
Proof.
  unfold activate_rest. preserves_steps; try setup_leaf.
  apply setupKept_toggleSelectedClass.
Qed.

Lemma activated_deActivate (b : bool) :
  preserves (fun st => activated st = b) deActivate.
Proof. unfold deActivate. preserves_steps; assumption. Qed.

End FrameFacts.

Lemma setupKept_trans (s1 s2 s3 : State) :
  setupKept s1 s2 -> setupKept s2 s3 -> setupKept s1 s3.
Proof.
  intros (A & B & C & D & E & F & G) (A' & B' & C' & D' & E' & F' & G').
  repeat split; try congruence.
  intros e He. destruct (G e He) as (e2 & He2 & I1 & I2 & I3 & I4 & I5).
  destruct (G' e2 He2) as (e3 & He3 & J1 & J2 & J3 & J4 & J5).
  exists e3. repeat split; congruence.
Qed.

(** [activate_rest] always ends with [activated] set. *)
Lemma activate_rest_activated (s s' : State) :
  activate_rest s = Ok tt s' -> activated s' = true.
Proof.
  unfold activate_rest. intros H.
  do 5 (apply bind_inv_Ok in H; destruct H as (? & ? & _ & H)).
  revert H. unfold bind, gets, when, setTimeout_emit, modify, ret.
  match goal with |- context [negb (activated ?st)] => destruct (activated st) eqn:E end;
    cbn; intros H; injection H as <-; [exact E | reflexivity].
Qed.

(** Emitting an event to which only callbacks of the user are subscribed
    records it and changes nothing else. *)
Lemma forEach_user_callbacks (subs : list Callback) (evt : EmblaEvent) (s : State) :
  (forall cb, In cb subs -> exists id, cb = Cb_user id) ->
  forEach subs (fun cb => call cb evt) s = Ok tt s.
Proof.
  induction subs as [| cb rest IH]; intros H; cbn [forEach].
  - reflexivity.
  - destruct (H cb) as (id & ->); [left; reflexivity |].
    unfold bind. cbn [call ret]. apply IH. intros cb' Hcb'. apply H. right. exact Hcb'.
Qed.

Lemma emit_lifecycleEvent (evt : EmblaEvent) (s : State) :
  ownSubscriptions s ->
  lifecycleEvent evt = true ->
  emit evt s = Ok tt (set_events (EventEmitter.record evt (events s)) s).
Proof.
  intros Hown Hevt. unfold emit, bind, onEvents, modify, gets.
  apply forEach_user_callbacks. intros cb Hcb.
  unfold EventEmitter.subscribers in Hcb. cbn in Hcb.
  apply in_map_iff in Hcb. destruct Hcb as ([evt' cb'] & <- & Hin).
  apply filter_In in Hin. destruct Hin as [Hin Heq]. cbn in Heq.
  unfold ownSubscriptions in Hown. rewrite forallb_forall in Hown.
  specialize (Hown _ Hin). cbn.
  destruct cb' as [| | id]; [| | exists id; reflexivity];
    destruct evt, evt'; cbn in *; discriminate.
Qed.

(** ** Missing page structure *)

Section MissingStructure.

Variable params : Engine.Params.

(** When [storeElements] does not find the root, or a container under
    the selector it reads, activation throws at once what [storeElements]
    throws, without having changed anything: no engine is constructed,
    and the construction of a carousel aborts with that error. *)
Lemma activation_aborts_when_lookup_fails (po : PartialOptions) (s : State) :
  containerFound s = false ->
  activate params po s = Throw (storeError s) s
  /\ forall d root classes,
       s = initialState d root classes ->
       EmblaCarousel params d root classes po = Throw (storeError s) s
       /\ engine s = None.
Proof.
  intros Hmiss. unfold activate.
  destruct (activate_fuel_missing params 1 po s Hmiss) as (err & Hthrow & ->).
  split; [exact Hthrow |].
  intros d root classes ->. split.
  - unfold EmblaCarousel, activate. exact Hthrow.
  - reflexivity.
Qed.

End MissingStructure.

(** ** Destroying *)

Section DestroyFacts.

Variable params : Engine.Params.

Lemma lifecycle_inactive (c : LifecycleCall) (s : State) :
  activated s = false -> lifecycle params c s = Ok tt s.
Proof.
  intros H. destruct c; cbn [lifecycle]; unfold destroy, reInit, reActivate, resize,
    bind, gets; rewrite H; reflexivity.
Qed.

Lemma lifecycleCalls_inactive (cs : list LifecycleCall) (s : State) :
  activated s = false -> lifecycleCalls params cs s = Ok tt s.
Proof.
  intros H. unfold lifecycleCalls. induction cs as [| c rest IH]; cbn [forEach].
  - reflexivity.
  - unfold bind. rewrite (lifecycle_inactive c s H). exact IH.
Qed.

Lemma Inv_ReadyWith (s : State) : Inv params s -> ReadyWith params (slides s) s.
Proof. intros [H _]. split; [exact H | reflexivity]. Qed.

(** From a state of a constructed carousel, [deActivate] returns. *)
Lemma deActivate_returns (s : State) :
  Inv params s ->
  exists s0, deActivate s = Ok tt s0
             /\ Inv params s0
             /\ setupKept s s0
             /\ activated s0 = activated s.
Proof.
  intros HI.
  destruct (runs_deActivate params (slides s) s (Inv_ReadyWith s HI))
    as ([] & s0 & Hd & _ & _).
  exists s0. split; [exact Hd |].
  pose proof (keeps_deActivate _ (stable_Inv params) s HI) as H1.
  pose proof (setupKept_deActivate s s (setupKept_refl s)) as H2.
  pose proof (activated_deActivate (activated s) s eq_refl) as H3.
  rewrite Hd in H1, H2, H3. cbn in H1, H2, H3. auto.
Qed.

(** C10.  The first [destroy()] on an activated carousel deactivates it,
    clears [activated] and emits 'destroy' once; from then on every
    sequence of [destroy()], [reInit()] and resize calls returns without
    changing the state, and so without emitting anything. *)
Theorem destroy_gates_lifecycle (s : State) :
  reachable params s ->
  activated s = true ->
  exists s0 s1,
    deActivate s = Ok tt s0
    /\ destroy s = Ok tt s1
    /\ s1 = set_events (EventEmitter.record Ev_destroy (events s0))
                       (set_activated false s0)
    /\ activated s1 = false
    /\ EventEmitter.emitted (events s1) = EventEmitter.emitted (events s) ++ [Ev_destroy]
    /\ timesEmitted Ev_destroy s1 = S (timesEmitted Ev_destroy s)
    /\ forall cs, lifecycleCalls params cs s1 = Ok tt s1.
Proof.
  intros Hreach Hact. apply reachable_Inv in Hreach.
  destruct (deActivate_returns s Hreach) as (s0 & Hd & HI0 & Hkept & Hact0).
  exists s0. eexists. split; [exact Hd |].
  assert (Hdestroy : destroy s
                     = Ok tt (set_events (EventEmitter.record Ev_destroy (events s0))
                                         (set_activated false s0))).
  { unfold destroy, bind at 1, gets. rewrite Hact. cbn [negb].
    unfold bind at 1. rewrite Hd. unfold bind, modify.
    rewrite (emit_lifecycleEvent Ev_destroy); [reflexivity | | reflexivity].
    destruct HI0 as [_ Hown]. exact Hown. }
  destruct Hkept as (_ & _ & _ & _ & Hem & _).
  split; [exact Hdestroy |]. split; [reflexivity |]. split; [reflexivity |].
  split; [cbn; rewrite Hem; reflexivity |]. split.
  - unfold timesEmitted. cbn. rewrite Hem, filter_app, length_app. cbn. lia.
  - intros cs. apply lifecycleCalls_inactive. reflexivity.
Qed.

End DestroyFacts.

(** ** Scrolling to the next snap *)

Section ScrollNextFacts.

Variable params : Engine.Params.

Lemma scrollTo_runs (s : State) (e : Engine.t) (i : Z) (d : option Z) :
  engine s = Some e ->
  scrollTo i d s
  = Ok tt (set_engine
             (Some (let e' := Engine.with_scrollBody ScrollBody.useBaseSpeed
                                (Engine.with_scrollBody ScrollBody.useBaseMass e) in
                    if activated s
                    then Engine.scrollTo_index i (override 0 d) e'
                    else e'))
             s).
Proof.
  intros He. unfold scrollTo, onEngine, theEngine, bind, modify, gets, when.
  rewrite He. cbn. destruct (activated s); reflexivity.
Qed.

Lemma canScrollNext_runs (s : State) (e : Engine.t) :
  engine s = Some e ->
  canScrollNext s
  = Ok (negb (Counter.get (Counter.add 1 (Counter.clone (Engine.index e)))
              =? Counter.get (Engine.index e))) s.
Proof.
  intros He. unfold canScrollNext, selectedScrollSnap, theEngine, bind, ret.
  rewrite He. cbn beta iota. rewrite He. reflexivity.
Qed.

Lemma selectedScrollSnap_runs (s : State) (e : Engine.t) :
  engine s = Some e -> selectedScrollSnap s = Ok (Counter.get (Engine.index e)) s.
Proof.
  intros He. unfold selectedScrollSnap, theEngine, bind, ret. rewrite He. reflexivity.
Qed.

(** The cursor of a reachable carousel that rests on the last snap. *)
Lemma last_snap_cursor (s : State) (e : Engine.t) :
  Inv params s ->
  engine s = Some e ->
  Counter.get (Engine.index e) = Z.of_nat (List.length (Engine.scrollSnaps e)) - 1 ->
  Counter.loop (Engine.index e) = loop (options s)
  /\ Counter.count (Engine.index e) = Z.of_nat (List.length (Engine.scrollSnaps e))
  /\ 0 < Counter.count (Engine.index e).
Proof.
  intros [[(e' & He' & L & C & V & _) _] _] He Hlast.
  assert (e' = e) by congruence. subst e'.
  split; [exact L |]. split; [exact C |].
  unfold Counter.get in Hlast.
  destruct (Z.ltb_spec 0 (Counter.count (Engine.index e))) as [Hpos | Hnon];
    [exact Hpos |].
  unfold Counter.withinLimit in V. apply Z.leb_le in Hnon. rewrite Hnon in V. lia.
Qed.

(** C3.  On the last snap: in non-loop mode [canScrollNext()] is false
    and [scrollNext()] leaves the selected snap where it is; in loop mode
    [scrollNext()] on an activated carousel advances the selected snap to
    0, and [canScrollNext()] is true whenever there is more than one
    snap. *)
Theorem scrollNext_at_last_snap (s : State) (e : Engine.t) :
  reachable params s ->
  engine s = Some e ->
  Counter.get (Engine.index e) = Z.of_nat (List.length (Engine.scrollSnaps e)) - 1 ->
  (loop (options s) = false ->
     canScrollNext s = Ok false s
     /\ exists s', scrollNext s = Ok tt s'
                   /\ selectedScrollSnap s' = Ok (Counter.get (Engine.index e)) s')
  /\ (loop (options s) = true ->
        (activated s = true ->
           exists s', scrollNext s = Ok tt s' /\ selectedScrollSnap s' = Ok 0 s')
        /\ ((1 < List.length (Engine.scrollSnaps e))%nat -> canScrollNext s = Ok true s)).
Proof.
  intros Hreach He Hlast. apply reachable_Inv in Hreach.
  destruct (last_snap_cursor s e Hreach He Hlast) as (Hl & Hc & Hpos).
  set (idx := Engine.index e) in *.
  assert (Hnext : scrollNext s
                  = scrollTo (Counter.get (Counter.add 1 (Counter.clone idx)))
                             (Some (-1)) s).
  { unfold scrollNext, theEngine, bind. rewrite He. reflexivity. }
  rewrite Hnext, (canScrollNext_runs s e He), (scrollTo_runs s e _ _ He).
  fold idx. rewrite clone_eq.
  split; intros Hmode; rewrite Hmode in Hl.
  - assert (Hadd : Counter.get (Counter.add 1 idx) = Counter.get idx).
    { rewrite (get_add_clamp 1 idx Hl Hpos). lia. }
    rewrite Hadd, Z.eqb_refl. split; [reflexivity |].
    eexists. split; [reflexivity |].
    erewrite selectedScrollSnap_runs; [| reflexivity].
    f_equal. destruct (activated s); cbn; [| reflexivity].
    fold idx. unfold Counter.get. rewrite Hl.
    apply withinLimit_fixes. unfold Counter.get in Hlast. lia.
  - assert (Hadd : Counter.get (Counter.add 1 idx) = 0).
    { rewrite (get_add_loop 1 idx Hl Hpos), Hlast, Hc.
      replace (Z.of_nat (List.length (Engine.scrollSnaps e)) - 1 + 1)
        with (Z.of_nat (List.length (Engine.scrollSnaps e))) by lia.
      apply Z_mod_same_full. }
    rewrite Hadd. split.
    + intros Hact. rewrite Hact. eexists. split; [reflexivity |].
      erewrite selectedScrollSnap_runs; [| reflexivity].
      f_equal. cbn. fold idx. unfold Counter.get.
      apply withinLimit_fixes. lia.
    + intros Hmany. f_equal. rewrite Hlast.
      destruct (Z.eqb_spec 0 (Z.of_nat (List.length (Engine.scrollSnaps e)) - 1));
        [lia | reflexivity].
Qed.

End ScrollNextFacts.

(** ** What a successful activation leaves *)

Section ActivationResult.

Variable params : Engine.Params.

Lemma cursorFrom_atLoopCheck (po : PartialOptions) (root : Root) (c : Container)
    (s : State) :
  exists e, engine (atLoopCheck params po root c s) = Some e
            /\ cursorFrom (options (atLoopCheck params po root c s)) e.
Proof. eexists. split; reflexivity. Qed.

Lemma cursorFrom_kept (s st : State) (e : Engine.t) :
  engine s = Some e ->
  cursorFrom (options s) e ->
  setupKept s st ->
  exists e', engine st = Some e' /\ cursorFrom (options st) e'.
Proof.
  intros He Hcur (O & _ & _ & _ & _ & _ & G).
  destruct (G e He) as (e' & He' & I1 & _ & I3 & _ & _).
  exists e'. split; [exact He' |].
  unfold cursorFrom. rewrite O, I1, I3. exact Hcur.
Qed.

Lemma setupKept_looped_rest (s0 : State) :
  preserves (setupKept s0)
    (onEngine (Engine.with_slideLooper SlideLooper.loop) ;; activate_rest).
Proof. preserves_steps; try setup_leaf. apply setupKept_activate_rest. Qed.

(** When [activate] returns, the carousel is activated, the merged start
    index is in its options, and its engine's cursor was made from these
    options. *)
Lemma activate_fuel_Ok (n : nat) (po : PartialOptions) (s s' : State) :
  activate_fuel params n po s = Ok tt s' ->
  activated s' = true
  /\ startIndex (options s') = override (startIndex (options s)) (startIndex' po)
  /\ exists e', engine s' = Some e' /\ cursorFrom (options s') e'.
Proof.
  revert po s. induction n as [| n IH]; intros po s Hrun; [discriminate |].
  destruct (containerFound_cases s) as [Hmiss | (root & c & Hr & Hq)].
  { destruct (activate_fuel_missing params n po s Hmiss) as (err & E & _).
    congruence. }
  rewrite (activate_fuel_unfold params n po s root c Hr Hq) in Hrun. cbv zeta in Hrun.
  destruct (cursorFrom_atLoopCheck po root c s) as (e6 & He6 & Hcur6).
  pose proof (options_atLoopCheck params po root c s) as Ho6.
  set (s6 := atLoopCheck params po root c s) in *.
  assert (Hstart : startIndex (options s6)
                   = override (startIndex (options s)) (startIndex' po))
    by (rewrite Ho6; reflexivity).
  assert (Hrest : forall st, setupKept s6 st -> activated st = true ->
            activated st = true
            /\ startIndex (options st) = override (startIndex (options s)) (startIndex' po)
            /\ exists e', engine st = Some e' /\ cursorFrom (options st) e').
  { intros st Hk Hact. split; [exact Hact |]. split.
    - destruct Hk as (O & _). rewrite O. exact Hstart.
    - apply (cursorFrom_kept s6 st e6); assumption. }
  destruct (loop (options s6)).
  - destruct (negb _).
    + apply bind_inv_Ok in Hrun. destruct Hrun as ([] & s7 & Hd & Hinner).
      pose proof (setupKept_deActivate s6 s6 (setupKept_refl s6)) as Hk.
      rewrite Hd in Hk. cbn in Hk.
      destruct (IH loopOff s7 Hinner) as (Hact & Hst & He').
      split; [exact Hact |]. split; [| exact He'].
      rewrite Hst. cbn [loopOff startIndex' override].
      destruct Hk as (O & _). rewrite O. exact Hstart.
    + pose proof (setupKept_looped_rest s6 s6 (setupKept_refl s6)) as Hk.
      rewrite Hrun in Hk. cbn in Hk.
      apply bind_inv_Ok in Hrun. destruct Hrun as ([] & s7 & _ & Hlast).
      apply Hrest; [exact Hk | exact (activate_rest_activated _ _ Hlast)].
  - pose proof (setupKept_activate_rest s6 s6 (setupKept_refl s6)) as Hk.
    rewrite Hrun in Hk. cbn in Hk.
    apply Hrest; [exact Hk | exact (activate_rest_activated _ _ Hrun)].
Qed.

End ActivationResult.

(** ** Re-initialising *)

Section ReInitFacts.

Variable params : Engine.Params.

(** C8, as the code has it.  [reInit] captures the selected snap index
    before tearing down and passes it as [startIndex] to the rebuilt
    engine; when the call does not set [startIndex] itself and returns,
    the rebuilt cursor is the one made from that index, so the selected
    snap is the same before and after whenever that index is still an
    index of a snap of the rebuilt engine. *)
Theorem reInit_keeps_selected_snap (s s' : State) (po : PartialOptions) (i : Z) :
  reachable params s ->
  activated s = true ->
  startIndex' po = None ->
  selectedScrollSnap s = Ok i s ->
  reInit params po s = Ok tt s' ->
  startIndex (options s') = i
  /\ exists e',
       engine s' = Some e'
       /\ cursorFrom (options s') e'
       /\ (0 <= i < Z.of_nat (List.length (Engine.scrollSnaps e')) ->
           selectedScrollSnap s' = Ok i s').
Proof.
  intros Hreach Hact Hpo Hsel Hrun. apply reachable_Inv in Hreach.
  unfold reInit, reActivate, bind at 1, gets in Hrun. rewrite Hact in Hrun.
  cbn [negb] in Hrun. unfold bind at 1 in Hrun. rewrite Hsel in Hrun.
  apply bind_inv_Ok in Hrun. destruct Hrun as ([] & s0 & Hd & Hrun).
  apply bind_inv_Ok in Hrun. destruct Hrun as ([] & s2 & Hactv & Hemit).
  pose proof (keeps_deActivate _ (stable_Inv params) s Hreach) as HI0.
  rewrite Hd in HI0. cbn in HI0.
  pose proof (Inv_activate params (withStartIndex i po) s0 HI0) as HI2.
  rewrite Hactv in HI2. cbn in HI2.
  rewrite (emit_lifecycleEvent Ev_reInit s2 (proj2 HI2) eq_refl) in Hemit.
  injection Hemit as <-.
  destruct (activate_fuel_Ok params 2 _ s0 s2 Hactv) as (_ & Hst & e' & He' & Hcur).
  cbn [withStartIndex startIndex' override] in Hst. rewrite Hpo in Hst. cbn in Hst.
  split; [exact Hst |].
  exists e'. split; [exact He' |]. split; [exact Hcur |].
  intros Hrange.
  erewrite selectedScrollSnap_runs; [| exact He'].
  f_equal. cbn [options set_events] in *. unfold cursorFrom in Hcur.
  rewrite Hcur, Hst. unfold Counter.get, Counter.new. cbn.
  apply withinLimit_fixes. exact Hrange.
Qed.

End ReInitFacts.

(** ** Falling back from an infeasible loop *)

Section LoopFallback.

Variable params : Engine.Params.

(** A nested activation with [{ loop: false }] never nests further. *)
Lemma activate_loopOff (n : nat) (s : State) :
  activate_fuel params (S n) loopOff s = activate params loopOff s.
Proof.
  unfold activate.
  destruct (containerFound_cases s) as [Hmiss | (root & c & Hr & Hq)].
  - destruct (activate_fuel_missing params n loopOff s Hmiss) as (err & -> & E).
    destruct (activate_fuel_missing params 1 loopOff s Hmiss) as (err' & -> & E').
    congruence.
  - rewrite !(activate_fuel_unfold params _ loopOff s root c Hr Hq). cbv zeta.
    rewrite options_atLoopCheck. reflexivity.
Qed.

Lemma activate_falls_back (s : State) (po : PartialOptions) (root : Root)
    (c : Container) :
  sliderRoot s = Some root ->
  querySelector root (containerSelector (options s)) = Some c ->
  loop (Object_assign (options s) po) = true ->
  SlideLooper.canLoop
    (Engine.slideLooper
       (Engine.new params root c (children c) (Object_assign (options s) po))) = false ->
  activate params po s
  = (deActivate ;; activate params loopOff) (atLoopCheck params po root c s).
Proof.
  intros Hr Hq Hloop Hcan. unfold activate at 1.
  rewrite (activate_fuel_unfold params 1 po s root c Hr Hq). cbv zeta.
  rewrite options_atLoopCheck, Hloop, Hcan. cbn [negb].
  unfold bind. destruct (deActivate _) as [[] s7 | err s7]; [| reflexivity].
  apply activate_loopOff.
Qed.


End LoopFallback.

(** ** The concrete page *)

Section DemoFacts.

Lemma returned_unit (r : Result unit) : threw r = false -> r = Ok tt (stateOf r).
Proof. destruct r as [[] s | e s]; [reflexivity | discriminate]. Qed.

Lemma engineOf_engine (s : State) :
  match engine s with Some _ => true | None => false end = true ->
  engine s = Some (Demo.engineOf s).
Proof. unfold Demo.engineOf. destruct (engine s); [reflexivity | discriminate]. Qed.

Lemma constructed_reachable (p : Engine.Params) (d : EmblaOptions)
    (root : option Root) (classes : nat -> list string) (uo : PartialOptions) :
  threw (EmblaCarousel p d root classes uo) = false ->
  reachable p (stateOf (EmblaCarousel p d root classes uo)).
Proof.
  intros H. destruct (EmblaCarousel p d root classes uo) as [[] s | e s] eqn:E.
  - apply (reachable_new p d root classes uo). exact E.
  - discriminate.
Qed.

Lemma demo_reachable (W : Z) (n : nat) (w : Z) (uo : PartialOptions) :
  threw (EmblaCarousel Demo.params Demo.defaults (Some (Demo.root W n w))
           Demo.noClasses uo) = false ->
  reachable Demo.params (Demo.carousel W n w uo).
Proof. apply constructed_reachable. Qed.

End DemoFacts.

(** ** The properties at work on the concrete page *)

(** C7.  The selector [storeElements] reads (line 56) is the one the
    options held before [activate] merged the options of the call (line
    67).  A carousel constructed with a [containerSelector] that no
    descendant of the root matches is therefore not aborted when the
    default selector matches one: on a root whose only descendant holds
    five slides, with [containerSelector] [.viewport], construction
    returns, the engine is built over the slides of that descendant, and
    the carousel is activated, its options naming a container that does
    not exist. *)
Theorem construction_with_unmatched_selector :
  let root := Demo.root 300 5 100 in
  let result := EmblaCarousel Demo.params Demo.defaults (Some root) Demo.noClasses
                  Demo.inViewport in
  querySelector root (containerSelector (Object_assign Demo.defaults Demo.inViewport))
  = None
  /\ rejected root (containerSelector (Object_assign Demo.defaults Demo.inViewport))
     = false
  /\ threw result = false
  /\ containerSelector (options (stateOf result)) = ".viewport"%string
  /\ container (stateOf result) = querySelector root (containerSelector Demo.defaults)
  /\ slides (stateOf result) = Demo.slidesOf 5 100
  /\ activated (stateOf result) = true
  /\ exists e, engine (stateOf result) = Some e
               /\ List.length (Engine.scrollSnaps e) = 5%nat.
Proof.
  cbv zeta. split; [reflexivity |]. split; [reflexivity |]. split; [reflexivity |].
  split; [reflexivity |]. split; [reflexivity |]. split; [reflexivity |].
  split; [reflexivity |].
  eexists. split; [apply engineOf_engine; reflexivity | reflexivity].
Qed.

Lemma clickAllowed_iff_click_witness :
  let s := Demo.carousel 300 5 100 noOptions in
  engine s = Some (Demo.engineOf s)
  /\ DragHandler.activationEvents (Engine.dragHandler (Demo.engineOf s)) = true
  /\ (exists s', (pointerEvents (DragHandler.gesture 10 [10; 10]) ;; clickAllowed) s
                  = Ok true s')
  /\ (exists s', (pointerEvents (DragHandler.gesture 0 [500; 0]) ;; clickAllowed) s
                  = Ok false s').
Proof.
  cbv zeta.
  assert (H1 : engine (Demo.carousel 300 5 100 noOptions)
               = Some (Demo.engineOf (Demo.carousel 300 5 100 noOptions)))
    by (apply engineOf_engine; reflexivity).
  assert (H2 : DragHandler.activationEvents
                 (Engine.dragHandler (Demo.engineOf (Demo.carousel 300 5 100 noOptions)))
               = true) by reflexivity.
  split; [exact H1 |]. split; [exact H2 |]. split.
  - destruct (clickAllowed_iff_click _ _ 10 [10; 10] H1 H2)
      as (allowed & s' & E & Hiff & _).
    exists s'. rewrite E. f_equal. apply Hiff. reflexivity.
  - destruct (clickAllowed_iff_click _ _ 0 [500; 0] H1 H2)
      as (allowed & s' & E & _ & _ & Hfalse & _).
    exists s'. rewrite E. f_equal. apply Hfalse. discriminate.
Defined.

Lemma slidesNotInView_complement_witness :
  let s := Demo.carousel 300 5 100 noOptions in
  engine s = Some (Demo.engineOf s)
  /\ returned (slidesInView true s) = Some [0]
  /\ returned (slidesNotInView true s) = Some [1; 2; 3; 4]
  /\ exists inView notInView,
       slidesInView true s = Ok inView s
       /\ slidesNotInView true s = Ok notInView s
       /\ forall i, ~ (In i inView /\ In i notInView).
Proof.
  cbv zeta.
  assert (H1 : engine (Demo.carousel 300 5 100 noOptions)
               = Some (Demo.engineOf (Demo.carousel 300 5 100 noOptions)))
    by (apply engineOf_engine; reflexivity).
  split; [exact H1 |]. split; [reflexivity |]. split; [reflexivity |].
  destruct (slidesNotInView_complement _ _ true H1) as (iv & niv & A & B & _ & D & _).
  exists iv, niv. auto.
Defined.

Lemma destroy_gates_lifecycle_witness :
  let s := Demo.carousel 300 5 100 noOptions in
  reachable Demo.params s
  /\ activated s = true
  /\ exists s1,
       destroy s = Ok tt s1
       /\ activated s1 = false
       /\ timesEmitted Ev_destroy s1 = 1%nat
       /\ lifecycleCalls Demo.params [CallDestroy; CallReInit noOptions; CallResize] s1
          = Ok tt s1.
Proof.
  cbv zeta.
  assert (H1 : reachable Demo.params (Demo.carousel 300 5 100 noOptions))
    by (apply demo_reachable; reflexivity).
  assert (H2 : activated (Demo.carousel 300 5 100 noOptions) = true) by reflexivity.
  split; [exact H1 |]. split; [exact H2 |].
  destruct (destroy_gates_lifecycle Demo.params _ H1 H2)
    as (s0 & s1 & _ & A & _ & B & _ & C & D).
  exists s1. split; [exact A |]. split; [exact B |]. split; [| apply D].
  rewrite C. reflexivity.
Defined.

Lemma scrollNext_at_last_snap_witness :
  let s := Demo.onLastSnap in
  reachable Demo.params s
  /\ engine s = Some (Demo.engineOf s)
  /\ Counter.get (Engine.index (Demo.engineOf s)) = 4
  /\ loop (options s) = true
  /\ activated s = true
  /\ exists s', scrollNext s = Ok tt s' /\ selectedScrollSnap s' = Ok 0 s'.
Proof.
  cbv zeta.
  assert (H1 : reachable Demo.params Demo.onLastSnap)
    by (apply demo_reachable; reflexivity).
  assert (H2 : engine Demo.onLastSnap = Some (Demo.engineOf Demo.onLastSnap))
    by (apply engineOf_engine; reflexivity).
  assert (H3 : Counter.get (Engine.index (Demo.engineOf Demo.onLastSnap))
               = Z.of_nat (List.length (Engine.scrollSnaps (Demo.engineOf Demo.onLastSnap))) - 1)
    by reflexivity.
  assert (H4 : loop (options Demo.onLastSnap) = true) by reflexivity.
  assert (H5 : activated Demo.onLastSnap = true) by reflexivity.
  split; [exact H1 |]. split; [exact H2 |]. split; [reflexivity |].
  split; [exact H4 |]. split; [exact H5 |].
  destruct (scrollNext_at_last_snap Demo.params _ _ H1 H2 H3) as (_ & Hloop).
  destruct (Hloop H4) as (Hnext & _). exact (Hnext H5).
Defined.

Lemma reInit_keeps_selected_snap_witness :
  let s := Demo.carousel 300 5 100 (Demo.startAt 2 false) in
  let s' := stateOf (reInit Demo.params noOptions s) in
  reachable Demo.params s
  /\ activated s = true
  /\ selectedScrollSnap s = Ok 2 s
  /\ reInit Demo.params noOptions s = Ok tt s'
  /\ selectedScrollSnap s' = Ok 2 s'.
Proof.
  cbv zeta.
  set (s := Demo.carousel 300 5 100 (Demo.startAt 2 false)).
  set (s' := stateOf (reInit Demo.params noOptions s)).
  assert (H1 : reachable Demo.params s) by (apply demo_reachable; reflexivity).
  assert (H2 : activated s = true) by reflexivity.
  assert (H3 : selectedScrollSnap s = Ok 2 s) by reflexivity.
  assert (H4 : reInit Demo.params noOptions s = Ok tt s')
    by (apply returned_unit; reflexivity).
  split; [exact H1 |]. split; [exact H2 |]. split; [exact H3 |]. split; [exact H4 |].
  destruct (reInit_keeps_selected_snap Demo.params s s' noOptions 2 H1 H2 eq_refl H3 H4)
    as (_ & e' & He' & _ & Hsame).
  apply Hsame.
  assert (He : engine s' = Some (Demo.engineOf s'))
    by (apply engineOf_engine; reflexivity).
  assert (e' = Demo.engineOf s') by congruence. subst e'.
  subst s'; subst s. vm_compute. split; [discriminate | reflexivity].
Defined.

(** C8 as stated fails when the page lost slides: with snap 4 of five
    selected (no loop) and two slides removed from the page, [reInit()]
    returns and the selected snap is 2, the last of the three that
    remain. *)
Lemma reInit_after_slides_removed :
  reachable Demo.params Demo.shrunk
  /\ activated Demo.shrunk = true
  /\ returned (selectedScrollSnap Demo.shrunk) = Some 4
  /\ threw (reInit Demo.params noOptions Demo.shrunk) = false
  /\ returned (selectedScrollSnap (stateOf (reInit Demo.params noOptions Demo.shrunk)))
     = Some 2.
Proof.
  split.
  - unfold Demo.shrunk. apply reachable_step.
    apply demo_reachable. reflexivity.
  - repeat split; reflexivity.
Qed.


(* ================================================================== *)
(** * Further properties of the facade                                 *)
(* ================================================================== *)

(** ** The queries and scroll calls of a constructed carousel *)

Section QueryFacts.

Variable params : Engine.Params.

Lemma canScrollPrev_runs (s : State) (e : Engine.t) :
  engine s = Some e ->
  canScrollPrev s
  = Ok (negb (Counter.get (Counter.add (-1) (Counter.clone (Engine.index e)))
              =? Counter.get (Engine.index e))) s.
Proof.
  intros He. unfold canScrollPrev, selectedScrollSnap, theEngine, bind, ret.
  rewrite He. cbn beta iota. rewrite He. reflexivity.
Qed.

Lemma scrollNext_scrollTo (s : State) (e : Engine.t) :
  engine s = Some e ->
  scrollNext s = scrollTo (Counter.get (Counter.add 1 (Engine.index e))) (Some (-1)) s.
Proof.
  intros He. unfold scrollNext, theEngine, bind. rewrite He, clone_eq. reflexivity.
Qed.

Lemma scrollPrev_scrollTo (s : State) (e : Engine.t) :
  engine s = Some e ->
  scrollPrev s = scrollTo (Counter.get (Counter.add (-1) (Engine.index e))) (Some 1) s.
Proof.
  intros He. unfold scrollPrev, theEngine, bind. rewrite He, clone_eq. reflexivity.
Qed.

(** The cursor of a constructed carousel: it follows the [loop] option,
    ranges over the snaps, and is in range. *)
Lemma reachable_cursor (s : State) (e : Engine.t) :
  Inv params s ->
  engine s = Some e ->
  let idx := Engine.index e in
  let n := Z.of_nat (List.length (Engine.scrollSnaps e)) in
  Counter.loop idx = loop (options s)
  /\ Counter.count idx = n
  /\ ((0 < n /\ 0 <= Counter.get idx < n) \/ (n = 0 /\ Counter.get idx = 0)).
Proof.
  intros [[(e' & He' & L & C & V & _) _] _] He idx n.
  assert (e' = e) by congruence. subst e'. fold idx in L, C, V. fold n in C.
  split; [exact L |]. split; [exact C |].
  unfold Counter.get. rewrite V, C.
  destruct (Z.ltb_spec 0 n) as [Hpos | Hnon].
  - left. split; [exact Hpos |]. apply withinLimit_range. exact Hpos.
  - right. assert (n = 0) by (subst n; lia). split; [assumption |].
    unfold Counter.withinLimit. replace (n <=? 0) with true; [reflexivity |].
    symmetry. apply Z.leb_le. lia.
Qed.

(** X1.  On a constructed carousel, whatever was done to it since, no
    query of the public interface throws or changes the state, and the
    scroll calls return: the [engine] variable is never read while
    unassigned. *)
Theorem constructed_queries_return (s : State) :
  reachable params s ->
  (exists i, selectedScrollSnap s = Ok i s)
  /\ (exists i, previousScrollSnap s = Ok i s)
  /\ (forall target, exists l, slidesInView target s = Ok l s)
  /\ (forall target, exists l, slidesNotInView target s = Ok l s)
  /\ (exists b, canScrollNext s = Ok b s)
  /\ (exists b, canScrollPrev s = Ok b s)
  /\ (exists q, scrollProgress s = Ok q s)
  /\ (exists l, scrollSnapList s = Ok l s)
  /\ (exists b, clickAllowed s = Ok b s)
  /\ (forall i d, threw (scrollTo i d s) = false)
  /\ threw (scrollNext s) = false
  /\ threw (scrollPrev s) = false.
Proof.
  intros Hreach. apply reachable_Inv in Hreach.
  destruct Hreach as [[(e & He & _) _] _].
  assert (Hq : forall (A : Type) (f : Engine.t -> A),
             (e <- theEngine ;; ret (f e)) s = Ok (f e) s).
  { intros A f. unfold bind, theEngine, ret. rewrite He. reflexivity. }
  split; [eexists; apply Hq |]. split; [eexists; apply Hq |].
  split; [intros t; eexists; apply (slidesInView_runs s e t He) |].
  split.
  { intros t. unfold slidesNotInView, bind.
    rewrite (slidesInView_runs s e t He). unfold theEngine, ret. rewrite He.
    eexists. reflexivity. }
  split; [eexists; apply (canScrollNext_runs s e He) |].
  split; [eexists; apply (canScrollPrev_runs s e He) |].
  split; [eexists; apply Hq |]. split; [eexists; apply Hq |].
  split; [eexists; apply Hq |].
  split; [intros i d; rewrite (scrollTo_runs s e i d He); reflexivity |].
  rewrite (scrollNext_scrollTo s e He), (scrollPrev_scrollTo s e He).
  rewrite !(scrollTo_runs s e _ _ He). split; reflexivity.
Qed.

(** X2.  On a constructed carousel [canScrollNext()] is true exactly
    when, with [loop] on, there is more than one snap, and with [loop]
    off, the selected snap is not the last one. *)
Theorem canScrollNext_characterised (s : State) (e : Engine.t) :
  reachable params s ->
  engine s = Some e ->
  let n := Z.of_nat (List.length (Engine.scrollSnaps e)) in
  canScrollNext s
  = Ok (if loop (options s) then 1 <? n else Counter.get (Engine.index e) <? n - 1) s.
Proof.
  intros Hreach He n. apply reachable_Inv in Hreach.
  destruct (reachable_cursor s e Hreach He) as (L & C & R). fold n in C, R.
  rewrite (canScrollNext_runs s e He), clone_eq. f_equal.
  set (idx := Engine.index e) in *. rewrite <- L.
  destruct R as [[Hpos Hv] | [Hz Hv]].
  - destruct (Counter.loop idx) eqn:Hl.
    + rewrite (get_add_loop 1 idx Hl) by lia. rewrite C.
      destruct (Z.ltb_spec 1 n) as [Hn | Hn].
      * apply Bool.negb_true_iff, Z.eqb_neq.
        destruct (Z.eq_dec (Counter.get idx + 1) n) as [E | E].
        -- rewrite E, Z_mod_same_full. lia.
        -- rewrite Z.mod_small by lia. lia.
      * apply Bool.negb_false_iff, Z.eqb_eq.
        assert (n = 1) by lia. assert (Counter.get idx = 0) by lia.
        replace n with 1 by lia. replace (Counter.get idx) with 0 by lia. reflexivity.
    + rewrite (get_add_clamp 1 idx Hl) by lia. rewrite C.
      destruct (Z.ltb_spec (Counter.get idx) (n - 1)).
      * apply Bool.negb_true_iff, Z.eqb_neq. lia.
      * apply Bool.negb_false_iff, Z.eqb_eq. lia.
  - assert (Hadd : Counter.get (Counter.add 1 idx) = 0).
    { unfold Counter.add, Counter.set, Counter.get, Counter.withinLimit. cbn.
      rewrite C, Hz. reflexivity. }
    rewrite Hadd, Hv, Hz. destruct (Counter.loop idx); reflexivity.
Qed.

(** X3.  On a constructed carousel [canScrollPrev()] is true exactly
    when, with [loop] on, there is more than one snap, and with [loop]
    off, the selected snap is not the first one. *)
Theorem canScrollPrev_characterised (s : State) (e : Engine.t) :
  reachable params s ->
  engine s = Some e ->
  let n := Z.of_nat (List.length (Engine.scrollSnaps e)) in
  canScrollPrev s
  = Ok (if loop (options s) then 1 <? n else 0 <? Counter.get (Engine.index e)) s.
Proof.
  intros Hreach He n. apply reachable_Inv in Hreach.
  destruct (reachable_cursor s e Hreach He) as (L & C & R). fold n in C, R.
  rewrite (canScrollPrev_runs s e He), clone_eq. f_equal.
  set (idx := Engine.index e) in *. rewrite <- L.
  destruct R as [[Hpos Hv] | [Hz Hv]].
  - destruct (Counter.loop idx) eqn:Hl.
    + rewrite (get_add_loop (-1) idx Hl) by lia. rewrite C.
      destruct (Z.ltb_spec 1 n) as [Hn | Hn].
      * apply Bool.negb_true_iff, Z.eqb_neq.
        destruct (Z.eq_dec (Counter.get idx) 0) as [E | E].
        -- rewrite E. replace (0 + -1) with (n - 1 + (-1) * n) by lia.
           rewrite Z_mod_plus_full, Z.mod_small by lia. lia.
        -- rewrite Z.mod_small by lia. lia.
      * apply Bool.negb_false_iff, Z.eqb_eq.
        assert (n = 1) by lia. assert (Counter.get idx = 0) by lia.
        replace n with 1 by lia. replace (Counter.get idx) with 0 by lia. reflexivity.
    + rewrite (get_add_clamp (-1) idx Hl) by lia. rewrite C.
      destruct (Z.ltb_spec 0 (Counter.get idx)).
      * apply Bool.negb_true_iff, Z.eqb_neq. lia.
      * apply Bool.negb_false_iff, Z.eqb_eq. lia.
  - assert (Hadd : Counter.get (Counter.add (-1) idx) = 0).
    { unfold Counter.add, Counter.set, Counter.get, Counter.withinLimit. cbn.
      rewrite C, Hz. reflexivity. }
    rewrite Hadd, Hv. destruct (Counter.loop idx); [rewrite Hz |]; reflexivity.
Qed.

End QueryFacts.

(** ** Stepping through the snaps *)

Section StepFacts.

Variable params : Engine.Params.

(** What [scrollTo] does to an activated carousel. *)
Lemma scrollTo_active (s : State) (e : Engine.t) (i : Z) (d : option Z) :
  Inv params s ->
  engine s = Some e ->
  activated s = true ->
  exists s' e',
    scrollTo i d s = Ok tt s'
    /\ engine s' = Some e'
    /\ Inv params s'
    /\ activated s' = true
    /\ options s' = options s
    /\ Engine.scrollSnaps e' = Engine.scrollSnaps e
    /\ Engine.index e' = Counter.set i (Engine.index e).
Proof.
  intros HI He Hact.
  pose proof (keeps_scrollTo _ (stable_Inv params) i d s HI) as HI'.
  rewrite (scrollTo_runs s e i d He) in *. rewrite Hact in *. cbn in HI'.
  eexists. eexists. split; [reflexivity |]. split; [reflexivity |].
  split; [exact HI' |]. split; [exact Hact |]. repeat split.
Qed.

Lemma set_get_add (idx : Counter.t) (k : Z) :
  Counter.get (Counter.set (Counter.get (Counter.add k idx)) idx)
  = Counter.get (Counter.add k idx).
Proof.
  unfold Counter.add, Counter.set, Counter.get. cbn. apply withinLimit_idem.
Qed.

(** X4.  On an activated carousel with snaps, [scrollNext()] selects the
    next snap: with [loop] on the one after the selected snap modulo the
    number of snaps, with [loop] off the next one but never beyond the
    last. *)
Theorem scrollNext_selects (s : State) (e : Engine.t) :
  reachable params s ->
  engine s = Some e ->
  activated s = true ->
  Engine.scrollSnaps e <> [] ->
  let n := Z.of_nat (List.length (Engine.scrollSnaps e)) in
  let v := Counter.get (Engine.index e) in
  let next := if loop (options s) then (v + 1) mod n else Z.min (n - 1) (v + 1) in
  exists s',
    scrollNext s = Ok tt s'
    /\ selectedScrollSnap s' = Ok next s'.
Proof.
  intros Hreach He Hact Hsnaps n v next. apply reachable_Inv in Hreach.
  destruct (reachable_cursor params s e Hreach He) as (L & C & R).
  fold n in C, R. fold v in R.
  assert (Hn : 0 < n /\ 0 <= v < n).
  { destruct R as [R | [Hz _]]; [exact R |].
    destruct (Engine.scrollSnaps e); [contradiction | subst n; cbn in Hz; lia]. }
  rewrite (scrollNext_scrollTo s e He).
  destruct (scrollTo_active s e (Counter.get (Counter.add 1 (Engine.index e)))
              (Some (-1)) Hreach He Hact)
    as (s' & e' & Hrun & He' & _ & _ & _ & _ & Hidx).
  assert (Hnext : Counter.get (Counter.add 1 (Engine.index e)) = next).
  { subst next. rewrite <- L. destruct (Counter.loop (Engine.index e)) eqn:Hl.
    - rewrite (get_add_loop 1 _ Hl) by lia. rewrite C. reflexivity.
    - rewrite (get_add_clamp 1 _ Hl) by lia. rewrite C. fold v. lia. }
  exists s'. split; [exact Hrun |].
  rewrite (selectedScrollSnap_runs s' e' He'), Hidx, set_get_add, Hnext. reflexivity.
Qed.

(** X5.  On an activated carousel with snaps, [scrollPrev()] selects the
    previous snap: with [loop] on the one before the selected snap modulo
    the number of snaps, with [loop] off the previous one but never
    before the first. *)
Theorem scrollPrev_selects (s : State) (e : Engine.t) :
  reachable params s ->
  engine s = Some e ->
  activated s = true ->
  Engine.scrollSnaps e <> [] ->
  let n := Z.of_nat (List.length (Engine.scrollSnaps e)) in
  let v := Counter.get (Engine.index e) in
  let prev := if loop (options s) then (v - 1) mod n else Z.max 0 (v - 1) in
  exists s',
    scrollPrev s = Ok tt s'
    /\ selectedScrollSnap s' = Ok prev s'.
Proof.
  intros Hreach He Hact Hsnaps n v prev. apply reachable_Inv in Hreach.
  destruct (reachable_cursor params s e Hreach He) as (L & C & R).
  fold n in C, R. fold v in R.
  assert (Hn : 0 < n /\ 0 <= v < n).
  { destruct R as [R | [Hz _]]; [exact R |].
    destruct (Engine.scrollSnaps e); [contradiction | subst n; cbn in Hz; lia]. }
  rewrite (scrollPrev_scrollTo s e He).
  destruct (scrollTo_active s e (Counter.get (Counter.add (-1) (Engine.index e)))
              (Some 1) Hreach He Hact)
    as (s' & e' & Hrun & He' & _ & _ & _ & _ & Hidx).
  assert (Hprev : Counter.get (Counter.add (-1) (Engine.index e)) = prev).
  { subst prev. rewrite <- L. destruct (Counter.loop (Engine.index e)) eqn:Hl.
    - rewrite (get_add_loop (-1) _ Hl) by lia. rewrite C. reflexivity.
    - rewrite (get_add_clamp (-1) _ Hl) by lia. rewrite C. fold v. lia. }
  exists s'. split; [exact Hrun |].
  rewrite (selectedScrollSnap_runs s' e' He'), Hidx, set_get_add, Hprev. reflexivity.
Qed.

(** One step of the cursor and back. *)
Lemma counter_step_back (idx : Counter.t) (k : Z) :
  0 <= Counter.get idx < Counter.count idx ->
  Counter.loop idx = true \/ 0 <= Counter.get idx + k < Counter.count idx ->
  Counter.get (Counter.add (- k) (Counter.set (Counter.get (Counter.add k idx)) idx))
  = Counter.get idx.
Proof.
  intros Hv Hmode.
  assert (Hc : 0 < Counter.count idx) by lia.
  unfold Counter.add, Counter.set, Counter.get in *. cbn.
  rewrite withinLimit_idem.
  unfold Counter.withinLimit.
  destruct (Z.leb_spec (Counter.count idx) 0); [lia |].
  destruct (Counter.loop idx).
  - rewrite Zplus_mod_idemp_l.
    replace (Counter.value idx + k + - k) with (Counter.value idx) by lia.
    apply Z.mod_small. exact Hv.
  - destruct Hmode as [Hm | Hm]; [discriminate | lia].
Qed.

(** X6.  On an activated carousel, [scrollNext()] followed by
    [scrollPrev()] selects the snap that was selected before, with [loop]
    on always, with [loop] off unless the carousel was on its last
    snap. *)
Theorem scrollNext_scrollPrev_returns (s : State) (e : Engine.t) :
  reachable params s ->
  engine s = Some e ->
  activated s = true ->
  Engine.scrollSnaps e <> [] ->
  loop (options s) = true
  \/ Counter.get (Engine.index e) < Z.of_nat (List.length (Engine.scrollSnaps e)) - 1 ->
  exists s',
    (scrollNext ;; scrollPrev) s = Ok tt s'
    /\ selectedScrollSnap s' = Ok (Counter.get (Engine.index e)) s'.
Proof.
  intros Hreach He Hact Hsnaps Hmode. apply reachable_Inv in Hreach.
  destruct (reachable_cursor params s e Hreach He) as (L & C & R).
  assert (Hn : 0 <= Counter.get (Engine.index e) < Counter.count (Engine.index e)).
  { rewrite C. destruct R as [[_ R] | [Hz _]]; [exact R |].
    destruct (Engine.scrollSnaps e); [contradiction | cbn in Hz; lia]. }
  unfold bind. rewrite (scrollNext_scrollTo s e He).
  destruct (scrollTo_active s e (Counter.get (Counter.add 1 (Engine.index e)))
              (Some (-1)) Hreach He Hact)
    as (s1 & e1 & Hrun1 & He1 & HI1 & Hact1 & _ & _ & Hidx1).
  rewrite Hrun1, (scrollPrev_scrollTo s1 e1 He1).
  destruct (scrollTo_active s1 e1 (Counter.get (Counter.add (-1) (Engine.index e1)))
              (Some 1) HI1 He1 Hact1)
    as (s2 & e2 & Hrun2 & He2 & _ & _ & _ & _ & Hidx2).
  exists s2. split; [exact Hrun2 |].
  rewrite (selectedScrollSnap_runs s2 e2 He2), Hidx2, set_get_add, Hidx1. f_equal.
  apply (counter_step_back (Engine.index e) 1 Hn).
  rewrite L, C. destruct Hmode as [Hm | Hm]; [left; exact Hm | right; lia].
Qed.

(** X7.  On an activated carousel, [scrollPrev()] followed by
    [scrollNext()] selects the snap that was selected before, with [loop]
    on always, with [loop] off unless the carousel was on its first
    snap. *)
Theorem scrollPrev_scrollNext_returns (s : State) (e : Engine.t) :
  reachable params s ->
  engine s = Some e ->
  activated s = true ->
  Engine.scrollSnaps e <> [] ->
  loop (options s) = true \/ 0 < Counter.get (Engine.index e) ->
  exists s',
    (scrollPrev ;; scrollNext) s = Ok tt s'
    /\ selectedScrollSnap s' = Ok (Counter.get (Engine.index e)) s'.
Proof.
  intros Hreach He Hact Hsnaps Hmode. apply reachable_Inv in Hreach.
  destruct (reachable_cursor params s e Hreach He) as (L & C & R).
  assert (Hn : 0 <= Counter.get (Engine.index e) < Counter.count (Engine.index e)).
  { rewrite C. destruct R as [[_ R] | [Hz _]]; [exact R |].
    destruct (Engine.scrollSnaps e); [contradiction | cbn in Hz; lia]. }
  unfold bind. rewrite (scrollPrev_scrollTo s e He).
  destruct (scrollTo_active s e (Counter.get (Counter.add (-1) (Engine.index e)))
              (Some 1) Hreach He Hact)
    as (s1 & e1 & Hrun1 & He1 & HI1 & Hact1 & _ & _ & Hidx1).
  rewrite Hrun1, (scrollNext_scrollTo s1 e1 He1).
  destruct (scrollTo_active s1 e1 (Counter.get (Counter.add 1 (Engine.index e1)))
              (Some (-1)) HI1 He1 Hact1)
    as (s2 & e2 & Hrun2 & He2 & _ & _ & _ & _ & Hidx2).
  exists s2. split; [exact Hrun2 |].
  rewrite (selectedScrollSnap_runs s2 e2 He2), Hidx2, set_get_add, Hidx1. f_equal.
  change 1 with (- (-1)).
  apply (counter_step_back (Engine.index e) (-1) Hn).
  rewrite L. destruct Hmode as [Hm | Hm]; [left; exact Hm | right; lia].
Qed.

(** X8.  Once [activated] is off (after [destroy()]), [scrollTo],
    [scrollNext] and [scrollPrev] return without moving anything: the
    selected and previous snap, the target, the location and the
    animation are as before. *)
Theorem scroll_calls_inactive (s : State) (e : Engine.t) (i : Z) (d : option Z) :
  engine s = Some e ->
  activated s = false ->
  forall call, In call [scrollTo i d; scrollNext; scrollPrev] ->
  exists s' e',
    call s = Ok tt s'
    /\ engine s' = Some e'
    /\ Engine.index e' = Engine.index e
    /\ Engine.indexPrevious e' = Engine.indexPrevious e
    /\ Engine.target e' = Engine.target e
    /\ Engine.location e' = Engine.location e
    /\ Engine.animation e' = Engine.animation e
    /\ activated s' = false.
Proof.
  intros He Hact call Hcall.
  assert (Hto : forall j dj, exists s' e',
             scrollTo j dj s = Ok tt s'
             /\ engine s' = Some e'
             /\ Engine.index e' = Engine.index e
             /\ Engine.indexPrevious e' = Engine.indexPrevious e
             /\ Engine.target e' = Engine.target e
             /\ Engine.location e' = Engine.location e
             /\ Engine.animation e' = Engine.animation e
             /\ activated s' = false).
  { intros j dj. rewrite (scrollTo_runs s e j dj He), Hact.
    eexists. eexists. split; [reflexivity |]. split; [reflexivity |].
    repeat split. exact Hact. }
  destruct Hcall as [<- | [<- | [<- | []]]].
  - apply Hto.
  - rewrite (scrollNext_scrollTo s e He). apply Hto.
  - rewrite (scrollPrev_scrollTo s e He). apply Hto.
Qed.

End StepFacts.

(** ** Tearing down *)

Section TearDownFacts.

Lemma forEach_removeClass_runs (sl : list Element) (st : State) :
  exists cl,
    forEach sl (fun el => o <- gets options ;;
                          removeClass (elementId el) (selectedClass o)) st
    = Ok tt (set_classList cl st).
Proof.
  revert st. induction sl as [| el rest IH]; intros st; cbn [forEach].
  - exists (classList st). destruct st; reflexivity.
  - destruct (IH (updateClasses (elementId el)
                    (classRemove (selectedClass (options st))) st)) as (cl & Hcl).
    exists cl.
    rewrite (bind_Ok _ _ st (updateClasses (elementId el)
                               (classRemove (selectedClass (options st))) st) tt);
      [| reflexivity].
    rewrite Hcl. destruct st; reflexivity.
Qed.

(** [deActivate] in one step. *)
Lemma deActivate_runs (s : State) (e : Engine.t) (root : Root) :
  engine s = Some e ->
  sliderRoot s = Some root ->
  exists cl,
    deActivate s
    = Ok tt (mkState (sliderRoot s) cl (timeouts s) (unsubscribed (events s))
                     (EventStore.removeAll (eventStore s)) (Some (tornDown e))
                     (activated s) (options s) (rootElementSize s) (container s)
                     (slides s)).
Proof.
  intros He Hr.
  destruct s as [sr cls tm ev st en ac op rs co sl]. cbn in He, Hr. subst en sr.
  unfold deActivate.
  cbv beta iota delta [bind onEngine theEngine modify theRoot gets removeClass onEvents
                        engine sliderRoot options slides events eventStore set_engine
                        set_eventStore set_events classList timeouts activated
                        rootElementSize container updateClasses set_classList].
  match goal with
  | |- context [forEach sl ?f ?st] =>
      destruct (forEach_removeClass_runs sl st) as (cl & Hcl);
      change (forEach sl f st)
        with (forEach sl (fun el => o <- gets options ;;
                                    removeClass (elementId el) (selectedClass o)) st)
  end.
  exists cl. rewrite Hcl. reflexivity.
Qed.

Lemma listeners_unsubscribed (em : EventEmitter.t) :
  forallb ownSubscription (EventEmitter.listeners em) = true ->
  EventEmitter.listeners (unsubscribed em)
  = filter userSubscription (EventEmitter.listeners em).
Proof.
  unfold unsubscribed. cbn [EventEmitter.off EventEmitter.listeners].
  induction (EventEmitter.listeners em) as [| [evt cb] rest IH]; intros Hown.
  - reflexivity.
  - cbn [forallb] in Hown. apply andb_prop in Hown. destruct Hown as [H1 H2].
    specialize (IH H2).
    destruct cb as [| | id]; destruct evt; try discriminate H1;
      cbn; rewrite ?IH; reflexivity.
Qed.

End TearDownFacts.

(** ** Attaching listeners and classes *)

Lemma bind_assoc {A B C : Type} (m : M A) (k : A -> M B) (h : B -> M C) (s : State) :
  bind (bind m k) h s = bind m (fun a => bind (k a) h) s.
Proof. unfold bind. destruct (m s); reflexivity. Qed.

Lemma bind_ext {A B : Type} (m : M A) (k k' : A -> M B) (s : State) :
  (forall a s', k a s' = k' a s') -> bind m k s = bind m k' s.
Proof. intros H. unfold bind. destruct (m s); [apply H | reflexivity]. Qed.

Lemma activate_rest_split (s : State) :
  activate_rest s = (activate_wire ;; activate_mark) s.
Proof.
  symmetry. unfold activate_wire, activate_rest.
  rewrite bind_assoc. apply bind_ext; intros o s1.
  rewrite bind_assoc. apply bind_ext; intros sl s2.
  rewrite bind_assoc. apply bind_ext; intros [] s3.
  rewrite bind_assoc. apply bind_ext; intros [] s4.
  reflexivity.
Qed.

Lemma activate_mark_runs (s : State) :
  activate_mark s
  = Ok tt (if activated s then s
           else set_activated true (set_timeouts (timeouts s ++ [Ev_init]) s)).
Proof.
  unfold activate_mark, bind, gets, when, setTimeout_emit, modify, ret.
  destruct (activated s); reflexivity.
Qed.

Lemma looperIs_update (l : SlideLooper.t) (e1 : Engine.t) (f : Engine.t -> Engine.t)
    (s : State) :
  engine s = Some e1 ->
  Engine.slideLooper (f e1) = Engine.slideLooper e1 ->
  looperIs l s -> looperIs l (set_engine (Some (f e1)) s).
Proof.
  intros He1 Hf (e & He & Hl). assert (e = e1) by congruence. subst e.
  exists (f e1). split; [reflexivity | congruence].
Qed.

(** Closes the goals [preserves_steps] leaves for the bookkeeping
    predicates. *)
Ltac book_leaf :=
  lazymatch goal with
  | H : bookKept ?s0 ?s |- bookKept ?s0 _ =>
      destruct H as (? & ? & ?); repeat split; assumption
  | H : looperIs ?l ?s, He : engine ?s = Some ?e1
    |- looperIs ?l (set_engine (Some ?fe) ?s) =>
      apply (looperIs_update l e1 (fun _ => fe) s He); [reflexivity | exact H]
  | H : looperIs ?l ?s |- looperIs ?l _ => exact H
  | H : userSubscriptionsAre ?u ?s |- userSubscriptionsAre ?u _ =>
      unfold userSubscriptionsAre in *; cbn;
      rewrite ?filter_app; cbn; rewrite ?app_nil_r; exact H
  end.

Section WireFacts.

Variable s0 : State.
Variable l0 : SlideLooper.t.
Variable u0 : list (EmblaEvent * Callback).

Lemma bookKept_refl : bookKept s0 s0.
Proof. repeat split. Qed.

Lemma bookKept_toggleSelectedClass : preserves (bookKept s0) toggleSelectedClass.
Proof. unfold toggleSelectedClass. preserves_steps; book_leaf. Qed.

Lemma looperIs_toggleSelectedClass : preserves (looperIs l0) toggleSelectedClass.
Proof. unfold toggleSelectedClass. preserves_steps; book_leaf. Qed.

Lemma userSubscriptions_toggleSelectedClass :
  preserves (userSubscriptionsAre u0) toggleSelectedClass.
Proof. unfold toggleSelectedClass. preserves_steps; book_leaf. Qed.

Lemma bookKept_activate_wire : preserves (bookKept s0) activate_wire.
Proof.
  unfold activate_wire. preserves_steps; try book_leaf.
  apply bookKept_toggleSelectedClass.
Qed.

Lemma looperIs_activate_wire : preserves (looperIs l0) activate_wire.
Proof.
  unfold activate_wire. preserves_steps; try book_leaf.
  apply looperIs_toggleSelectedClass.
Qed.

Lemma userSubscriptions_activate_wire :
  preserves (userSubscriptionsAre u0) activate_wire.
Proof.
  unfold activate_wire. preserves_steps; try book_leaf.
  apply userSubscriptions_toggleSelectedClass.
Qed.

Lemma setupKept_activate_wire : preserves (setupKept s0) activate_wire.
Proof.
  unfold activate_wire. preserves_steps; try setup_leaf.
  apply setupKept_toggleSelectedClass.
Qed.

End WireFacts.

(** What [activate_rest] has done when it returns. *)
Lemma activate_rest_result (s s' : State) :
  activate_rest s = Ok tt s' ->
  setupKept s s'
  /\ eventStore s' = eventStore s
  /\ activated s' = true
  /\ timeouts s' = timeouts s ++ (if activated s then [] else [Ev_init])
  /\ (forall l, looperIs l s -> looperIs l s')
  /\ userSubscriptionsAre (filter userSubscription (EventEmitter.listeners (events s))) s'.
Proof.
  rewrite activate_rest_split. intros Hrun.
  apply bind_inv_Ok in Hrun. destruct Hrun as ([] & s1 & Hwire & Hmark).
  pose proof (setupKept_activate_wire s s (setupKept_refl s)) as K1.
  pose proof (bookKept_activate_wire s s (bookKept_refl s)) as K2.
  pose proof (userSubscriptions_activate_wire _ s eq_refl) as K3.
  assert (K4 : forall l, looperIs l s -> looperIs l s1).
  { intros l Hl. pose proof (looperIs_activate_wire l s Hl) as K.
    rewrite Hwire in K. exact K. }
  rewrite Hwire in K1, K2, K3. cbn in K1, K2, K3.
  destruct K2 as (T & A & E).
  rewrite activate_mark_runs in Hmark. injection Hmark as <-.
  rewrite <- A, <- T, <- E.
  destruct (activated s1) eqn:Hact.
  - rewrite app_nil_r. repeat split; try assumption; try apply K1.
  - split.
    { destruct K1 as (? & ? & ? & ? & ? & ? & G). repeat split; assumption. }
    split; [reflexivity |]. split; [reflexivity |]. split; [reflexivity |].
    split; [intros l Hl; exact (K4 l Hl) | exact K3].
Qed.

(** ** What an activation that returns has set up *)

Section ActivationOutcome.

Variable params : Engine.Params.

Lemma userSubscriptions_unsubscribed (em : EventEmitter.t) :
  filter userSubscription (EventEmitter.listeners (unsubscribed em))
  = filter userSubscription (EventEmitter.listeners em).
Proof.
  unfold unsubscribed. cbn [EventEmitter.off EventEmitter.listeners].
  induction (EventEmitter.listeners em) as [| [evt cb] rest IH].
  - reflexivity.
  - destruct cb as [| | id]; destruct evt; cbn; rewrite ?IH; reflexivity.
Qed.

(** The activation did not have to fall back: [loop] is off in the merged
    options, or looping is feasible. *)
Lemma activate_plain_result (n : nat) (po : PartialOptions) (s s' : State)
    (root : Root) (c : Container) :
  sliderRoot s = Some root ->
  querySelector root (containerSelector (options s)) = Some c ->
  let o := Object_assign (options s) po in
  let e0 := Engine.new params root c (children c) o in
  loop o = false \/ SlideLooper.canLoop (Engine.slideLooper e0) = true ->
  activate_fuel params (S n) po s = Ok tt s' ->
  activatedWith root c o s s'
  /\ eventStore s' = eventStore s ++ [resizeEntry]
  /\ exists e', engine s' = Some e'
                /\ cursorFrom o e'
                /\ Engine.slideLooper e'
                   = if loop o then SlideLooper.loop (Engine.slideLooper e0)
                     else Engine.slideLooper e0.
Proof.
  intros Hr Hq o e0 Hplain Hrun.
  rewrite (activate_fuel_unfold params n po s root c Hr Hq) in Hrun. cbv zeta in Hrun.
  rewrite options_atLoopCheck in Hrun. fold o in Hrun. fold e0 in Hrun.
  set (s6 := atLoopCheck params po root c s) in *.
  assert (Hfinish : forall sx ex,
             setupKept s6 sx -> bookKept s6 sx ->
             engine sx = Some ex -> cursorFrom o ex ->
             userSubscriptionsAre
               (filter userSubscription (EventEmitter.listeners (events s))) sx ->
             activate_rest sx = Ok tt s' ->
             activatedWith root c o s s'
             /\ eventStore s' = eventStore s ++ [resizeEntry]
             /\ exists e', engine s' = Some e' /\ cursorFrom o e'
                           /\ Engine.slideLooper e' = Engine.slideLooper ex).
  { intros sx ex K B Hex Hcur Hu Hrest.
    destruct (activate_rest_result sx s' Hrest) as (K' & E' & A' & T' & L' & U').
    pose proof (setupKept_trans _ _ _ K K') as (O & R & S & Cn & Em & Rs & _).
    destruct B as (Bt & Ba & Be).
    destruct (cursorFrom_kept sx s' ex Hex) as (e' & He' & Hcur'); [| exact K' |].
    { destruct K as (Ox & _). rewrite Ox. exact Hcur. }
    destruct (L' (Engine.slideLooper ex)) as (e'' & He'' & Hl''); [exists ex; auto |].
    assert (e'' = e') by congruence. subst e''.
    split; [| split].
    - unfold activatedWith. rewrite O, R, S, Cn, Em, Rs, T', Bt, Ba.
      repeat split; try assumption.
      unfold userSubscriptionsAre in *. rewrite U', Hu. reflexivity.
    - rewrite E', Be. reflexivity.
    - exists e'. split; [exact He' |]. split; [| exact Hl''].
      destruct K' as (O' & _). rewrite O' in Hcur'.
      destruct K as (Ox & _). rewrite Ox in Hcur'. exact Hcur'. }
  destruct (loop o) eqn:Hloop.
  - destruct Hplain as [Hoff | Hcan]; [discriminate |]. rewrite Hcan in Hrun.
    cbn [negb] in Hrun.
    apply bind_inv_Ok in Hrun. destruct Hrun as ([] & sx & Hloopr & Hrest).
    unfold onEngine, bind, theEngine, modify in Hloopr. cbn in Hloopr.
    injection Hloopr as <-.
    match type of Hrest with
    | activate_rest (set_engine (Some ?ex) ?sx) = _ =>
        destruct (Hfinish (set_engine (Some ex) sx) ex)
          as (H1 & H2 & e' & He' & Hcur' & Hl');
          [| | reflexivity | reflexivity | reflexivity | exact Hrest |]
    end.
    + repeat split. intros e He. cbn in He. injection He as <-.
      eexists. split; [reflexivity |]. repeat split.
    + repeat split.
    + split; [exact H1 |]. split; [exact H2 |].
      exists e'. split; [exact He' |]. split; [exact Hcur' | exact Hl'].
  - match type of Hrun with
    | activate_rest ?sx = _ =>
        destruct (Hfinish sx (Engine.with_translate
                                (Translate.to (Engine.location e0)) e0))
          as (H1 & H2 & e' & He' & Hcur' & Hl');
          [apply setupKept_refl | apply bookKept_refl | reflexivity | reflexivity
          | reflexivity | exact Hrun |]
    end.
    split; [exact H1 |]. split; [exact H2 |].
    exists e'. split; [exact He' |]. split; [exact Hcur' | exact Hl'].
Qed.

(** Tearing down right after the loop check. *)
Lemma deActivate_atLoopCheck (po : PartialOptions) (root : Root) (c : Container)
    (s : State) :
  sliderRoot s = Some root ->
  exists s7,
    deActivate (atLoopCheck params po root c s) = Ok tt s7
    /\ sliderRoot s7 = Some root
    /\ options s7 = Object_assign (options s) po
    /\ events s7 = unsubscribed (events s)
    /\ timeouts s7 = timeouts s
    /\ activated s7 = activated s
    /\ eventStore s7 = [].
Proof.
  intros Hr.
  destruct (deActivate_runs (atLoopCheck params po root c s) _ root eq_refl Hr)
    as (cl & Hd).
  eexists. split; [exact Hd |]. cbn. repeat split. exact Hr.
Qed.

(** The activation fell back: [loop] is on in the merged options and
    looping is not feasible. *)
Lemma activate_fallback_result (po : PartialOptions) (s s' : State)
    (root : Root) (c : Container) :
  sliderRoot s = Some root ->
  querySelector root (containerSelector (options s)) = Some c ->
  let o := Object_assign (options s) po in
  loop o = true ->
  SlideLooper.canLoop
    (Engine.slideLooper (Engine.new params root c (children c) o)) = false ->
  activate params po s = Ok tt s' ->
  exists c',
    querySelector root (containerSelector o) = Some c'
    /\ activatedWith root c' (Object_assign o loopOff) s s'
    /\ eventStore s' = [resizeEntry]
    /\ exists e', engine s' = Some e'
                  /\ cursorFrom (Object_assign o loopOff) e'
                  /\ Engine.slideLooper e'
                     = Engine.slideLooper
                         (Engine.new params root c' (children c')
                            (Object_assign o loopOff)).
Proof.
  intros Hr Hq. cbv zeta. intros Hloop Hcan Hrun.
  rewrite (activate_falls_back params s po root c Hr Hq Hloop Hcan) in Hrun.
  apply bind_inv_Ok in Hrun. destruct Hrun as ([] & s7 & Hd & Hinner).
  destruct (deActivate_atLoopCheck po root c s Hr)
    as (s7' & Hd' & R7 & O7 & E7 & T7 & A7 & S7).
  assert (s7' = s7) by congruence. subst s7'. clear Hd Hd'.
  destruct (containerFound_cases s7) as [Hmiss | (root' & c' & Hr' & Hq')].
  { unfold activate in Hinner.
    destruct (activate_fuel_missing params 1 loopOff s7 Hmiss) as (err & E & _).
    congruence. }
  assert (root' = root) by congruence. subst root'.
  destruct (activate_plain_result 1 loopOff s7 s' root c' Hr' Hq') as (Hwith & Hstore & He').
  { left. rewrite O7. reflexivity. }
  { exact Hinner. }
  cbv zeta in Hwith, He'. rewrite O7 in Hwith, He', Hq'.
  rewrite S7 in Hstore.
  exists c'. split; [exact Hq' |].
  destruct Hwith as (O & R & Cn & S & Rs & A & Em & T & U).
  split; [| split; [exact Hstore | exact He']].
  unfold activatedWith. rewrite E7 in Em, U. rewrite T7, A7 in T.
  unfold userSubscriptionsAre in *. rewrite userSubscriptions_unsubscribed in U.
  repeat split; assumption.
Qed.

End ActivationOutcome.

(** ** Outcomes of construction and re-initialisation *)

Section Outcomes.

Variable params : Engine.Params.

(** Both ways in which [activate] returns, side by side. *)
Lemma activate_outcome (po : PartialOptions) (s s' : State) :
  activate params po s = Ok tt s' ->
  exists root c c' o' e',
    sliderRoot s = Some root
    /\ querySelector root (containerSelector (options s)) = Some c
    /\ ((o' = Object_assign (options s) po /\ c' = c
         /\ eventStore s' = eventStore s ++ [resizeEntry])
        \/ (loop (Object_assign (options s) po) = true
            /\ o' = Object_assign (Object_assign (options s) po) loopOff
            /\ querySelector root (containerSelector (Object_assign (options s) po))
               = Some c'
            /\ eventStore s' = [resizeEntry]))
    /\ activatedWith root c' o' s s'
    /\ engine s' = Some e'
    /\ cursorFrom o' e'
    /\ SlideLooper.looping (Engine.slideLooper e') = loop o'
    /\ (loop o' = true -> SlideLooper.canLoop (Engine.slideLooper e') = true).
Proof.
  intros Hrun.
  destruct (containerFound_cases s) as [Hmiss | (root & c & Hr & Hq)].
  { unfold activate in Hrun.
    destruct (activate_fuel_missing params 1 po s Hmiss) as (err & E & _). congruence. }
  set (o := Object_assign (options s) po).
  set (e0 := Engine.new params root c (children c) o).
  destruct (loop o) eqn:Hloop;
    [destruct (SlideLooper.canLoop (Engine.slideLooper e0)) eqn:Hcan |].
  - destruct (activate_plain_result params 1 po s s' root c Hr Hq (or_intror Hcan) Hrun)
      as (Hwith & Hstore & e' & He' & Hcur & Hl).
    cbv zeta in Hl. fold o in Hl, Hwith, Hcur. fold e0 in Hl. rewrite Hloop in Hl.
    exists root, c, c, o, e'. split; [exact Hr |]. split; [exact Hq |].
    split; [left; auto |]. split; [exact Hwith |]. split; [exact He' |].
    split; [exact Hcur |]. rewrite Hl, Hloop. split; [reflexivity |].
    intros _. exact Hcan.
  - destruct (activate_fallback_result params po s s' root c Hr Hq Hloop Hcan Hrun)
      as (c' & Hq' & Hwith & Hstore & e' & He' & Hcur & Hl).
    fold o in Hq', Hwith, Hcur, Hl.
    exists root, c, c', (Object_assign o loopOff), e'.
    split; [exact Hr |]. split; [exact Hq |].
    split; [right; auto |]. split; [exact Hwith |]. split; [exact He' |].
    split; [exact Hcur |]. rewrite Hl. split; [reflexivity | discriminate].
  - destruct (activate_plain_result params 1 po s s' root c Hr Hq (or_introl Hloop) Hrun)
      as (Hwith & Hstore & e' & He' & Hcur & Hl).
    cbv zeta in Hl. fold o in Hl, Hwith, Hcur. fold e0 in Hl. rewrite Hloop in Hl.
    exists root, c, c, o, e'. split; [exact Hr |]. split; [exact Hq |].
    split; [left; auto |]. split; [exact Hwith |]. split; [exact He' |].
    split; [exact Hcur |]. rewrite Hl, Hloop. split; [reflexivity | discriminate].
Qed.

(** The steps of a [reActivate] that returned. *)
Lemma reActivate_steps (po : PartialOptions) (s s' : State) :
  Inv params s ->
  activated s = true ->
  reActivate params po s = Ok tt s' ->
  exists e root s0 s2,
    engine s = Some e
    /\ sliderRoot s = Some root
    /\ deActivate s = Ok tt s0
    /\ sliderRoot s0 = Some root
    /\ options s0 = options s
    /\ events s0 = unsubscribed (events s)
    /\ timeouts s0 = timeouts s
    /\ activated s0 = true
    /\ eventStore s0 = []
    /\ activate params (withStartIndex (Counter.get (Engine.index e)) po) s0 = Ok tt s2
    /\ s' = set_events (EventEmitter.record Ev_reInit (events s2)) s2.
Proof.
  intros HI Hact Hrun.
  pose proof HI as [[(e & He & _) (root & Hr)] _].
  unfold reActivate, bind at 1, gets in Hrun. rewrite Hact in Hrun. cbn [negb] in Hrun.
  unfold bind at 1 in Hrun. rewrite (selectedScrollSnap_runs s e He) in Hrun.
  apply bind_inv_Ok in Hrun. destruct Hrun as ([] & s0 & Hd & Hrun).
  apply bind_inv_Ok in Hrun. destruct Hrun as ([] & s2 & Hactv & Hemit).
  pose proof (keeps_deActivate _ (stable_Inv params) s HI) as HI0.
  rewrite Hd in HI0. cbn in HI0.
  pose proof (Inv_activate params (withStartIndex (Counter.get (Engine.index e)) po)
                s0 HI0) as HI2.
  rewrite Hactv in HI2. cbn in HI2.
  rewrite (emit_lifecycleEvent Ev_reInit s2 (proj2 HI2) eq_refl) in Hemit.
  injection Hemit as <-.
  destruct (deActivate_runs s e root He Hr) as (cl & Hd').
  rewrite Hd' in Hd. injection Hd as Hs0.
  exists e, root, s0, s2.
  split; [exact He |]. split; [exact Hr |]. split; [rewrite Hd', Hs0; reflexivity |].
  split; [rewrite <- Hs0; exact Hr |]. split; [rewrite <- Hs0; reflexivity |].
  split; [rewrite <- Hs0; reflexivity |]. split; [rewrite <- Hs0; reflexivity |].
  split; [rewrite <- Hs0; exact Hact |]. split; [rewrite <- Hs0; reflexivity |].
  split; [exact Hactv | reflexivity].
Qed.

(** X9.  A construction that returns leaves the carousel activated, with
    one pending 'init' emission and nothing emitted yet, exactly one
    window resize listener in the event store, the root's size recorded,
    no foreign subscription, and as options the defaults overridden by the
    user options, with [loop] switched off in case looping was requested
    but infeasible. *)
Theorem construction_outcome (d : EmblaOptions) (root : option Root)
    (classes : nat -> list string) (uo : PartialOptions) (s : State) :
  EmblaCarousel params d root classes uo = Ok tt s ->
  activated s = true
  /\ timeouts s = [Ev_init]
  /\ EventEmitter.emitted (events s) = []
  /\ eventStore s = [resizeEntry]
  /\ (exists r, root = Some r /\ sliderRoot s = Some r /\ rootElementSize s = rootSize r)
  /\ userSubscriptionsAre [] s
  /\ (options s = Object_assign d uo
      \/ (loop (Object_assign d uo) = true
          /\ options s = Object_assign (Object_assign d uo) loopOff)).
Proof.
  unfold EmblaCarousel. intros Hrun.
  destruct (activate_outcome uo _ s Hrun)
    as (r & c & c' & o' & e' & Hr & _ & Hcase & Hwith & _).
  destruct Hwith as (O & R & _ & _ & Rs & A & Em & T & U).
  cbn in Hr, Em, T, U, Hcase.
  split; [exact A |]. split; [exact T |]. split; [exact Em |].
  split; [destruct Hcase as [(_ & _ & E) | (_ & _ & _ & E)]; exact E |].
  split; [exists r; auto |]. split; [exact U |].
  rewrite O. destruct Hcase as [(E & _) | (L & E & _)]; [left | right]; auto.
Qed.

(** X10.  After a construction or a [reInit()] that returned, the slide
    looper is applied exactly when [loop] is on in the options, and
    [loop] is only on when looping is feasible for the engine in place. *)
Theorem loop_on_only_when_feasible (s' : State) :
  (exists d root classes uo, EmblaCarousel params d root classes uo = Ok tt s')
  \/ (exists s po, reachable params s /\ activated s = true
                   /\ reInit params po s = Ok tt s') ->
  exists e',
    engine s' = Some e'
    /\ SlideLooper.looping (Engine.slideLooper e') = loop (options s')
    /\ (loop (options s') = true -> SlideLooper.canLoop (Engine.slideLooper e') = true).
Proof.
  intros [(d & root & classes & uo & Hrun) | (s & po & Hreach & Hact & Hrun)].
  - destruct (activate_outcome uo _ s' Hrun)
      as (r & c & c' & o' & e' & _ & _ & _ & (O & _) & He' & _ & Hl & Hc).
    exists e'. rewrite O. auto.
  - apply reachable_Inv in Hreach.
    destruct (reActivate_steps po s s' Hreach Hact Hrun)
      as (e & r & s0 & s2 & _ & _ & _ & _ & _ & _ & _ & _ & _ & Hactv & ->).
    destruct (activate_outcome _ s0 s2 Hactv)
      as (r' & c & c' & o' & e' & _ & _ & _ & (O & _) & He' & _ & Hl & Hc).
    exists e'. cbn. rewrite O. auto.
Qed.

(** What a [reActivate] that returned has done. *)
Lemma reActivate_result (s s' : State) (po : PartialOptions) (i : Z) :
  reachable params s ->
  activated s = true ->
  selectedScrollSnap s = Ok i s ->
  reActivate params po s = Ok tt s' ->
  let o := Object_assign (options s) (withStartIndex i po) in
  activated s' = true
  /\ EventEmitter.emitted (events s') = EventEmitter.emitted (events s) ++ [Ev_reInit]
  /\ timeouts s' = timeouts s
  /\ eventStore s' = [resizeEntry]
  /\ userSubscriptionsAre
       (filter userSubscription (EventEmitter.listeners (events s))) s'
  /\ (exists r, sliderRoot s' = Some r /\ rootElementSize s' = rootSize r)
  /\ (options s' = o \/ (loop o = true /\ options s' = Object_assign o loopOff)).
Proof.
  intros Hreach Hact Hsel Hrun o. apply reachable_Inv in Hreach.
  destruct (reActivate_steps po s s' Hreach Hact Hrun)
    as (e & r & s0 & s2 & He & Hr & _ & R0 & O0 & E0 & T0 & A0 & S0 & Hactv & ->).
  rewrite (selectedScrollSnap_runs s e He) in Hsel. injection Hsel as Hi.
  rewrite Hi in Hactv.
  destruct (activate_outcome _ s0 s2 Hactv)
    as (r' & c & c' & o' & e' & Hr' & _ & Hcase & Hwith & _).
  assert (r' = r) by congruence. subst r'.
  destruct Hwith as (O & R & _ & _ & Rs & A & Em & T & U).
  rewrite O0 in Hcase. fold o in Hcase.
  rewrite E0 in Em, U. rewrite T0, A0, app_nil_r in T. cbn in Em.
  unfold userSubscriptionsAre in *. rewrite userSubscriptions_unsubscribed in U.
  cbn. split; [exact A |]. split; [rewrite Em; reflexivity |]. split; [exact T |].
  split.
  { destruct Hcase as [(_ & _ & E) | (_ & _ & _ & E)]; [rewrite E, S0 |]; auto. }
  split; [exact U |]. split; [exists r; auto |].
  rewrite O. destruct Hcase as [(E & _) | (L & E & _)]; [left | right]; auto.
Qed.

(** X11.  A [reInit()] on an activated carousel that returns emits
    'reInit' once, keeps the carousel activated, schedules nothing, leaves
    exactly one window resize listener in the event store, keeps the
    subscriptions of the user, records the root's size, and merges the
    given options over the current ones, with the selected snap as start
    index unless one is given and [loop] switched off in case looping is
    on but infeasible. *)
Theorem reInit_outcome (s s' : State) (po : PartialOptions) (i : Z) :
  reachable params s ->
  activated s = true ->
  selectedScrollSnap s = Ok i s ->
  reInit params po s = Ok tt s' ->
  let o := Object_assign (options s) (withStartIndex i po) in
  activated s' = true
  /\ EventEmitter.emitted (events s') = EventEmitter.emitted (events s) ++ [Ev_reInit]
  /\ timeouts s' = timeouts s
  /\ eventStore s' = [resizeEntry]
  /\ userSubscriptionsAre
       (filter userSubscription (EventEmitter.listeners (events s))) s'
  /\ (exists r, sliderRoot s' = Some r /\ rootElementSize s' = rootSize r)
  /\ (options s' = o \/ (loop o = true /\ options s' = Object_assign o loopOff)).
Proof. exact (reActivate_result s s' po i). Qed.

End Outcomes.

(** ** Loop feasibility *)

Section LoopFeasibility.

Variable params : Engine.Params.

(** C6.  For a container of width [W] holding [N >= 1] slides each of
    width [w], [canLoop()] of the engine built for them is false exactly
    when [N*w < W + w] and true otherwise, the boundary [N*w = W + w]
    included; accordingly a carousel constructed on them with [loop]
    requested ends with [loop] on exactly when [W + w <= N*w]. *)
Theorem canLoop_feasibility (root : Root) (c : Container) (slides : list Element)
    (o : EmblaOptions) (w : Z) :
  slides <> [] ->
  Forall (fun el => elementSize el = w) slides ->
  let W := containerSize c in
  let N := Z.of_nat (List.length slides) in
  let canLoop :=
    SlideLooper.canLoop (Engine.slideLooper (Engine.new params root c slides o)) in
  (canLoop = false <-> N * w < W + w)
  /\ (canLoop = true <-> W + w <= N * w)
  /\ (N * w = W + w -> canLoop = true)
  /\ forall (d : EmblaOptions) (classes : nat -> list string) (uo : PartialOptions)
            (s' : State),
       querySelector root (containerSelector d) = Some c ->
       children c = slides ->
       loop (Object_assign d uo) = true ->
       EmblaCarousel params d (Some root) classes uo = Ok tt s' ->
       (loop (options s') = true <-> W + w <= N * w).
Proof.
  intros Hne Hall W N canLoop.
  assert (Heq : canLoop = (W + w <=? N * w))
    by (apply canLoop_new; assumption).
  split; [rewrite Heq, Z.leb_gt; tauto |].
  split; [rewrite Heq, Z.leb_le; tauto |].
  split; [intros H; rewrite Heq; apply Z.leb_le; lia |].
  intros d classes uo s' Hq Hch Hloop Hrun.
  unfold EmblaCarousel in Hrun.
  set (s0 := initialState d (Some root) classes) in *.
  assert (Hr : sliderRoot s0 = Some root) by reflexivity.
  assert (Hq0 : querySelector root (containerSelector (options s0)) = Some c)
    by exact Hq.
  assert (Hcan : SlideLooper.canLoop
                   (Engine.slideLooper
                      (Engine.new params root c (children c)
                         (Object_assign (options s0) uo)))
                 = (W + w <=? N * w)).
  { rewrite Hch. apply canLoop_new; assumption. }
  destruct (W + w <=? N * w) eqn:Hle.
  - destruct (activate_plain_result params 1 uo s0 s' root c Hr Hq0 (or_intror Hcan) Hrun)
      as ((O & _) & _).
    rewrite O. apply Z.leb_le in Hle. split; [intros _; exact Hle | intros _; exact Hloop].
  - destruct (activate_fallback_result params uo s0 s' root c Hr Hq0 Hloop Hcan Hrun)
      as (c' & _ & (O & _) & _).
    rewrite O. apply Z.leb_gt in Hle. split; [discriminate | lia].
Qed.

End LoopFeasibility.

(** ** Resizing, destroying, and the pending 'init' *)

Section LifecycleEdges.

Variable params : Engine.Params.

(** The pending timeouts fire in order, each emission being recorded. *)
Lemma forEach_emit_lifecycle (ts : list EmblaEvent) (s : State) :
  ownSubscriptions s ->
  forallb lifecycleEvent ts = true ->
  forEach ts emit s
  = Ok tt (set_events (EventEmitter.mk (EventEmitter.listeners (events s))
                         (EventEmitter.emitted (events s) ++ ts)) s).
Proof.
  revert s. induction ts as [| evt rest IH]; intros s Hown Hts; cbn [forEach].
  - rewrite app_nil_r. destruct s as [? ? ? [? ?] ? ? ? ? ? ? ?]. reflexivity.
  - cbn [forallb] in Hts. apply andb_prop in Hts. destruct Hts as [Hevt Hrest].
    rewrite (bind_Ok _ _ _ _ tt (emit_lifecycleEvent evt s Hown Hevt)).
    rewrite IH; [| exact Hown | exact Hrest]. cbn.
    rewrite <- app_assoc. reflexivity.
Qed.

Lemma fireTimeouts_lifecycle (s : State) :
  ownSubscriptions s ->
  forallb lifecycleEvent (timeouts s) = true ->
  exists s',
    fireTimeouts s = Ok tt s'
    /\ timeouts s' = []
    /\ EventEmitter.emitted (events s') = EventEmitter.emitted (events s) ++ timeouts s
    /\ activated s' = activated s
    /\ eventStore s' = eventStore s
    /\ engine s' = engine s.
Proof.
  intros Hown Hts. unfold fireTimeouts, bind, gets, modify.
  rewrite forEach_emit_lifecycle; [| exact Hown | exact Hts].
  eexists. split; [reflexivity |]. cbn. repeat split.
Qed.

(** The teardown of an activated carousel, spelled out. *)
Lemma destroy_result (s : State) :
  Inv params s ->
  activated s = true ->
  exists s' e,
    destroy s = Ok tt s'
    /\ engine s = Some e
    /\ engine s' = Some (tornDown e)
    /\ eventStore s' = []
    /\ activated s' = false
    /\ EventEmitter.listeners (events s')
       = filter userSubscription (EventEmitter.listeners (events s))
    /\ EventEmitter.emitted (events s') = EventEmitter.emitted (events s) ++ [Ev_destroy]
    /\ timeouts s' = timeouts s
    /\ options s' = options s
    /\ sliderRoot s' = sliderRoot s.
Proof.
  intros HI Hact.
  pose proof HI as [[(e & He & _) (root & Hr)] Hown].
  destruct (deActivate_runs s e root He Hr) as (cl & Hd).
  pose proof (keeps_deActivate _ (stable_Inv params) s HI) as HI0.
  rewrite Hd in HI0. cbn in HI0.
  unfold destroy, bind at 1, gets. rewrite Hact. cbn [negb].
  rewrite (bind_Ok _ _ _ _ tt Hd).
  unfold bind at 1, modify.
  rewrite emit_lifecycleEvent; [| exact (proj2 HI0) | reflexivity].
  eexists. exists e. split; [reflexivity |]. cbn.
  split; [exact He |]. split; [reflexivity |]. split; [reflexivity |].
  split; [reflexivity |]. split; [apply listeners_unsubscribed; exact Hown |].
  repeat split.
Qed.

(** X12.  A [reInit()] on an activated carousel whose container is no
    longer found throws only after having torn the carousel down:
    "Missing container node" when the selector in the options matches
    nothing, a SyntaxError when it is no valid CSS; the engine's listeners
    are removed and the event store is empty, the facade's own
    subscriptions are gone, nothing was emitted, and [activated] is still
    set. *)
Theorem reInit_without_container (s : State) (po : PartialOptions) (root : Root) :
  reachable params s ->
  activated s = true ->
  sliderRoot s = Some root ->
  querySelector root (containerSelector (options s)) = None ->
  exists s0 e,
    reInit params po s
    = Throw (if rejected root (containerSelector (options s))
             then SyntaxError else MissingContainerNode) s0
    /\ engine s = Some e
    /\ engine s0 = Some (tornDown e)
    /\ eventStore s0 = []
    /\ activated s0 = true
    /\ EventEmitter.emitted (events s0) = EventEmitter.emitted (events s)
    /\ EventEmitter.listeners (events s0)
       = filter userSubscription (EventEmitter.listeners (events s)).
Proof.
  intros Hreach Hact Hr Hnone. apply reachable_Inv in Hreach.
  pose proof Hreach as [[(e & He & _) _] Hown].
  destruct (deActivate_runs s e root He Hr) as (cl & Hd).
  set (s0 := mkState (sliderRoot s) cl (timeouts s) (unsubscribed (events s))
                     (EventStore.removeAll (eventStore s)) (Some (tornDown e))
                     (activated s) (options s) (rootElementSize s) (container s)
                     (slides s)) in *.
  assert (Hmiss0 : containerFound s0 = false).
  { unfold containerFound, s0. cbn [sliderRoot options]. rewrite Hr, Hnone. reflexivity. }
  destruct (activate_fuel_missing params 1
              (withStartIndex (Counter.get (Engine.index e)) po) s0 Hmiss0)
    as (err & Hthrow & Herr).
  unfold storeError, s0 in Herr. cbn [sliderRoot options] in Herr.
  rewrite Hr in Herr. subst err.
  exists s0, e.
  split.
  { unfold reInit, reActivate, bind at 1, gets. rewrite Hact. cbn [negb].
    unfold bind at 1. rewrite (selectedScrollSnap_runs s e He).
    rewrite (bind_Ok _ _ _ _ tt Hd). apply bind_Throw. exact Hthrow. }
  split; [exact He |]. split; [reflexivity |]. split; [reflexivity |].
  split; [exact Hact |]. split; [reflexivity |].
  apply listeners_unsubscribed. exact Hown.
Qed.

(** X13.  A resize that finds the root's size unchanged does not
    re-initialise: it emits 'resize' and leaves everything else as it
    was. *)
Theorem resize_same_size (s : State) (root : Root) :
  reachable params s ->
  activated s = true ->
  sliderRoot s = Some root ->
  rootElementSize s = rootSize root ->
  resize params s = Ok tt (set_events (EventEmitter.record Ev_resize (events s)) s).
Proof.
  intros Hreach Hact Hr Hsize. apply reachable_Inv in Hreach.
  pose proof Hreach as [[(e & He & _) _] Hown].
  unfold resize, bind at 1, gets. rewrite Hact. cbn [negb].
  unfold bind at 1, theEngine. rewrite He.
  unfold bind at 1, theRoot. rewrite Hr.
  unfold bind at 1. unfold Engine.measure. rewrite Hsize, Z.eqb_refl.
  cbn [negb when]. unfold bind at 1, ret.
  apply emit_lifecycleEvent; [exact Hown | reflexivity].
Qed.

(** X14.  A resize that finds the root's size changed re-initialises
    before it reports: when it returns, 'reInit' and then 'resize' were
    emitted, the new size is recorded, the carousel is still activated
    with one window resize listener, and nothing was scheduled. *)
Theorem resize_changed_size (s s' : State) (root : Root) :
  reachable params s ->
  activated s = true ->
  sliderRoot s = Some root ->
  rootElementSize s <> rootSize root ->
  resize params s = Ok tt s' ->
  EventEmitter.emitted (events s')
  = EventEmitter.emitted (events s) ++ [Ev_reInit; Ev_resize]
  /\ rootElementSize s' = rootSize root
  /\ activated s' = true
  /\ eventStore s' = [resizeEntry]
  /\ timeouts s' = timeouts s
  /\ userSubscriptionsAre
       (filter userSubscription (EventEmitter.listeners (events s))) s'.
Proof.
  intros Hreach Hact Hr Hsize Hrun.
  pose proof (reachable_Inv params s Hreach) as HI.
  pose proof HI as [[(e & He & _) _] Hown].
  unfold resize, bind at 1, gets in Hrun. rewrite Hact in Hrun. cbn [negb] in Hrun.
  unfold bind at 1, theEngine in Hrun. rewrite He in Hrun.
  unfold bind at 1, theRoot in Hrun. rewrite Hr in Hrun.
  unfold bind at 1 in Hrun. unfold Engine.measure in Hrun.
  apply Z.eqb_neq in Hsize. rewrite Hsize in Hrun. cbn [negb when] in Hrun.
  apply bind_inv_Ok in Hrun. destruct Hrun as ([] & s1 & Hre & Hemit).
  pose proof (Inv_reActivate params noOptions s HI) as HI1.
  rewrite Hre in HI1. cbn in HI1.
  rewrite (emit_lifecycleEvent Ev_resize s1 (proj2 HI1) eq_refl) in Hemit.
  injection Hemit as <-.
  destruct (reActivate_result params s s1 noOptions (Counter.get (Engine.index e))
              Hreach Hact (selectedScrollSnap_runs s e He) Hre)
    as (A & Em & T & St & U & (r & Hr1 & Rs) & _).
  assert (Hroot : sliderRoot s1 = Some root).
  { destruct (reActivate_steps params noOptions s s1 HI Hact Hre)
      as (e2 & r2 & s0 & s2 & _ & Hr2 & _ & R0 & _ & _ & _ & _ & _ & Hactv & ->).
    destruct (activate_outcome params _ s0 s2 Hactv)
      as (r' & c & c' & o' & e' & Hr' & _ & _ & (_ & R & _) & _).
    cbn. congruence. }
  assert (r = root) by congruence. subst r.
  cbn. split; [rewrite Em, <- app_assoc; reflexivity |].
  split; [exact Rs |]. split; [exact A |]. split; [exact St |].
  split; [exact T | exact U].
Qed.

(** X15.  The container is looked up under the selector the options held
    before the call: a [containerSelector] passed to the constructor is
    stored in the options while the container in use is the one the
    default selector finds. *)
Theorem construction_queries_default_selector (d : EmblaOptions) (root : Root)
    (classes : nat -> list string) (uo : PartialOptions) (s : State) :
  EmblaCarousel params d (Some root) classes uo = Ok tt s ->
  loop (Object_assign d uo) = false ->
  container s = querySelector root (containerSelector d)
  /\ (exists c, container s = Some c /\ slides s = children c)
  /\ containerSelector (options s)
     = override (containerSelector d) (containerSelector' uo).
Proof.
  unfold EmblaCarousel. intros Hrun Hloop.
  destruct (activate_outcome params uo _ s Hrun)
    as (r & c & c' & o' & e' & Hr & Hq & Hcase & Hwith & _).
  cbn in Hr, Hq, Hcase, Hloop. injection Hr as <-.
  destruct Hcase as [(-> & -> & _) | (L & _)]; [| congruence].
  destruct Hwith as (O & _ & Cn & Sl & _).
  split; [congruence |]. split; [exists c; auto |].
  rewrite O. reflexivity.
Qed.

(** X16.  Likewise for [reInit()]: a new [containerSelector] only takes
    effect at the next activation, the container in use after the call
    being the one the previous selector finds. *)
Theorem reInit_queries_previous_selector (s s' : State) (po : PartialOptions)
    (root : Root) (i : Z) :
  reachable params s ->
  activated s = true ->
  sliderRoot s = Some root ->
  selectedScrollSnap s = Ok i s ->
  loop (Object_assign (options s) (withStartIndex i po)) = false ->
  reInit params po s = Ok tt s' ->
  container s' = querySelector root (containerSelector (options s))
  /\ (exists c, container s' = Some c /\ slides s' = children c)
  /\ containerSelector (options s')
     = override (containerSelector (options s)) (containerSelector' po).
Proof.
  intros Hreach Hact Hr Hsel Hloop Hrun. apply reachable_Inv in Hreach.
  destruct (reActivate_steps params po s s' Hreach Hact Hrun)
    as (e & r & s0 & s2 & He & Hr' & _ & R0 & O0 & _ & _ & _ & _ & Hactv & ->).
  assert (r = root) by congruence. subst r.
  rewrite (selectedScrollSnap_runs s e He) in Hsel. injection Hsel as Hi.
  rewrite Hi in Hactv.
  destruct (activate_outcome params _ s0 s2 Hactv)
    as (r' & c & c' & o' & e' & Hr0 & Hq & Hcase & Hwith & _).
  assert (r' = root) by congruence. subst r'.
  rewrite O0 in Hq, Hcase.
  destruct Hcase as [(-> & -> & _) | (L & _)]; [| congruence].
  destruct Hwith as (O & _ & Cn & Sl & _).
  cbn. split; [congruence |]. split; [exists c; auto |].
  rewrite O. destruct po; reflexivity.
Qed.

(** X17.  [destroy()] on an activated carousel returns with the
    engine's listeners, animation, translation and loop cleared, the event
    store emptied, [activated] cleared and the facade's own subscriptions
    removed; the subscriptions of the user, the options and what is
    scheduled stay as they were. *)
Theorem destroy_tears_down (s : State) :
  reachable params s ->
  activated s = true ->
  exists s' e,
    destroy s = Ok tt s'
    /\ engine s = Some e
    /\ engine s' = Some (tornDown e)
    /\ eventStore s' = []
    /\ activated s' = false
    /\ EventEmitter.listeners (events s')
       = filter userSubscription (EventEmitter.listeners (events s))
    /\ timeouts s' = timeouts s
    /\ options s' = options s.
Proof.
  intros Hreach Hact. apply reachable_Inv in Hreach.
  destruct (destroy_result s Hreach Hact)
    as (s' & e & Hd & He & He' & St & A & L & _ & T & O & _).
  exists s', e. auto 10.
Qed.

(** X18.  Construction only schedules 'init': once the pending timeout
    fires, 'init' is the first and only event emitted, and nothing is
    pending any more. *)
Theorem init_fires_after_construction (d : EmblaOptions) (root : option Root)
    (classes : nat -> list string) (uo : PartialOptions) (s : State) :
  EmblaCarousel params d root classes uo = Ok tt s ->
  EventEmitter.emitted (events s) = []
  /\ exists s',
       fireTimeouts s = Ok tt s'
       /\ EventEmitter.emitted (events s') = [Ev_init]
       /\ timeouts s' = []
       /\ activated s' = true.
Proof.
  intros Hrun.
  pose proof (reachable_Inv params s (reachable_new params d root classes uo s Hrun))
    as [_ Hown].
  unfold EmblaCarousel in Hrun.
  destruct (activate_outcome params uo _ s Hrun)
    as (r & c & c' & o' & e' & _ & _ & _ & (_ & _ & _ & _ & _ & A & Em & T & _) & _).
  cbn in Em, T. split; [exact Em |].
  destruct (fireTimeouts_lifecycle s Hown) as (s' & Hf & T' & Em' & A' & _).
  { rewrite T. reflexivity. }
  exists s'. rewrite Em' , Em, T, A', A. auto.
Qed.

(** X19.  [destroy()] does not cancel the scheduled 'init': on a carousel
    destroyed right after its construction the timeout still fires, so
    that 'init' is emitted after 'destroy'. *)
Theorem destroy_keeps_pending_init (d : EmblaOptions) (root : option Root)
    (classes : nat -> list string) (uo : PartialOptions) (s : State) :
  EmblaCarousel params d root classes uo = Ok tt s ->
  exists s1 s2,
    destroy s = Ok tt s1
    /\ timeouts s1 = [Ev_init]
    /\ fireTimeouts s1 = Ok tt s2
    /\ EventEmitter.emitted (events s2) = [Ev_destroy; Ev_init]
    /\ activated s2 = false.
Proof.
  intros Hrun.
  pose proof (reachable_Inv params s (reachable_new params d root classes uo s Hrun))
    as HI.
  unfold EmblaCarousel in Hrun.
  destruct (activate_outcome params uo _ s Hrun)
    as (r & c & c' & o' & e' & _ & _ & _ & (_ & _ & _ & _ & _ & A & Em & T & _) & _).
  cbn in Em, T.
  destruct (destroy_result s HI A)
    as (s1 & e & Hd & _ & _ & _ & A1 & _ & Em1 & T1 & _).
  pose proof (Inv_destroy params s HI) as HI1. rewrite Hd in HI1. cbn in HI1.
  destruct (fireTimeouts_lifecycle s1 (proj2 HI1)) as (s2 & Hf & _ & Em2 & A2 & _).
  { rewrite T1, T. reflexivity. }
  exists s1, s2. rewrite Em2, Em1, Em, T1, T, A2, A1. auto 10.
Qed.

End LifecycleEdges.

(** ** The classes the facade toggles *)

Section ClassFacts.

Variable params : Engine.Params.

Lemma hasClass_classAdd (cls : string) (l : list string) :
  hasClass cls (classAdd cls l) = true.
Proof.
  unfold classAdd, hasClass. destruct (existsb (String.eqb cls) l) eqn:E; [exact E |].
  rewrite existsb_app. cbn. rewrite String.eqb_refl. apply orb_true_r.
Qed.

Lemma hasClass_classRemove_other (cls cls' : string) (l : list string) :
  hasClass cls l = false -> hasClass cls (classRemove cls' l) = false.
Proof.
  unfold classRemove, hasClass. induction l as [| c rest IH]; [reflexivity |].
  cbn. intros H. apply orb_false_elim in H. destruct H as [H1 H2].
  destruct (negb (c =? cls')%string); cbn; rewrite ?H1; auto.
Qed.

Lemma hasClass_classRemove (cls : string) (l : list string) :
  hasClass cls (classRemove cls l) = false.
Proof.
  unfold classRemove, hasClass. induction l as [| c rest IH]; [reflexivity |].
  cbn. destruct (String.eqb_spec c cls) as [-> | Hne]; cbn; [exact IH |].
  rewrite IH. destruct (String.eqb_spec cls c) as [-> | _]; [congruence | reflexivity].
Qed.

(** A loop that updates the class list of [slides[i]] for every [i] of
    [l]: the nodes it reaches end with a list [f] made, the other nodes
    keep theirs. *)
Lemma forEach_updateClasses (f : list string -> list string)
    (P : list string -> Prop) (step : nat -> M unit) :
  (forall x, P (f x)) ->
  (forall n s s', step n s = Ok tt s' -> s' = updateClasses n f s) ->
  forall (l : list Z) (s s' : State),
    forEach l (fun i => n <- slideNode i ;; step n) s = Ok tt s' ->
    slides s' = slides s
    /\ options s' = options s
    /\ engine s' = engine s
    /\ (forall n, touched (slides s) l n -> P (classList s' n))
    /\ (forall n, ~ touched (slides s) l n -> classList s' n = classList s n).
Proof.
  intros Hf Hupdate. induction l as [| i rest IH]; intros s s' Hrun; cbn [forEach] in Hrun.
  - injection Hrun as <-. repeat split.
    intros n (j & el & [] & _).
  - apply bind_inv_Ok in Hrun. destruct Hrun as ([] & s1 & Hstep & Hrest).
    apply bind_inv_Ok in Hstep. destruct Hstep as (n0 & sa & Hnode & Hupd).
    unfold slideNode in Hnode.
    destruct (Z.ltb_spec i 0) as [Hneg | Hpos]; [discriminate |].
    destruct (nth_error (slides s) (Z.to_nat i)) as [el0 |] eqn:Hnth; [| discriminate].
    injection Hnode as <- <-. apply Hupdate in Hupd. subst s1.
    destruct (IH _ s' Hrest) as (S1 & O1 & E1 & T1 & U1).
    cbn in S1, O1, E1, T1, U1.
    split; [exact S1 |]. split; [exact O1 |]. split; [exact E1 |]. split.
    + intros n (j & el & [<- | Hin] & Hj & Hel & Hid).
      * assert (Hdec : touched (slides s) rest n \/ ~ touched (slides s) rest n).
        { clear -Hel. unfold touched.
          induction rest as [| k rest IHr].
          - right. intros (j & e' & [] & _).
          - destruct IHr as [(j & e' & H1 & H2 & H3 & H4) | Hno].
            + left. exists j, e'. cbn. auto.
            + destruct (Z.ltb_spec k 0) as [Hk | Hk].
              * right. intros (j & e' & [<- | H1] & H2 & H3 & H4); [lia |].
                apply Hno. exists j, e'. auto.
              * destruct (nth_error (slides s) (Z.to_nat k)) as [ek |] eqn:Ek.
                -- destruct (Nat.eq_dec (elementId ek) n) as [Hid | Hid].
                   ++ left. exists k, ek. cbn. auto.
                   ++ right. intros (j & e' & [<- | H1] & H2 & H3 & H4);
                        [congruence |]. apply Hno. exists j, e'. auto.
                -- right. intros (j & e' & [<- | H1] & H2 & H3 & H4);
                     [congruence |]. apply Hno. exists j, e'. auto. }
        destruct Hdec as [Hyes | Hno]; [apply T1; exact Hyes |].
        rewrite (U1 n Hno). assert (el = el0) by congruence. subst el.
        rewrite Hid, Nat.eqb_refl. apply Hf.
      * apply T1. exists j, el. auto.
    + intros n Hno. rewrite U1.
      * destruct (Nat.eqb_spec n (elementId el0)) as [-> | _]; [| reflexivity].
        exfalso. apply Hno. exists i, el0. cbn. auto.
      * intros (j & el & Hin & Hj & Hel & Hid). apply Hno. exists j, el. cbn. auto.
Qed.

Lemma removeClass_step (cls : string) (n : nat) (s s' : State) :
  removeClass n cls s = Ok tt s' -> s' = updateClasses n (classRemove cls) s.
Proof. unfold removeClass, modify. intros H. injection H as <-. reflexivity. Qed.

Lemma addClass_step (cls : string) (n : nat) (s s' : State) :
  addClass n cls s = Ok tt s' -> s' = updateClasses n (classAdd cls) s.
Proof.
  unfold addClass. destruct (String.eqb cls EmptyString); [discriminate |].
  destruct (hasWhiteSpace cls); [discriminate |].
  unfold modify. intros H. injection H as <-. reflexivity.
Qed.

Lemma NoDup_elementId (sl : list Element) (i j : nat) (a b : Element) :
  NoDup (map elementId sl) ->
  nth_error sl i = Some a ->
  nth_error sl j = Some b ->
  elementId a = elementId b ->
  i = j.
Proof.
  intros Hnd Ha Hb Hid.
  apply (proj1 (NoDup_nth_error (map elementId sl)) Hnd).
  - rewrite length_map. apply nth_error_Some. congruence.
  - rewrite !nth_error_map, Ha, Hb. cbn. congruence.
Qed.

(** X23.  [toggleSelectedClass] leaves the selected class on exactly the
    slides in view at the target: when the slides are distinct nodes and
    the call returns, a slide carries the class afterwards if and only if
    its index is among [slidesInView(true)]. *)
Theorem toggleSelectedClass_marks (s s' : State) (inView : list Z) :
  reachable params s ->
  NoDup (map elementId (slides s)) ->
  slidesInView true s = Ok inView s ->
  toggleSelectedClass s = Ok tt s' ->
  forall (i : nat) (el : Element),
    nth_error (slides s) i = Some el ->
    (In (Z.of_nat i) inView ->
     hasClass (selectedClass (options s)) (classList s' (elementId el)) = true)
    /\ (~ In (Z.of_nat i) inView ->
        hasClass (selectedClass (options s)) (classList s' (elementId el)) = false).
Proof.
  intros Hreach Hnd Hin Hrun i el Hel. apply reachable_Inv in Hreach.
  destruct Hreach as [[(e & He & Hok) _] _].
  destruct Hok as (_ & _ & _ & Hidx & _).
  unfold toggleSelectedClass, bind at 1, gets in Hrun.
  unfold bind at 1 in Hrun. rewrite Hin in Hrun.
  unfold bind at 1, slidesNotInView, bind at 1 in Hrun. rewrite Hin in Hrun.
  unfold bind at 1, theEngine, ret in Hrun. rewrite He in Hrun.
  apply bind_inv_Ok in Hrun. destruct Hrun as ([] & s1 & Hrem & Hadd).
  set (cls := selectedClass (options s)) in *.
  destruct (forEach_updateClasses (classRemove cls)
              (fun l => hasClass cls l = false) (fun n => removeClass n cls)
              (hasClass_classRemove cls) (removeClass_step cls) _ s s1 Hrem)
    as (S1 & _ & _ & T1 & _).
  destruct (forEach_updateClasses (classAdd cls)
              (fun l => hasClass cls l = true) (fun n => addClass n cls)
              (hasClass_classAdd cls) (addClass_step cls) _ s1 s' Hadd)
    as (_ & _ & _ & T2 & U2).
  rewrite S1 in T2, U2.
  assert (Hi : nth_error (slides s) (Z.to_nat (Z.of_nat i)) = Some el)
    by (rewrite Nat2Z.id; exact Hel).
  split.
  - intros Hmem. apply T2. exists (Z.of_nat i), el. split; [exact Hmem |].
    split; [lia |]. split; [exact Hi | reflexivity].
  - intros Hno. rewrite U2.
    + apply T1. exists (Z.of_nat i), el. split.
      * apply filter_In. split.
        -- rewrite Hidx. apply in_map, in_seq. split; [lia |]. cbn.
           apply nth_error_Some. congruence.
        -- apply indexOf_absent. exact Hno.
      * split; [lia |]. split; [exact Hi | reflexivity].
    + intros (j & el' & Hj & Hpos & Hel' & Hid). apply Hno.
      assert (Z.to_nat j = i) by (apply (NoDup_elementId _ _ _ _ _ Hnd Hel' Hel Hid)).
      replace (Z.of_nat i) with j by lia. exact Hj.
Qed.

End ClassFacts.

(** ** The classes after a teardown *)

Section TearDownClasses.

Variable params : Engine.Params.

Lemma hasClass_classRemove_kept (cls cls' : string) (l : list string) :
  cls <> cls' -> hasClass cls (classRemove cls' l) = hasClass cls l.
Proof.
  intros Hne. unfold classRemove, hasClass. induction l as [| c rest IH]; [reflexivity |].
  cbn. destruct (String.eqb_spec c cls') as [-> | Hc]; cbn.
  - rewrite IH. destruct (String.eqb_spec cls cls'); [contradiction | reflexivity].
  - rewrite IH. reflexivity.
Qed.

Lemma forEach_removeClass_clears (sl : list Element) (st : State) :
  exists cl,
    forEach sl (fun el => o <- gets options ;;
                          removeClass (elementId el) (selectedClass o)) st
    = Ok tt (set_classList cl st)
    /\ (forall n c, hasClass c (classList st n) = false -> hasClass c (cl n) = false)
    /\ (forall el, In el sl ->
          hasClass (selectedClass (options st)) (cl (elementId el)) = false)
    /\ (forall n c, c <> selectedClass (options st) ->
          hasClass c (cl n) = hasClass c (classList st n)).
Proof.
  revert st. induction sl as [| el rest IH]; intros st; cbn [forEach].
  - exists (classList st). split; [destruct st; reflexivity |].
    split; [auto |]. split; [intros el [] | reflexivity].
  - destruct (IH (updateClasses (elementId el)
                    (classRemove (selectedClass (options st))) st))
      as (cl & Hcl & Hkeep & Hclear & Hother).
    exists cl.
    rewrite (bind_Ok _ _ st (updateClasses (elementId el)
                               (classRemove (selectedClass (options st))) st) tt);
      [| reflexivity].
    rewrite Hcl. split; [destruct st; reflexivity |]. split; [| split].
    + intros n c Hn. apply Hkeep. cbn.
      destruct (Nat.eqb n (elementId el)); [| exact Hn].
      apply hasClass_classRemove_other. exact Hn.
    + intros el' [<- | Hin].
      * apply Hkeep. cbn. rewrite Nat.eqb_refl. apply hasClass_classRemove.
      * apply (Hclear el' Hin).
    + intros n c Hc. rewrite (Hother n c Hc). cbn.
      destruct (Nat.eqb n (elementId el)); [| reflexivity].
      apply hasClass_classRemove_kept. exact Hc.
Qed.

Lemma deActivate_clears (s : State) (e : Engine.t) (root : Root) :
  engine s = Some e ->
  sliderRoot s = Some root ->
  exists cl,
    deActivate s
    = Ok tt (mkState (sliderRoot s) cl (timeouts s) (unsubscribed (events s))
                     (EventStore.removeAll (eventStore s)) (Some (tornDown e))
                     (activated s) (options s) (rootElementSize s) (container s)
                     (slides s))
    /\ hasClass (draggableClass (options s)) (cl (rootId root)) = false
    /\ (forall el, In el (slides s) ->
          hasClass (selectedClass (options s)) (cl (elementId el)) = false)
    /\ (forall n c, c <> draggableClass (options s) -> c <> selectedClass (options s) ->
          hasClass c (cl n) = hasClass c (classList s n)).
Proof.
  intros He Hr.
  destruct s as [sr cls tm ev st en ac op rs co sl]. cbn in He, Hr. subst en sr.
  unfold deActivate.
  cbv beta iota delta [bind onEngine theEngine modify theRoot gets removeClass onEvents
                        engine sliderRoot options slides events eventStore set_engine
                        set_eventStore set_events classList timeouts activated
                        rootElementSize container updateClasses set_classList].
  match goal with
  | |- context [forEach sl ?f ?st] =>
      destruct (forEach_removeClass_clears sl st) as (cl & Hcl & Hkeep & Hclear & Hother);
      change (forEach sl f st)
        with (forEach sl (fun el => o <- gets options ;;
                                    removeClass (elementId el) (selectedClass o)) st)
  end.
  exists cl. rewrite Hcl. split; [reflexivity |]. split; [| split].
  - apply Hkeep. cbn. rewrite Nat.eqb_refl. apply hasClass_classRemove.
  - exact Hclear.
  - intros n c Hd Hs. rewrite (Hother n c Hs). cbn.
    destruct (Nat.eqb n (rootId root)); [| reflexivity].
    apply hasClass_classRemove_kept. exact Hd.
Qed.

(** X24.  After [destroy()] on an activated carousel the root does not
    carry the draggable class and no slide carries the selected class.
    No other class of any node is touched; in particular the dragging
    class is not taken back: a root that carries it when the carousel is
    destroyed still carries it afterwards. *)
Theorem destroy_removes_classes (s : State) (root : Root) :
  reachable params s ->
  activated s = true ->
  sliderRoot s = Some root ->
  exists s',
    destroy s = Ok tt s'
    /\ hasClass (draggableClass (options s)) (classList s' (rootId root)) = false
    /\ (forall el, In el (slides s) ->
          hasClass (selectedClass (options s)) (classList s' (elementId el)) = false)
    /\ (forall n c, c <> draggableClass (options s) -> c <> selectedClass (options s) ->
          hasClass c (classList s' n) = hasClass c (classList s n))
    /\ (draggingClass (options s) <> draggableClass (options s) ->
        draggingClass (options s) <> selectedClass (options s) ->
        hasClass (draggingClass (options s)) (classList s (rootId root)) = true ->
        hasClass (draggingClass (options s)) (classList s' (rootId root)) = true).
Proof.
  intros Hreach Hact Hr. apply reachable_Inv in Hreach.
  pose proof Hreach as [[(e & He & _) _] Hown].
  destruct (deActivate_clears s e root He Hr) as (cl & Hd & Hroot & Hslides & Hother).
  pose proof (keeps_deActivate _ (stable_Inv params) s Hreach) as HI0.
  rewrite Hd in HI0. cbn in HI0.
  unfold destroy, bind at 1, gets. rewrite Hact. cbn [negb].
  rewrite (bind_Ok _ _ _ _ tt Hd).
  unfold bind at 1, modify.
  rewrite emit_lifecycleEvent; [| exact (proj2 HI0) | reflexivity].
  eexists. split; [reflexivity |]. cbn. split; [exact Hroot |].
  split; [exact Hslides |]. split; [exact Hother |].
  intros H1 H2 H3. exact (eq_trans (Hother _ _ H1 H2) H3).
Qed.

End TearDownClasses.

(** ** These properties at work on the concrete page *)

Lemma canLoop_feasibility_witness :
  Demo.slidesOf 5 100 <> []
  /\ Forall (fun el => elementSize el = 100) (Demo.slidesOf 5 100)
  /\ SlideLooper.canLoop
       (Engine.slideLooper
          (Engine.new Demo.params (Demo.root 400 5 100)
             (mkContainer 2 400 (Demo.slidesOf 5 100)) (Demo.slidesOf 5 100)
             Demo.defaults)) = true
  /\ loop (options (Demo.carousel 400 5 100 (Demo.startAt 0 true))) = true.
Proof.
  assert (H1 : Demo.slidesOf 5 100 <> []) by discriminate.
  assert (H2 : Forall (fun el => elementSize el = 100) (Demo.slidesOf 5 100))
    by (repeat constructor).
  split; [exact H1 |]. split; [exact H2 |].
  pose proof (canLoop_feasibility Demo.params (Demo.root 400 5 100)
                (mkContainer 2 400 (Demo.slidesOf 5 100)) (Demo.slidesOf 5 100)
                Demo.defaults 100 H1 H2) as H.
  cbv zeta in H. destruct H as (_ & _ & Hedge & Hfacade).
  split; [apply Hedge; reflexivity |].
  apply (Hfacade Demo.defaults Demo.noClasses (Demo.startAt 0 true)
           (Demo.carousel 400 5 100 (Demo.startAt 0 true))).
  - reflexivity.
  - reflexivity.
  - reflexivity.
  - unfold Demo.carousel. apply returned_unit. reflexivity.
  - cbn. lia.
Defined.

Lemma constructed_queries_return_witness :
  let s := Demo.onLastSnap in
  reachable Demo.params s
  /\ (exists i, selectedScrollSnap s = Ok i s)
  /\ (forall target, exists l, slidesNotInView target s = Ok l s)
  /\ threw (scrollNext s) = false.
Proof.
  cbv zeta.
  assert (H1 : reachable Demo.params Demo.onLastSnap)
    by (apply demo_reachable; reflexivity).
  split; [exact H1 |].
  destruct (constructed_queries_return Demo.params _ H1)
    as (A & _ & _ & B & _ & _ & _ & _ & _ & _ & C & _).
  split; [exact A |]. split; [exact B | exact C].
Defined.

Lemma canScrollNext_characterised_witness :
  let s := Demo.carousel 300 5 100 (Demo.startAt 4 false) in
  reachable Demo.params s
  /\ engine s = Some (Demo.engineOf s)
  /\ canScrollNext s = Ok false s.
Proof.
  cbv zeta.
  set (s := Demo.carousel 300 5 100 (Demo.startAt 4 false)).
  assert (H1 : reachable Demo.params s) by (apply demo_reachable; reflexivity).
  assert (H2 : engine s = Some (Demo.engineOf s))
    by (apply engineOf_engine; reflexivity).
  split; [exact H1 |]. split; [exact H2 |].
  exact (canScrollNext_characterised Demo.params s _ H1 H2).
Defined.

Lemma canScrollPrev_characterised_witness :
  let s := Demo.carousel 300 5 100 (Demo.startAt 4 false) in
  reachable Demo.params s
  /\ engine s = Some (Demo.engineOf s)
  /\ canScrollPrev s = Ok true s.
Proof.
  cbv zeta.
  set (s := Demo.carousel 300 5 100 (Demo.startAt 4 false)).
  assert (H1 : reachable Demo.params s) by (apply demo_reachable; reflexivity).
  assert (H2 : engine s = Some (Demo.engineOf s))
    by (apply engineOf_engine; reflexivity).
  split; [exact H1 |]. split; [exact H2 |].
  exact (canScrollPrev_characterised Demo.params s _ H1 H2).
Defined.

Lemma scrollNext_selects_witness :
  let s := Demo.carousel 300 5 100 (Demo.startAt 1 false) in
  reachable Demo.params s
  /\ engine s = Some (Demo.engineOf s)
  /\ activated s = true
  /\ Engine.scrollSnaps (Demo.engineOf s) <> []
  /\ exists s',
       scrollNext s = Ok tt s'
       /\ selectedScrollSnap s' = Ok 2 s'.
Proof.
  cbv zeta.
  set (s := Demo.carousel 300 5 100 (Demo.startAt 1 false)).
  assert (H1 : reachable Demo.params s) by (apply demo_reachable; reflexivity).
  assert (H2 : engine s = Some (Demo.engineOf s))
    by (apply engineOf_engine; reflexivity).
  assert (H3 : activated s = true) by reflexivity.
  assert (H4 : Engine.scrollSnaps (Demo.engineOf s) <> []) by discriminate.
  split; [exact H1 |]. split; [exact H2 |]. split; [exact H3 |]. split; [exact H4 |].
  exact (scrollNext_selects Demo.params s _ H1 H2 H3 H4).
Defined.

Lemma scrollPrev_selects_witness :
  let s := Demo.carousel 300 5 100 (Demo.startAt 0 true) in
  reachable Demo.params s
  /\ engine s = Some (Demo.engineOf s)
  /\ activated s = true
  /\ Engine.scrollSnaps (Demo.engineOf s) <> []
  /\ exists s',
       scrollPrev s = Ok tt s'
       /\ selectedScrollSnap s' = Ok 4 s'.
Proof.
  cbv zeta.
  set (s := Demo.carousel 300 5 100 (Demo.startAt 0 true)).
  assert (H1 : reachable Demo.params s) by (apply demo_reachable; reflexivity).
  assert (H2 : engine s = Some (Demo.engineOf s))
    by (apply engineOf_engine; reflexivity).
  assert (H3 : activated s = true) by reflexivity.
  assert (H4 : Engine.scrollSnaps (Demo.engineOf s) <> []) by discriminate.
  split; [exact H1 |]. split; [exact H2 |]. split; [exact H3 |]. split; [exact H4 |].
  exact (scrollPrev_selects Demo.params s _ H1 H2 H3 H4).
Defined.

Lemma scrollNext_scrollPrev_returns_witness :
  let s := Demo.carousel 300 5 100 (Demo.startAt 1 false) in
  reachable Demo.params s
  /\ engine s = Some (Demo.engineOf s)
  /\ activated s = true
  /\ Engine.scrollSnaps (Demo.engineOf s) <> []
  /\ Counter.get (Engine.index (Demo.engineOf s))
     < Z.of_nat (List.length (Engine.scrollSnaps (Demo.engineOf s))) - 1
  /\ exists s', (scrollNext ;; scrollPrev) s = Ok tt s'
                /\ selectedScrollSnap s' = Ok 1 s'.
Proof.
  cbv zeta.
  set (s := Demo.carousel 300 5 100 (Demo.startAt 1 false)).
  assert (H1 : reachable Demo.params s) by (apply demo_reachable; reflexivity).
  assert (H2 : engine s = Some (Demo.engineOf s))
    by (apply engineOf_engine; reflexivity).
  assert (H3 : activated s = true) by reflexivity.
  assert (H4 : Engine.scrollSnaps (Demo.engineOf s) <> []) by discriminate.
  assert (H5 : Counter.get (Engine.index (Demo.engineOf s))
               < Z.of_nat (List.length (Engine.scrollSnaps (Demo.engineOf s))) - 1)
    by reflexivity.
  split; [exact H1 |]. split; [exact H2 |]. split; [exact H3 |]. split; [exact H4 |].
  split; [exact H5 |].
  exact (scrollNext_scrollPrev_returns Demo.params s _ H1 H2 H3 H4 (or_intror H5)).
Defined.

Lemma scrollPrev_scrollNext_returns_witness :
  let s := Demo.carousel 300 5 100 (Demo.startAt 0 true) in
  reachable Demo.params s
  /\ engine s = Some (Demo.engineOf s)
  /\ activated s = true
  /\ Engine.scrollSnaps (Demo.engineOf s) <> []
  /\ loop (options s) = true
  /\ exists s', (scrollPrev ;; scrollNext) s = Ok tt s'
                /\ selectedScrollSnap s' = Ok 0 s'.
Proof.
  cbv zeta.
  set (s := Demo.carousel 300 5 100 (Demo.startAt 0 true)).
  assert (H1 : reachable Demo.params s) by (apply demo_reachable; reflexivity).
  assert (H2 : engine s = Some (Demo.engineOf s))
    by (apply engineOf_engine; reflexivity).
  assert (H3 : activated s = true) by reflexivity.
  assert (H4 : Engine.scrollSnaps (Demo.engineOf s) <> []) by discriminate.
  assert (H5 : loop (options s) = true) by reflexivity.
  split; [exact H1 |]. split; [exact H2 |]. split; [exact H3 |]. split; [exact H4 |].
  split; [exact H5 |].
  exact (scrollPrev_scrollNext_returns Demo.params s _ H1 H2 H3 H4 (or_introl H5)).
Defined.

Lemma scroll_calls_inactive_witness :
  let s := Demo.destroyed in
  engine s = Some (Demo.engineOf s)
  /\ activated s = false
  /\ exists s' e',
       scrollNext s = Ok tt s'
       /\ engine s' = Some e'
       /\ Engine.index e' = Engine.index (Demo.engineOf s)
       /\ Engine.target e' = Engine.target (Demo.engineOf s).
Proof.
  cbv zeta.
  assert (H1 : engine Demo.destroyed = Some (Demo.engineOf Demo.destroyed))
    by (apply engineOf_engine; reflexivity).
  assert (H2 : activated Demo.destroyed = false) by reflexivity.
  split; [exact H1 |]. split; [exact H2 |].
  destruct (scroll_calls_inactive Demo.destroyed _ 0 None H1 H2 scrollNext)
    as (s' & e' & A & B & C & _ & D & _).
  { right. left. reflexivity. }
  exists s', e'. auto.
Defined.

Lemma construction_outcome_witness :
  let s := Demo.carousel 300 5 100 noOptions in
  EmblaCarousel Demo.params Demo.defaults (Some (Demo.root 300 5 100)) Demo.noClasses
    noOptions = Ok tt s
  /\ activated s = true
  /\ timeouts s = [Ev_init]
  /\ EventEmitter.emitted (events s) = []
  /\ eventStore s = [resizeEntry].
Proof.
  cbv zeta.
  assert (H1 : EmblaCarousel Demo.params Demo.defaults (Some (Demo.root 300 5 100))
                 Demo.noClasses noOptions
               = Ok tt (Demo.carousel 300 5 100 noOptions))
    by (apply returned_unit; reflexivity).
  split; [exact H1 |].
  destruct (construction_outcome Demo.params _ _ _ _ _ H1) as (A & B & C & D & _).
  auto.
Defined.

Lemma loop_on_only_when_feasible_witness :
  EmblaCarousel Demo.params Demo.defaults (Some (Demo.root 300 5 100)) Demo.noClasses
    (Demo.startAt 4 true) = Ok tt Demo.onLastSnap
  /\ exists e',
       engine Demo.onLastSnap = Some e'
       /\ SlideLooper.looping (Engine.slideLooper e') = loop (options Demo.onLastSnap)
       /\ (loop (options Demo.onLastSnap) = true ->
           SlideLooper.canLoop (Engine.slideLooper e') = true).
Proof.
  assert (H1 : EmblaCarousel Demo.params Demo.defaults (Some (Demo.root 300 5 100))
                 Demo.noClasses (Demo.startAt 4 true)
               = Ok tt Demo.onLastSnap)
    by (apply returned_unit; reflexivity).
  split; [exact H1 |].
  apply (loop_on_only_when_feasible Demo.params). left.
  exists Demo.defaults, (Some (Demo.root 300 5 100)), Demo.noClasses,
    (Demo.startAt 4 true).
  exact H1.
Defined.

Lemma reInit_outcome_witness :
  let s := Demo.carousel 300 5 100 (Demo.startAt 2 false) in
  let s' := stateOf (reInit Demo.params noOptions s) in
  reachable Demo.params s
  /\ activated s = true
  /\ selectedScrollSnap s = Ok 2 s
  /\ reInit Demo.params noOptions s = Ok tt s'
  /\ activated s' = true
  /\ EventEmitter.emitted (events s') = EventEmitter.emitted (events s) ++ [Ev_reInit]
  /\ timeouts s' = timeouts s
  /\ eventStore s' = [resizeEntry].
Proof.
  cbv zeta.
  set (s := Demo.carousel 300 5 100 (Demo.startAt 2 false)).
  set (s' := stateOf (reInit Demo.params noOptions s)).
  assert (H1 : reachable Demo.params s) by (apply demo_reachable; reflexivity).
  assert (H2 : activated s = true) by reflexivity.
  assert (H3 : selectedScrollSnap s = Ok 2 s) by reflexivity.
  assert (H4 : reInit Demo.params noOptions s = Ok tt s')
    by (apply returned_unit; reflexivity).
  split; [exact H1 |]. split; [exact H2 |]. split; [exact H3 |]. split; [exact H4 |].
  destruct (reInit_outcome Demo.params s s' noOptions 2 H1 H2 H3 H4)
    as (A & B & C & D & _).
  auto.
Defined.

Lemma reInit_without_container_witness :
  let s := Demo.emptied in
  let root := mkRoot 1 300 [] Demo.notCss in
  reachable Demo.params s
  /\ activated s = true
  /\ sliderRoot s = Some root
  /\ querySelector root (containerSelector (options s)) = None
  /\ exists s0,
       reInit Demo.params noOptions s = Throw MissingContainerNode s0
       /\ eventStore s0 = []
       /\ activated s0 = true.
Proof.
  cbv zeta.
  assert (H1 : reachable Demo.params Demo.emptied).
  { unfold Demo.emptied. apply reachable_step. apply demo_reachable. reflexivity. }
  assert (H2 : activated Demo.emptied = true) by reflexivity.
  assert (H3 : sliderRoot Demo.emptied = Some (mkRoot 1 300 [] Demo.notCss))
    by reflexivity.
  assert (H4 : querySelector (mkRoot 1 300 [] Demo.notCss)
                 (containerSelector (options Demo.emptied)) = None) by reflexivity.
  split; [exact H1 |]. split; [exact H2 |]. split; [exact H3 |]. split; [exact H4 |].
  destruct (reInit_without_container Demo.params _ noOptions _ H1 H2 H3 H4)
    as (s0 & e & A & _ & _ & B & C & _).
  exists s0. auto.
Defined.

Lemma resize_same_size_witness :
  let s := Demo.carousel 300 5 100 noOptions in
  reachable Demo.params s
  /\ activated s = true
  /\ sliderRoot s = Some (Demo.root 300 5 100)
  /\ rootElementSize s = rootSize (Demo.root 300 5 100)
  /\ resize Demo.params s
     = Ok tt (set_events (EventEmitter.record Ev_resize (events s)) s).
Proof.
  cbv zeta.
  set (s := Demo.carousel 300 5 100 noOptions).
  assert (H1 : reachable Demo.params s) by (apply demo_reachable; reflexivity).
  assert (H2 : activated s = true) by reflexivity.
  assert (H3 : sliderRoot s = Some (Demo.root 300 5 100)) by reflexivity.
  assert (H4 : rootElementSize s = rootSize (Demo.root 300 5 100)) by reflexivity.
  split; [exact H1 |]. split; [exact H2 |]. split; [exact H3 |]. split; [exact H4 |].
  exact (resize_same_size Demo.params s _ H1 H2 H3 H4).
Defined.

Lemma resize_changed_size_witness :
  let s := Demo.narrowed in
  let s' := stateOf (resize Demo.params s) in
  reachable Demo.params s
  /\ activated s = true
  /\ sliderRoot s = Some (Demo.root 200 5 100)
  /\ rootElementSize s <> rootSize (Demo.root 200 5 100)
  /\ resize Demo.params s = Ok tt s'
  /\ EventEmitter.emitted (events s')
     = EventEmitter.emitted (events s) ++ [Ev_reInit; Ev_resize]
  /\ rootElementSize s' = 200.
Proof.
  cbv zeta.
  set (s' := stateOf (resize Demo.params Demo.narrowed)).
  assert (H1 : reachable Demo.params Demo.narrowed).
  { unfold Demo.narrowed. apply reachable_step. apply demo_reachable. reflexivity. }
  assert (H2 : activated Demo.narrowed = true) by reflexivity.
  assert (H3 : sliderRoot Demo.narrowed = Some (Demo.root 200 5 100)) by reflexivity.
  assert (H4 : rootElementSize Demo.narrowed <> rootSize (Demo.root 200 5 100))
    by discriminate.
  assert (H5 : resize Demo.params Demo.narrowed = Ok tt s')
    by (apply returned_unit; reflexivity).
  split; [exact H1 |]. split; [exact H2 |]. split; [exact H3 |]. split; [exact H4 |].
  split; [exact H5 |].
  destruct (resize_changed_size Demo.params _ s' _ H1 H2 H3 H4 H5) as (A & B & _).
  split; [exact A | exact B].
Defined.

Lemma construction_queries_default_selector_witness :
  let s := stateOf (EmblaCarousel Demo.params Demo.defaults (Some Demo.nested)
                      Demo.noClasses Demo.inViewport) in
  EmblaCarousel Demo.params Demo.defaults (Some Demo.nested) Demo.noClasses
    Demo.inViewport = Ok tt s
  /\ loop (Object_assign Demo.defaults Demo.inViewport) = false
  /\ container s = Some (mkContainer 2 300 (Demo.slidesOf 5 100))
  /\ querySelector Demo.nested (containerSelector (options s))
     = Some (mkContainer 3 300 [mkElement 20 100; mkElement 21 100]).
Proof.
  cbv zeta.
  set (s := stateOf (EmblaCarousel Demo.params Demo.defaults (Some Demo.nested)
                       Demo.noClasses Demo.inViewport)).
  assert (H1 : EmblaCarousel Demo.params Demo.defaults (Some Demo.nested)
                 Demo.noClasses Demo.inViewport = Ok tt s)
    by (apply returned_unit; reflexivity).
  assert (H2 : loop (Object_assign Demo.defaults Demo.inViewport) = false)
    by reflexivity.
  split; [exact H1 |]. split; [exact H2 |].
  destruct (construction_queries_default_selector Demo.params _ _ _ _ _ H1 H2)
    as (A & _ & B).
  split; [rewrite A; reflexivity | rewrite B; reflexivity].
Defined.

Lemma reInit_queries_previous_selector_witness :
  let s := Demo.wrapped in
  let s' := stateOf (reInit Demo.params Demo.inViewport s) in
  reachable Demo.params s
  /\ activated s = true
  /\ sliderRoot s = Some Demo.nested
  /\ selectedScrollSnap s = Ok 0 s
  /\ loop (Object_assign (options s) (withStartIndex 0 Demo.inViewport)) = false
  /\ reInit Demo.params Demo.inViewport s = Ok tt s'
  /\ container s' = Some (mkContainer 2 300 (Demo.slidesOf 5 100))
  /\ querySelector Demo.nested (containerSelector (options s'))
     = Some (mkContainer 3 300 [mkElement 20 100; mkElement 21 100]).
Proof.
  cbv zeta.
  set (s' := stateOf (reInit Demo.params Demo.inViewport Demo.wrapped)).
  assert (H1 : reachable Demo.params Demo.wrapped).
  { unfold Demo.wrapped. apply constructed_reachable. reflexivity. }
  assert (H2 : activated Demo.wrapped = true) by reflexivity.
  assert (H3 : sliderRoot Demo.wrapped = Some Demo.nested) by reflexivity.
  assert (H4 : selectedScrollSnap Demo.wrapped = Ok 0 Demo.wrapped) by reflexivity.
  assert (H5 : loop (Object_assign (options Demo.wrapped)
                       (withStartIndex 0 Demo.inViewport)) = false) by reflexivity.
  assert (H6 : reInit Demo.params Demo.inViewport Demo.wrapped = Ok tt s')
    by (apply returned_unit; reflexivity).
  split; [exact H1 |]. split; [exact H2 |]. split; [exact H3 |]. split; [exact H4 |].
  split; [exact H5 |]. split; [exact H6 |].
  destruct (reInit_queries_previous_selector Demo.params _ s' _ _ 0 H1 H2 H3 H4 H5 H6)
    as (A & _ & B).
  split; [rewrite A; reflexivity | rewrite B; reflexivity].
Defined.

Lemma destroy_tears_down_witness :
  let s := Demo.carousel 300 5 100 noOptions in
  reachable Demo.params s
  /\ activated s = true
  /\ exists s',
       destroy s = Ok tt s'
       /\ eventStore s' = []
       /\ activated s' = false
       /\ timeouts s' = timeouts s.
Proof.
  cbv zeta.
  set (s := Demo.carousel 300 5 100 noOptions).
  assert (H1 : reachable Demo.params s) by (apply demo_reachable; reflexivity).
  assert (H2 : activated s = true) by reflexivity.
  split; [exact H1 |]. split; [exact H2 |].
  destruct (destroy_tears_down Demo.params s H1 H2)
    as (s' & e & A & _ & _ & B & C & _ & D & _).
  exists s'. auto.
Defined.

Lemma init_fires_after_construction_witness :
  let s := Demo.carousel 300 5 100 noOptions in
  EmblaCarousel Demo.params Demo.defaults (Some (Demo.root 300 5 100)) Demo.noClasses
    noOptions = Ok tt s
  /\ exists s',
       fireTimeouts s = Ok tt s'
       /\ EventEmitter.emitted (events s') = [Ev_init]
       /\ timeouts s' = [].
Proof.
  cbv zeta.
  assert (H1 : EmblaCarousel Demo.params Demo.defaults (Some (Demo.root 300 5 100))
                 Demo.noClasses noOptions
               = Ok tt (Demo.carousel 300 5 100 noOptions))
    by (apply returned_unit; reflexivity).
  split; [exact H1 |].
  destruct (init_fires_after_construction Demo.params _ _ _ _ _ H1)
    as (_ & s' & A & B & C & _).
  exists s'. auto.
Defined.

Lemma destroy_keeps_pending_init_witness :
  let s := Demo.carousel 300 5 100 noOptions in
  EmblaCarousel Demo.params Demo.defaults (Some (Demo.root 300 5 100)) Demo.noClasses
    noOptions = Ok tt s
  /\ exists s1 s2,
       destroy s = Ok tt s1
       /\ fireTimeouts s1 = Ok tt s2
       /\ EventEmitter.emitted (events s2) = [Ev_destroy; Ev_init].
Proof.
  cbv zeta.
  assert (H1 : EmblaCarousel Demo.params Demo.defaults (Some (Demo.root 300 5 100))
                 Demo.noClasses noOptions
               = Ok tt (Demo.carousel 300 5 100 noOptions))
    by (apply returned_unit; reflexivity).
  split; [exact H1 |].
  destruct (destroy_keeps_pending_init Demo.params _ _ _ _ _ H1)
    as (s1 & s2 & A & _ & B & C & _).
  exists s1, s2. auto.
Defined.

Lemma toggleSelectedClass_marks_witness :
  let s := Demo.carousel 300 5 100 noOptions in
  let s' := stateOf (toggleSelectedClass s) in
  reachable Demo.params s
  /\ NoDup (map elementId (slides s))
  /\ slidesInView true s = Ok [0] s
  /\ toggleSelectedClass s = Ok tt s'
  /\ hasClass (selectedClass (options s)) (classList s' 10) = true
  /\ hasClass (selectedClass (options s)) (classList s' 11) = false.
Proof.
  cbv zeta.
  set (s := Demo.carousel 300 5 100 noOptions).
  set (s' := stateOf (toggleSelectedClass s)).
  assert (H1 : reachable Demo.params s) by (apply demo_reachable; reflexivity).
  assert (H2 : NoDup (map elementId (slides s))).
  { change (NoDup [10; 11; 12; 13; 14]%nat).
    repeat (apply NoDup_cons; [cbn; intuition discriminate |]). apply NoDup_nil. }
  assert (H3 : slidesInView true s = Ok [0] s) by reflexivity.
  assert (H4 : toggleSelectedClass s = Ok tt s')
    by (apply returned_unit; reflexivity).
  split; [exact H1 |]. split; [exact H2 |]. split; [exact H3 |]. split; [exact H4 |].
  split.
  - apply (toggleSelectedClass_marks Demo.params s s' [0] H1 H2 H3 H4 0%nat
             (mkElement 10 100) eq_refl).
    left. reflexivity.
  - apply (toggleSelectedClass_marks Demo.params s s' [0] H1 H2 H3 H4 1%nat
             (mkElement 11 100) eq_refl).
    cbn. intuition discriminate.
Defined.

Lemma destroy_removes_classes_witness :
  let s := Demo.dragged in
  reachable Demo.params s
  /\ activated s = true
  /\ sliderRoot s = Some (Demo.root 300 5 100)
  /\ hasClass "is-draggable" (classList s 1) = true
  /\ hasClass "is-dragging" (classList s 1) = true
  /\ exists s',
       destroy s = Ok tt s'
       /\ hasClass "is-draggable" (classList s' 1) = false
       /\ hasClass "is-selected" (classList s' 10) = false
       /\ hasClass "is-dragging" (classList s' 1) = true.
Proof.
  cbv zeta.
  assert (H1 : reachable Demo.params Demo.dragged).
  { unfold Demo.dragged. apply reachable_step. apply demo_reachable. reflexivity. }
  assert (H2 : activated Demo.dragged = true) by reflexivity.
  assert (H3 : sliderRoot Demo.dragged = Some (Demo.root 300 5 100)) by reflexivity.
  split; [exact H1 |]. split; [exact H2 |]. split; [exact H3 |].
  split; [reflexivity |]. split; [reflexivity |].
  destruct (destroy_removes_classes Demo.params Demo.dragged _ H1 H2 H3)
    as (s' & A & B & C & _ & D).
  exists s'. split; [exact A |]. split; [exact B |]. split.
  - apply (C (mkElement 10 100)). left. reflexivity.
  - apply D; [discriminate | discriminate | reflexivity].
Defined.

